(** * cf-mailer: a verification development for the SMTP submission client

    The development embeds the TypeScript sources of the client
    (response reader, command writer, capability parser, transport mode
    selector, auth negotiator, message builder, dot-stuffer, session
    orchestrator, input validation and the public [createMailer]) as Rocq
    functions and proves properties of them.

    Conventions of the embedding.
    - A JavaScript string is a Rocq [string]; one [ascii] stands for one
      UTF-16 code unit in the range U+0000..U+00FF.  SMTP is a 7-bit
      protocol, so every reply and command of a real session lives there.
      The user name and the password are kept as sequences of code units
      of any value ([CodeUnits]), because [btoa] throws on the code units
      above U+00FF.
    - What a socket delivers is bytes.  The response reader is embedded
      twice: on the texts that the shared [TextDecoder] makes of the
      successive chunks ([readSmtpResponse]), the form the session uses,
      and on the bytes themselves with the decoder's state threaded
      through the reads ([readSmtpResponseFrom]); the two are proved to
      agree.
    - A JavaScript [number] that comes out of [Number(text)] is kept as the
      exact decimal value of the literal ([JsNumber]).
    - Code that throws returns [Throw e]; asynchronous code threads the
      observable world (pending network input, connection log) explicitly. *)

From Stdlib Require Import String Ascii List NArith ZArith Bool Arith Lia.
From Stdlib.Strings Require Import Byte.
From Equations Require Import Equations.
From Equations.Prop Require Import Logic.
Import ListNotations.

Local Open Scope list_scope.
Local Open Scope string_scope.

(* ===================================================================== *)
(** * JavaScript string primitives                                         *)
(* ===================================================================== *)

Module Js.

Definition LF : string := String "010"%char EmptyString.
Definition CR : string := String "013"%char EmptyString.

(** [s.startsWith(p)] *)
Definition startsWith (s p : string) : bool := String.prefix p s.

(** [s.indexOf(t)]; [None] stands for the result [-1]. *)
Definition indexOf (s t : string) : option nat := String.index 0 t s.

(** [s.includes(t)] *)
Definition includes (s t : string) : bool :=
  match indexOf s t with Some _ => true | None => false end.

(** [s.slice(a, b)] for [0 <= a <= b]; indices past the end are clamped. *)
Definition slice (s : string) (a b : nat) : string := String.substring a (b - a) s.

(** [s.slice(a)] *)
Definition sliceFrom (s : string) (a : nat) : string :=
  String.substring a (String.length s - a) s.

(** [s[i]]; [None] stands for [undefined]. *)
Definition at_ (s : string) (i : nat) : option ascii := String.get i s.

(** [parts.join(sep)] *)
Definition join (sep : string) (parts : list string) : string := String.concat sep parts.

(** The white space and line terminator code units recognised by
    [trim], by [\s] and by the numeric string grammar: TAB, LF, VT, FF,
    CR, SP and NBSP (the ones below U+0100). *)
Definition isWhiteSpace (c : ascii) : bool :=
  let n := nat_of_ascii c in
  (((9 <=? n) && (n <=? 13)) || (n =? 32) || (n =? 160))%nat.

Definition isDigit (c : ascii) : bool :=
  let n := nat_of_ascii c in ((48 <=? n) && (n <=? 57))%nat.

Fixpoint trimStart (s : string) : string :=
  match s with
  | String c s' => if isWhiteSpace c then trimStart s' else s
  | EmptyString => EmptyString
  end.

(** Drops trailing white space: a character is kept when something
    that is kept follows it, or when it is not white space itself. *)
Fixpoint trimEnd (s : string) : string :=
  match s with
  | EmptyString => EmptyString
  | String c s' =>
      match trimEnd s' with
      | EmptyString => if isWhiteSpace c then EmptyString else String c EmptyString
      | t => String c t
      end
  end.

(** [s.trim()] *)
Definition trim (s : string) : string := trimEnd (trimStart s).

End Js.

(* ===================================================================== *)
(** * Numbers produced by [Number(text)]                                   *)
(* ===================================================================== *)

(** The value of a numeric string: [NaN], an infinity, or the decimal
    [mantissa * 10 ^ exp10].  The literal's exact value is kept, not its
    nearest double: for the literals of at most three characters that the
    reader converts, rounding changes neither finiteness nor equality
    with an integer.  The two zeros are not told apart (neither
    [Number.isFinite], nor [Array.prototype.includes], nor string
    interpolation tells them apart). *)
Inductive JsNumber : Type :=
| NaN
| Infinite (negative : bool)
| Dec (mantissa : Z) (exp10 : Z).

Module JsNum.

Definition isFinite (x : JsNumber) : bool :=
  match x with Dec _ _ => true | _ => false end.

(** [x === k] for an integer [k]. *)
Definition eqInt (x : JsNumber) (k : Z) : bool :=
  match x with
  | Dec m e =>
      if (0 <=? e)%Z then (m * 10 ^ e =? k)%Z
      else (m =? k * 10 ^ (- e))%Z
  | _ => false
  end.

Definition ofInt (k : Z) : JsNumber := Dec k 0.

(** Longest prefix of characters satisfying [p], and the rest. *)
Fixpoint span (p : ascii -> bool) (s : string) : string * string :=
  match s with
  | String c s' =>
      if p c then let (a, b) := span p s' in (String c a, b)
      else (EmptyString, s)
  | EmptyString => (EmptyString, EmptyString)
  end.

(** Value of one digit in a base up to 16, if it is one. *)
Definition digitValue (base : Z) (c : ascii) : option Z :=
  let n := Z.of_nat (nat_of_ascii c) in
  let v :=
    if ((48 <=? n) && (n <=? 57))%Z then Some (n - 48)%Z
    else if ((97 <=? n) && (n <=? 102))%Z then Some (n - 87)%Z
    else if ((65 <=? n) && (n <=? 70))%Z then Some (n - 55)%Z
    else None in
  match v with
  | Some d => if (d <? base)%Z then Some d else None
  | None => None
  end.

(** Reads a whole string as digits of the given base. *)
Fixpoint digitsFrom (base : Z) (acc : Z) (s : string) : option Z :=
  match s with
  | EmptyString => Some acc
  | String c s' =>
      match digitValue base c with
      | Some d => digitsFrom base (acc * base + d)%Z s'
      | None => None
      end
  end.

Definition digits (base : Z) (s : string) : option Z :=
  match s with
  | EmptyString => None
  | _ => digitsFrom base 0%Z s
  end.

(** [ExponentPart_opt] at the end of a decimal literal: nothing, or
    [e]/[E], an optional sign and at least one digit. *)
Definition exponentPart (s : string) : option Z :=
  match s with
  | EmptyString => Some 0%Z
  | String c s' =>
      if (Ascii.eqb c "e" || Ascii.eqb c "E")%bool then
        match s' with
        | String "+" ds => digits 10 ds
        | String "-" ds => option_map Z.opp (digits 10 ds)
        | ds => digits 10 ds
        end
      else None
  end.

(** [StrUnsignedDecimalLiteral] *)
Definition unsignedDecimal (s : string) : option JsNumber :=
  if String.eqb s "Infinity" then Some (Infinite false) else
  let (ip, r1) := span Js.isDigit s in
  match r1 with
  | String "." r2 =>
      let (fp, r3) := span Js.isDigit r2 in
      match ip, fp with
      | EmptyString, EmptyString => None
      | _, _ =>
          match digitsFrom 10 0%Z (ip ++ fp), exponentPart r3 with
          | Some m, Some e => Some (Dec m (e - Z.of_nat (String.length fp)))
          | _, _ => None
          end
      end
  | _ =>
      match digits 10 ip, exponentPart r1 with
      | Some m, Some e => Some (Dec m e)
      | _, _ => None
      end
  end.

Definition negate (x : JsNumber) : JsNumber :=
  match x with
  | NaN => NaN
  | Infinite b => Infinite (negb b)
  | Dec m e => Dec (- m) e
  end.

(** [StrNumericLiteral]: a signed decimal literal, or an unsigned
    binary, octal or hexadecimal integer literal. *)
Definition numericLiteral (s : string) : option JsNumber :=
  match s with
  | String "0" (String x ds) =>
      if (Ascii.eqb x "x" || Ascii.eqb x "X")%bool then option_map ofInt (digits 16 ds)
      else if (Ascii.eqb x "o" || Ascii.eqb x "O")%bool then option_map ofInt (digits 8 ds)
      else if (Ascii.eqb x "b" || Ascii.eqb x "B")%bool then option_map ofInt (digits 2 ds)
      else unsignedDecimal s
  | String "+" s' => unsignedDecimal s'
  | String "-" s' => option_map negate (unsignedDecimal s')
  | _ => unsignedDecimal s
  end.

(** [Number(text)]: the string-to-number conversion of the language
    (ECMA-262, StringToNumber).  White space around the literal is
    ignored, the empty literal is zero, anything outside the grammar is
    [NaN]. *)
Definition Number (text : string) : JsNumber :=
  match Js.trim text with
  | EmptyString => Dec 0 0
  | t => match numericLiteral t with Some x => x | None => NaN end
  end.

End JsNum.

(* ===================================================================== *)
(** * Errors and outcomes                                                  *)
(* ===================================================================== *)

(** The errors the client throws, one constructor per [throw] site.
    - [UnsupportedPort]: smtp-send-mail.ts, "Port 25 is not supported on
      Cloudflare Workers".
    - [ConnectionClosed]: read-smtp-response.ts, "SMTP connection closed
      unexpectedly".
    - [MalformedResponse first]: read-smtp-response.ts, "Invalid SMTP
      response line: <first>".
    - [ProtocolError context code lines]: assert-smtp-ok.ts, "<context>
      failed with code <code>: <lines joined by ' | '>".
    - [AuthUnsupported]: smtp-auth.ts, "SMTP server does not support AUTH
      PLAIN or AUTH LOGIN".
    - [ValidationError]: the two validators, first schema issue.
    - [InvalidCharacter]: the [InvalidCharacterError] that [btoa] throws
      in smtp-auth.ts. *)
Inductive SmtpError : Type :=
| UnsupportedPort
| ConnectionClosed
| MalformedResponse (first : string)
| ProtocolError (context : string) (code : JsNumber) (lines : list string)
| AuthUnsupported
| ValidationError
| InvalidCharacter.

Inductive Outcome (A : Type) : Type :=
| Ok (value : A)
| Throw (error : SmtpError).
Arguments Ok {A} value.
Arguments Throw {A} error.

(* ===================================================================== *)
(** * Response reader (read-smtp-response.ts)                              *)
(* ===================================================================== *)

Record SmtpResponse : Type := mkResponse {
  code : JsNumber;
  lines : list string
}.

(** A reader is the sequence of text chunks that the successive
    [reader.read()] calls deliver, each already passed through
    [decoder.decode(value, {stream: true})]; when the sequence is
    exhausted the stream reports [done].  The text of a chunk is the one
    that the decoder shared by the reads makes of its bytes in the state
    in which the chunks before it have left it.  The reader on the bytes
    themselves, with that state, is [readSmtpResponseFrom] below. *)
Definition SmtpReader : Type := list string.

Module Reader.

(** [rawLine.replace(/\r?\n$/, empty)]: the pattern is anchored at the end
    of the text, so only a final LF, with the CR before it if there is
    one, is removed. *)
Fixpoint stripEol (rawLine : string) : string :=
  match rawLine with
  | EmptyString => EmptyString
  | String c rest =>
      if String.eqb rawLine Js.LF then EmptyString
      else if String.eqb rawLine (Js.CR ++ Js.LF) then EmptyString
      else String c (stripEol rest)
  end.

(** The loop [while (!buffer.includes("\n")) { ... buffer += decode(...) }]
    of [readLine]: [None] when the stream is done first. *)
Fixpoint fill (buffer : string) (reader : SmtpReader) : option (string * SmtpReader) :=
  if Js.includes buffer Js.LF then Some (buffer, reader)
  else
    match reader with
    | [] => None
    | chunk :: reader' => fill (buffer ++ chunk) reader'
    end.

(** The closure [readLine]: the captured [buffer] and the reader are
    threaded explicitly.  Returns the line, the new buffer and the new
    reader state.  After [fill] the buffer holds a line feed; were there
    none, [indexOf] would give -1 and the two slices the empty line and
    the whole buffer, which is what the last branch returns. *)
Definition readLine (buffer : string) (reader : SmtpReader)
  : Outcome string * string * SmtpReader :=
  match fill buffer reader with
  | None => (Throw ConnectionClosed, buffer, [])
  | Some (buffer1, reader1) =>
      match Js.indexOf buffer1 Js.LF with
      | Some newlineIndex =>
          let rawLine := Js.slice buffer1 0 (newlineIndex + 1) in
          let buffer2 := Js.sliceFrom buffer1 (newlineIndex + 1) in
          (Ok (stripEol rawLine), buffer2, reader1)
      | None => (Ok EmptyString, buffer1, reader1)
      end
  end.

(** Amount of text still to come: the measure of the multi-line loop. *)
Definition pending (buffer : string) (reader : SmtpReader) : nat :=
  String.length buffer + list_sum (map String.length reader).

End Reader.

(** ** Termination of the multi-line loop

    Every line that [readLine] returns removes at least its line feed
    from the text still to come. *)
Module ReaderTermination.
Import Reader.

(** A view of [indexOf]/[slice] at the first line feed: the text before
    it and the text after it. *)
Fixpoint cutLine (s : string) : option (string * string) :=
  match s with
  | EmptyString => None
  | String c s' =>
      if Ascii.eqb c "010" then Some (EmptyString, s')
      else match cutLine s' with
           | Some (a, b) => Some (String c a, b)
           | None => None
           end
  end.

Lemma indexOf_LF_cons c s :
  Js.indexOf (String c s) Js.LF =
  if Ascii.eqb c "010" then Some 0
  else option_map S (Js.indexOf s Js.LF).
Proof.
  unfold Js.indexOf, Js.LF. cbn [index prefix].
  destruct (ascii_dec "010" c) as [<- | Hne].
  - now destruct s.
  - destruct (Ascii.eqb_spec c "010"); [congruence|].
    destruct (index 0 _ s); reflexivity.
Qed.

Lemma substring_all s : substring 0 (String.length s) s = s.
Proof. induction s; simpl; [reflexivity | now rewrite IHs]. Qed.

Lemma slice_0_0 s : Js.slice s 0 0 = EmptyString.
Proof. now destruct s. Qed.

Lemma slice_cons c s n : Js.slice (String c s) 0 (S n) = String c (Js.slice s 0 n).
Proof. unfold Js.slice. simpl. now rewrite Nat.sub_0_r. Qed.

Lemma sliceFrom_0 s : Js.sliceFrom s 0 = s.
Proof. unfold Js.sliceFrom. rewrite Nat.sub_0_r. apply substring_all. Qed.

Lemma sliceFrom_cons c s n : Js.sliceFrom (String c s) (S n) = Js.sliceFrom s n.
Proof. reflexivity. Qed.

Lemma indexOf_cutLine s :
  match cutLine s with
  | Some (a, b) =>
      Js.indexOf s Js.LF = Some (String.length a) /\
      Js.slice s 0 (String.length a + 1) = a ++ Js.LF /\
      Js.sliceFrom s (String.length a + 1) = b /\
      s = a ++ Js.LF ++ b
  | None => Js.indexOf s Js.LF = None
  end.
Proof.
  induction s as [|c s IH].
  - reflexivity.
  - cbn [cutLine]. rewrite indexOf_LF_cons.
    destruct (Ascii.eqb_spec c "010") as [-> | Hne].
    + cbn [String.length Nat.add]. rewrite slice_cons, slice_0_0, sliceFrom_cons, sliceFrom_0.
      repeat split; reflexivity.
    + destruct (cutLine s) as [[a b]|].
      * destruct IH as (Hi & Hs & Hf & He).
        rewrite Hi. cbn [String.length Nat.add option_map].
        rewrite slice_cons, sliceFrom_cons, Hs, Hf.
        repeat split; try reflexivity.
        cbn [append]. now rewrite <- He.
      * rewrite IH. reflexivity.
Qed.

Lemma length_append (a b : string) :
  String.length (a ++ b) = String.length a + String.length b.
Proof. induction a; simpl; [reflexivity | now rewrite IHa]. Qed.

Lemma fill_pending buffer reader buffer1 reader1 :
  fill buffer reader = Some (buffer1, reader1) ->
  pending buffer1 reader1 = pending buffer reader /\
  Js.includes buffer1 Js.LF = true.
Proof.
  revert buffer. induction reader as [|chunk reader IH]; intros buffer; simpl.
  - destruct (Js.includes buffer Js.LF) eqn:E; [|discriminate].
    intros [= <- <-]. auto.
  - destruct (Js.includes buffer Js.LF) eqn:E.
    + intros [= <- <-]. auto.
    + intros H. apply IH in H as [H1 H2]. split; [|exact H2].
      rewrite H1. unfold pending. rewrite length_append. simpl. lia.
Qed.

Lemma readLine_decreases buffer reader line buffer' reader' :
  readLine buffer reader = (Ok line, buffer', reader') ->
  pending buffer' reader' < pending buffer reader.
Proof.
  unfold readLine. destruct (fill buffer reader) as [[b1 r1]|] eqn:F; [|discriminate].
  apply fill_pending in F as [<- Hin].
  unfold Js.includes in Hin.
  pose proof (indexOf_cutLine b1) as Hc.
  destruct (cutLine b1) as [[a b]|].
  - destruct Hc as (Hi & _ & Hf & He). rewrite Hi, Hf.
    intros [= _ <- <-]. unfold pending.
    rewrite He, !length_append. simpl. lia.
  - rewrite Hc in Hin. discriminate.
Qed.

End ReaderTermination.

(** The loop [while (true) { line = await readLine(); lines.push(line);
    if (line.startsWith(codeStr + " ")) break; }].  It ends because each
    round consumes a line of the pending text. *)
Equations? readMore (codeStr : string) (buffer : string) (reader : SmtpReader)
  (lines : list string) : Outcome (list string) * SmtpReader
  by wf (Reader.pending buffer reader) lt :=
  readMore codeStr buffer reader lines with inspect (Reader.readLine buffer reader) := {
    | exist _ (Throw e, _, reader') _ => (Throw e, reader')
    | exist _ (Ok line, buffer', reader') Hread =>
        if Js.startsWith line (codeStr ++ " ")
        then (Ok (lines ++ [line])%list, reader')
        else readMore codeStr buffer' reader' (lines ++ [line])%list }.
Proof.
  eapply ReaderTermination.readLine_decreases; eassumption.
Qed.

(** [readSmtpResponse({ reader, decoder })]: returns the reply or the
    error thrown, and the reader as the call leaves it.  [buffer] and
    [lines] are locals of the call. *)
Definition readSmtpResponse (reader : SmtpReader) : Outcome SmtpResponse * SmtpReader :=
  let buffer := EmptyString in
  let lines : list string := [] in
  match Reader.readLine buffer reader with
  | (Throw e, _, reader1) => (Throw e, reader1)
  | (Ok first, buffer1, reader1) =>
      let lines := (lines ++ [first])%list in
      let codeStr := Js.slice first 0 3 in
      let code := JsNum.Number codeStr in
      if negb (JsNum.isFinite code) || negb (String.length codeStr =? 3)%nat
      then (Throw (MalformedResponse first), reader1)
      else
        let isMultiline :=
          match Js.at_ first 3 with Some c => Ascii.eqb c "-" | None => false end in
        if negb isMultiline then (Ok (mkResponse code lines), reader1)
        else
          match readMore codeStr buffer1 reader1 lines with
          | (Throw e, reader2) => (Throw e, reader2)
          | (Ok lines, reader2) => (Ok (mkResponse code lines), reader2)
          end
  end.

(* ===================================================================== *)
(** * Response reader on the bytes of the stream                          *)
(* ===================================================================== *)

(** What one [reader.read()] delivers: the bytes of a [Uint8Array]. *)
Definition Bytes : Type := list byte.

(** The [TextDecoder] that the reads of a session share.  [decode d value]
    is the text that [decoder.decode(value, {stream: true})] returns when
    the decoder is in state [d], with the state in which the call leaves
    it.  In this mode the decoder works through the bytes one after the
    other and keeps what it has not yet turned into text: an empty value
    changes nothing, and a value decoded in two parts gives the two texts
    one after the other. *)
Class TextDecoding (Decoder : Type) : Type := {
  decode : Decoder -> Bytes -> string * Decoder;
  decode_nil : forall d, decode d [] = (EmptyString, d);
  decode_app : forall d a b,
    decode d (a ++ b)%list =
    (fst (decode d a) ++ fst (decode (snd (decode d a)) b),
     snd (decode (snd (decode d a)) b))
}.

Section ByteReader.
Context {Decoder : Type} `{TextDecoding Decoder}.

(** The texts that the reads deliver from a stream of byte chunks when
    the decoder starts in state [d]. *)
Fixpoint decoded (d : Decoder) (reader : list Bytes) : SmtpReader :=
  match reader with
  | [] => []
  | value :: reader' => fst (decode d value) :: decoded (snd (decode d value)) reader'
  end.

(** The state of the decoder after the chunks [values]. *)
Fixpoint decoderAfter (d : Decoder) (values : list Bytes) : Decoder :=
  match values with
  | [] => d
  | value :: rest => decoderAfter (snd (decode d value)) rest
  end.

(** The loop of [readLine], with [reader.read()] and [decoder.decode]
    written out: [None] when the stream is done first. *)
Fixpoint fillFrom (buffer : string) (d : Decoder) (reader : list Bytes)
  : option string * Decoder * list Bytes :=
  if Js.includes buffer Js.LF then (Some buffer, d, reader)
  else
    match reader with
    | [] => (None, d, [])
    | value :: reader' =>
        fillFrom (buffer ++ fst (decode d value)) (snd (decode d value)) reader'
    end.

(** The closure [readLine] on the bytes: the captured [buffer], the
    decoder and the reader are threaded explicitly. *)
Definition readLineFrom (buffer : string) (d : Decoder) (reader : list Bytes)
  : Outcome string * string * Decoder * list Bytes :=
  match fillFrom buffer d reader with
  | (None, d1, reader1) => (Throw ConnectionClosed, buffer, d1, reader1)
  | (Some buffer1, d1, reader1) =>
      match Js.indexOf buffer1 Js.LF with
      | Some newlineIndex =>
          let rawLine := Js.slice buffer1 0 (newlineIndex + 1) in
          let buffer2 := Js.sliceFrom buffer1 (newlineIndex + 1) in
          (Ok (Reader.stripEol rawLine), buffer2, d1, reader1)
      | None => (Ok EmptyString, buffer1, d1, reader1)
      end
  end.

(** Reading the bytes is reading the texts that the decoder makes of
    them. *)
Lemma fillFrom_decoded buffer d reader :
  Reader.fill buffer (decoded d reader) =
  match fillFrom buffer d reader with
  | (Some buffer1, d1, reader1) => Some (buffer1, decoded d1 reader1)
  | (None, _, _) => None
  end.
Proof.
  revert buffer d. induction reader as [|value reader IH]; intros buffer d.
  - cbn. now destruct (Js.includes buffer Js.LF).
  - cbn [decoded Reader.fill fillFrom].
    destruct (Js.includes buffer Js.LF); [reflexivity | apply IH].
Qed.

Lemma readLineFrom_decoded buffer d reader :
  Reader.readLine buffer (decoded d reader) =
  match readLineFrom buffer d reader with
  | (line, buffer1, d1, reader1) => (line, buffer1, decoded d1 reader1)
  end.
Proof.
  unfold Reader.readLine, readLineFrom. rewrite fillFrom_decoded.
  destruct (fillFrom buffer d reader) as [[[buffer1|] d1] reader1] eqn:F.
  - now destruct (Js.indexOf buffer1 Js.LF).
  - enough (reader1 = []) as -> by reflexivity.
    revert buffer d F. induction reader as [|value reader IH]; intros buffer d; cbn.
    + destruct (Js.includes buffer Js.LF); now intros [= ].
    + destruct (Js.includes buffer Js.LF); [discriminate | apply IH].
Qed.

Lemma readLineFrom_decreases buffer d reader line buffer1 d1 reader1 :
  readLineFrom buffer d reader = (Ok line, buffer1, d1, reader1) ->
  Reader.pending buffer1 (decoded d1 reader1) < Reader.pending buffer (decoded d reader).
Proof.
  intros Hline. apply (ReaderTermination.readLine_decreases _ _ line).
  now rewrite readLineFrom_decoded, Hline.
Qed.

(** The multi-line loop on the bytes. *)
Equations? readMoreFrom (codeStr : string) (buffer : string) (d : Decoder)
  (reader : list Bytes) (lines : list string)
  : Outcome (list string) * Decoder * list Bytes
  by wf (Reader.pending buffer (decoded d reader)) lt :=
  readMoreFrom codeStr buffer d reader lines with inspect (readLineFrom buffer d reader) := {
    | exist _ (Throw e, _, d1, reader1) _ => (Throw e, d1, reader1)
    | exist _ (Ok line, buffer1, d1, reader1) Hread =>
        if Js.startsWith line (codeStr ++ " ")
        then (Ok (lines ++ [line])%list, d1, reader1)
        else readMoreFrom codeStr buffer1 d1 reader1 (lines ++ [line])%list }.
Proof.
  eapply readLineFrom_decreases; eassumption.
Qed.

(** [readSmtpResponse({ reader, decoder })] on the bytes: returns the
    reply or the error thrown, and the decoder and the reader as the
    call leaves them.  [buffer] and [lines] are locals of the call; the
    decoder is the caller's. *)
Definition readSmtpResponseFrom (d : Decoder) (reader : list Bytes)
  : Outcome SmtpResponse * Decoder * list Bytes :=
  let buffer := EmptyString in
  let lines : list string := [] in
  match readLineFrom buffer d reader with
  | (Throw e, _, d1, reader1) => (Throw e, d1, reader1)
  | (Ok first, buffer1, d1, reader1) =>
      let lines := (lines ++ [first])%list in
      let codeStr := Js.slice first 0 3 in
      let code := JsNum.Number codeStr in
      if negb (JsNum.isFinite code) || negb (String.length codeStr =? 3)%nat
      then (Throw (MalformedResponse first), d1, reader1)
      else
        let isMultiline :=
          match Js.at_ first 3 with Some c => Ascii.eqb c "-" | None => false end in
        if negb isMultiline then (Ok (mkResponse code lines), d1, reader1)
        else
          match readMoreFrom codeStr buffer1 d1 reader1 lines with
          | (Throw e, d2, reader2) => (Throw e, d2, reader2)
          | (Ok lines, d2, reader2) => (Ok (mkResponse code lines), d2, reader2)
          end
  end.

(** What a call has read is an initial part of the stream, and it
    leaves the decoder in the state that this part puts it in. *)
Definition consumes (d : Decoder) (reader : list Bytes) (d1 : Decoder)
  (reader1 : list Bytes) : Prop :=
  exists values, reader = (values ++ reader1)%list /\ d1 = decoderAfter d values.

End ByteReader.

(** ** The decoder of [new TextDecoder()] *)

(** The UTF-8 decoder of the Encoding Standard, run in the streaming
    mode, with the flag that [TextDecoder] keeps for the byte order
    mark. *)
Module Utf8.

Record State : Type := mkState {
  codePoint : N;
  bytesNeeded : nat;
  bytesSeen : nat;
  lowerBoundary : N;
  upperBoundary : N;
  bomSeen : bool
}.

(** [new TextDecoder()] *)
Definition fresh : State := mkState 0 0 0 128 191 false.

(** The decoder between two characters. *)
Definition idle (s : State) : State := mkState 0 0 0 128 191 (bomSeen s).

(** A byte that comes when no sequence is under way: a character of its
    own, the first byte of a sequence of two, three or four, or a byte
    that starts nothing, for which U+FFFD is put out. *)
Definition lead (s : State) (b : N) : list N * State :=
  if (b <=? 127)%N then ([b], idle s)
  else if (194 <=? b)%N && (b <=? 223)%N then
    ([], mkState (b - 192) 1 0 128 191 (bomSeen s))
  else if (224 <=? b)%N && (b <=? 239)%N then
    ([], mkState (b - 224) 2 0 (if (b =? 224)%N then 160 else 128)
                 (if (b =? 237)%N then 159 else 191) (bomSeen s))
  else if (240 <=? b)%N && (b <=? 244)%N then
    ([], mkState (b - 240) 3 0 (if (b =? 240)%N then 144 else 128)
                 (if (b =? 244)%N then 143 else 191) (bomSeen s))
  else ([65533%N], idle s).

(** One byte through the decoder: the scalar values put out and the new
    state.  A byte that cannot continue the sequence under way ends it
    with U+FFFD and is looked at again as a first byte. *)
Definition handler (s : State) (b : N) : list N * State :=
  match bytesNeeded s with
  | O => lead s b
  | S _ =>
      if (b <? lowerBoundary s)%N || (upperBoundary s <? b)%N then
        (65533%N :: fst (lead (idle s) b), snd (lead (idle s) b))
      else
        let scalar := (codePoint s * 64 + (b - 128))%N in
        if (S (bytesSeen s) =? bytesNeeded s)%nat then ([scalar], idle s)
        else ([], mkState scalar (bytesNeeded s) (S (bytesSeen s)) 128 191 (bomSeen s))
  end.

(** [TextDecoder] drops a byte order mark that is the first character
    of the stream. *)
Definition serialize (s : State) (out : list N) : list N * State :=
  match out with
  | [] => ([], s)
  | first :: rest =>
      if bomSeen s then (out, s)
      else (if (first =? 65279)%N then rest else out,
            mkState (codePoint s) (bytesNeeded s) (bytesSeen s)
                    (lowerBoundary s) (upperBoundary s) true)
  end.

Definition step (s : State) (b : byte) : list N * State :=
  serialize (snd (handler s (Byte.to_N b))) (fst (handler s (Byte.to_N b))).

(** The scalar values that [value] decodes to in state [s]; at the end
    of the value the bytes of an incomplete sequence stay in the state. *)
Fixpoint scalars (s : State) (value : Bytes) : list N * State :=
  match value with
  | [] => ([], s)
  | b :: rest =>
      ((fst (step s b) ++ fst (scalars (snd (step s b)) rest))%list,
       snd (scalars (snd (step s b)) rest))
  end.

(** The text of scalar values.  A scalar value from U+0100 on has no
    counterpart in [string]: it is rendered as a question mark for each
    of its UTF-16 code units.  [exact] tells whether a text is free of
    them, that is, whether the rendering is the text itself. *)
Definition renderOne (scalar : N) : string :=
  if (scalar <? 256)%N then String (ascii_of_N scalar) EmptyString
  else if (scalar <? 65536)%N then "?" else "??".

Fixpoint render (out : list N) : string :=
  match out with
  | [] => EmptyString
  | scalar :: rest => renderOne scalar ++ render rest
  end.

Definition exact (out : list N) : bool := forallb (fun scalar => (scalar <? 256)%N) out.

(** [decoder.decode(value, {stream: true})] *)
Definition decode (s : State) (value : Bytes) : string * State :=
  (render (fst (scalars s value)), snd (scalars s value)).

Lemma render_app a b : render (a ++ b)%list = render a ++ render b.
Proof.
  induction a as [|scalar a IH]; [reflexivity|].
  cbn [List.app render]. rewrite IH. clear IH.
  induction (renderOne scalar) as [|c t IHt]; [reflexivity|].
  cbn [append]. now rewrite IHt.
Qed.

Lemma scalars_app s a b :
  scalars s (a ++ b)%list =
  (fst (scalars s a) ++ fst (scalars (snd (scalars s a)) b),
   snd (scalars (snd (scalars s a)) b))%list.
Proof.
  revert s. induction a as [|x a IH]; intros s.
  - cbn [List.app scalars fst snd]. now destruct (scalars s b).
  - cbn [List.app scalars fst snd]. rewrite IH. cbn [fst snd].
    now rewrite app_assoc.
Qed.

Lemma decode_app s a b :
  decode s (a ++ b)%list =
  (fst (decode s a) ++ fst (decode (snd (decode s a)) b),
   snd (decode (snd (decode s a)) b)).
Proof.
  unfold decode. cbn [fst snd]. rewrite scalars_app. cbn [fst snd].
  now rewrite render_app.
Qed.

End Utf8.

#[export] Instance utf8Decoding : TextDecoding Utf8.State := {|
  decode := Utf8.decode;
  decode_nil := fun s => eq_refl;
  decode_app := Utf8.decode_app
|}.

(** The bytes of a text of 7-bit characters. *)
Definition bytesOf (text : string) : Bytes := list_byte_of_string text.

(* ===================================================================== *)
(** * The observable world and the monad of asynchronous code              *)
(* ===================================================================== *)

(** [getSmtpSecureTransport]'s result type: ["off" | "on" | "starttls"]. *)
Inductive SmtpSecureTransport : Type := off | on | starttls.

(** The two sockets of a session: the one [connect] returns and the one
    [socket.startTls()] returns.  A handle also names the reader and the
    writer obtained from that socket. *)
Inductive Handle : Type := PlainSocket | SecureSocket.

(** What the client does to the network, in the order it does it.
    [releaseLock] calls leave no trace on the wire and are not recorded. *)
Inductive Event : Type :=
| Connect (hostname : string) (port : Z) (secureTransport : SmtpSecureTransport)
| Write (h : Handle) (payload : string)
| StartTls
| Close (h : Handle).

(** The world a send runs in: the text the server is going to deliver on
    each socket, the values [crypto.randomUUID()] is going to return with
    the number already drawn, and the log of network actions so far. *)
Record World : Type := mkWorld {
  plainInput : SmtpReader;
  tlsInput : SmtpReader;
  uuidSource : nat -> string;
  uuidDrawn : nat;
  log : list Event
}.

(** Code that may throw and that acts on the world.  A thrown error
    leaves the world as it was at the [throw]. *)
Definition M (A : Type) : Type := World -> Outcome A * World.

Definition ret {A} (a : A) : M A := fun w => (Ok a, w).
Definition throw {A} (e : SmtpError) : M A := fun w => (Throw e, w).
Definition bind {A B} (m : M A) (k : A -> M B) : M B :=
  fun w =>
    match m w with
    | (Ok a, w') => k a w'
    | (Throw e, w') => (Throw e, w')
    end.
Definition lift {A} (o : Outcome A) : M A := fun w => (o, w).

Declare Scope smtp_scope.
Delimit Scope smtp_scope with smtp.
Notation "x <- m ;; k" := (bind m (fun x => k))
  (at level 61, m at next level, right associativity) : smtp_scope.
Notation "m ;; k" := (bind m (fun _ => k))
  (at level 61, right associativity) : smtp_scope.
Local Open Scope smtp_scope.

(** [for (const x of xs) { body }] *)
Fixpoint forOf {A} (xs : list A) (body : A -> M unit) : M unit :=
  match xs with
  | [] => ret tt
  | x :: rest => body x ;; forOf rest body
  end.

Definition logEvent (e : Event) : M unit :=
  fun w => (Ok tt, mkWorld (plainInput w) (tlsInput w) (uuidSource w) (uuidDrawn w)
                           (log w ++ [e])%list).

(** [connect({hostname, port}, {secureTransport, allowHalfOpen: false})] *)
Definition connect (hostname : string) (port : Z) (secureTransport : SmtpSecureTransport)
  : M Handle :=
  logEvent (Connect hostname port secureTransport) ;; ret PlainSocket.

(** [socket.startTls()] *)
Definition startTls (socket : Handle) : M Handle := logEvent StartTls ;; ret SecureSocket.

(** [socket.close()] *)
Definition close (h : Handle) : M unit := logEvent (Close h).

(** [writer.write(encoder.encode(text))] *)
Definition write (h : Handle) (text : string) : M unit := logEvent (Write h text).

(** [crypto.randomUUID()] *)
Definition randomUUID : M string :=
  fun w => (Ok (uuidSource w (uuidDrawn w)),
            mkWorld (plainInput w) (tlsInput w) (uuidSource w) (S (uuidDrawn w)) (log w)).

Definition inputOf (h : Handle) (w : World) : SmtpReader :=
  match h with PlainSocket => plainInput w | SecureSocket => tlsInput w end.

Definition setInput (h : Handle) (r : SmtpReader) (w : World) : World :=
  match h with
  | PlainSocket => mkWorld r (tlsInput w) (uuidSource w) (uuidDrawn w) (log w)
  | SecureSocket => mkWorld (plainInput w) r (uuidSource w) (uuidDrawn w) (log w)
  end.

(** [await readSmtpResponse({ reader, decoder })] on the reader of [h]. *)
Definition readResponse (h : Handle) : M SmtpResponse :=
  fun w => let (r, rest) := readSmtpResponse (inputOf h w) in (r, setInput h rest w).

(* ===================================================================== *)
(** * Command writer (write-smtp-command.ts)                               *)
(* ===================================================================== *)

Definition CRLF : string := Js.CR ++ Js.LF.

Definition writeSmtpCommand (writer : Handle) (command : string) : M unit :=
  let payload := command ++ CRLF in
  write writer payload.

(* ===================================================================== *)
(** * Status check (assert-smtp-ok.ts)                                     *)
(* ===================================================================== *)

(** [expectedCodes.includes(code)] *)
Definition includesCode (expectedCodes : list Z) (c : JsNumber) : bool :=
  existsb (JsNum.eqInt c) expectedCodes.

Definition assertSmtpOk (response : SmtpResponse) (expectedCodes : list Z)
  (context : string) : Outcome unit :=
  if includesCode expectedCodes (code response) then Ok tt
  else Throw (ProtocolError context (code response) (lines response)).

(* ===================================================================== *)
(** * Capability parser (parse-smtp-capabilities.ts)                       *)
(* ===================================================================== *)

Record AuthCapabilities : Type := mkAuthCaps { plain : bool; login : bool }.
Record SmtpCapabilities : Type := mkCaps { auth : AuthCapabilities }.

Module Caps.

(** [line.replace(/^\d{3}[ -]/, empty)] *)
Definition stripCode (line : string) : string :=
  match line with
  | String a (String b (String c (String d rest))) =>
      if Js.isDigit a && Js.isDigit b && Js.isDigit c &&
         (Ascii.eqb d " " || Ascii.eqb d "-")
      then rest else line
  | _ => line
  end.

(** [toUpperCase] on 7-bit text, the alphabet of SMTP replies: the
    letters a-z are mapped to A-Z, every other code unit is kept. *)
Definition upperChar (c : ascii) : ascii :=
  let n := nat_of_ascii c in
  if ((97 <=? n) && (n <=? 122))%nat then ascii_of_nat (n - 32) else c.

Fixpoint toUpperCase (s : string) : string :=
  match s with
  | EmptyString => EmptyString
  | String c s' => String (upperChar c) (toUpperCase s')
  end.

Definition consHead (c : ascii) (parts : list string) : list string :=
  match parts with
  | p :: ps => String c p :: ps
  | [] => [String c EmptyString]
  end.

(** [s.split(/\s+/)]: a maximal run of white space is one separator. *)
Fixpoint splitSpaces (s : string) : list string :=
  match s with
  | EmptyString => [EmptyString]
  | String c s' =>
      if Js.isWhiteSpace c then
        match s' with
        | String c' _ => if Js.isWhiteSpace c' then splitSpaces s'
                         else EmptyString :: splitSpaces s'
        | EmptyString => EmptyString :: splitSpaces s'
        end
      else consHead c (splitSpaces s')
  end.

Definition nonEmpty (s : string) : bool := (0 <? String.length s)%nat.

End Caps.

Definition parseSmtpCapabilities (ehlo : SmtpResponse) : SmtpCapabilities :=
  let normalized :=
    filter Caps.nonEmpty
      (map (fun line => Caps.toUpperCase (Js.trim (Caps.stripCode line))) (lines ehlo)) in
  let authLine := find (fun line => Js.startsWith line "AUTH ") normalized in
  let methods :=
    match authLine with
    | Some authLine => Caps.splitSpaces (Js.sliceFrom authLine (String.length "AUTH "))
    | None => []
    end in
  mkCaps (mkAuthCaps (existsb (String.eqb "PLAIN") methods)
                     (existsb (String.eqb "LOGIN") methods)).

(* ===================================================================== *)
(** * Transport mode selector (get-smtp-secure-transport.ts)               *)
(* ===================================================================== *)

Definition getSmtpSecureTransport (port : Z) (secure : option bool) : SmtpSecureTransport :=
  if (port =? 465)%Z then on
  else if (port =? 587)%Z then starttls
  else match secure with
       | Some true => on
       | Some false => off
       | None => off
       end.

(* ===================================================================== *)
(** * Auth negotiator (smtp-auth.ts)                                       *)
(* ===================================================================== *)

(** A JavaScript string as the sequence of its UTF-16 code units,
    whatever their value. *)
Definition CodeUnits : Type := list N.

Module CodeUnits.

Definition ofString (s : string) : CodeUnits :=
  map N_of_ascii (list_ascii_of_string s).

(** The text, when every code unit lies below U+0100. *)
Fixpoint latin1 (units : CodeUnits) : option string :=
  match units with
  | [] => Some EmptyString
  | unit :: rest =>
      if (unit <? 256)%N then
        match latin1 rest with
        | Some s => Some (String (ascii_of_N unit) s)
        | None => None
        end
      else None
  end.

End CodeUnits.

Module Base64.

Definition alphabet : string :=
  "ABCDEFGHIJKLMNOPQRSTUVWXYZabcdefghijklmnopqrstuvwxyz0123456789+/".

Definition sextet (n : nat) : ascii :=
  match String.get n alphabet with Some c => c | None => "="%char end.

(** Base64 of a text whose code units are bytes, three at a time, padded
    with [=]. *)
Fixpoint encode (text : string) : string :=
  match text with
  | EmptyString => EmptyString
  | String a rest1 =>
      let x := nat_of_ascii a in
      match rest1 with
      | EmptyString =>
          String (sextet (x / 4)) (String (sextet (x mod 4 * 16)) "==")
      | String b rest2 =>
          let y := nat_of_ascii b in
          match rest2 with
          | EmptyString =>
              String (sextet (x / 4))
                (String (sextet (x mod 4 * 16 + y / 16))
                   (String (sextet (y mod 16 * 4)) "="))
          | String c rest3 =>
              let z := nat_of_ascii c in
              String (sextet (x / 4))
                (String (sextet (x mod 4 * 16 + y / 16))
                   (String (sextet (y mod 16 * 4 + z / 64))
                      (String (sextet (z mod 64)) (encode rest3))))
          end
      end
  end.

(** [btoa(text)]: the base64 of the code units of [text] when each of
    them is a byte; [btoa] throws an [InvalidCharacterError] when one
    lies above U+00FF. *)
Definition btoa (text : CodeUnits) : Outcome string :=
  match CodeUnits.latin1 text with
  | Some bytes => Ok (encode bytes)
  | None => Throw InvalidCharacter
  end.

End Base64.

Record Credentials : Type := mkCredentials { user : CodeUnits; pass : CodeUnits }.

(** Credentials whose user name and password are texts below U+0100. *)
Definition latin1Credentials (userName password : string) : Credentials :=
  mkCredentials (CodeUnits.ofString userName) (CodeUnits.ofString password).

Definition NUL : CodeUnits := [0%N].

Definition smtpAuth (capabilities : SmtpCapabilities) (credentials : Credentials)
  (h : Handle) : M unit :=
  if plain (auth capabilities) then
    authPlain <- lift (Base64.btoa
                         (NUL ++ user credentials ++ NUL ++ pass credentials)%list) ;;
    writeSmtpCommand h ("AUTH PLAIN " ++ authPlain) ;;
    resp <- readResponse h ;;
    lift (assertSmtpOk resp [235%Z] "AUTH PLAIN") ;;
    ret tt
  else if login (auth capabilities) then
    writeSmtpCommand h "AUTH LOGIN" ;;
    challenge1 <- readResponse h ;;
    lift (assertSmtpOk challenge1 [334%Z] "AUTH LOGIN (challenge user)") ;;
    userAnswer <- lift (Base64.btoa (user credentials)) ;;
    writeSmtpCommand h userAnswer ;;
    challenge2 <- readResponse h ;;
    lift (assertSmtpOk challenge2 [334%Z] "AUTH LOGIN (challenge pass)") ;;
    passAnswer <- lift (Base64.btoa (pass credentials)) ;;
    writeSmtpCommand h passAnswer ;;
    ok <- readResponse h ;;
    lift (assertSmtpOk ok [235%Z] "AUTH LOGIN") ;;
    ret tt
  else
    throw AuthUnsupported.

(* ===================================================================== *)
(** * Message builder (create-message.ts)                                  *)
(* ===================================================================== *)

Record Mail : Type := mkMail {
  from : string;
  to : list string;
  subject : string;
  text : option string;
  html : option string
}.

(** Truthiness of an optional string: present and not empty. *)
Definition truthy (s : option string) : bool :=
  match s with
  | Some EmptyString => false
  | Some _ => true
  | None => false
  end.

(** The value of an optional string where the code has already found it
    truthy, and the empty string for an absent one elsewhere. *)
Definition orEmpty (s : option string) : string :=
  match s with Some v => v | None => EmptyString end.

Definition quote : string := String "034"%char EmptyString.

(** [xs.push(x)] *)
Definition push {A} (xs : list A) (x : A) : list A := (xs ++ [x])%list.

Definition createMessage (input : Mail) : M string :=
  let headers :=
    [ "From: " ++ from input;
      "To: " ++ Js.join ", " (to input);
      "Subject: " ++ subject input;
      "MIME-Version: 1.0" ] in
  if truthy (html input) && truthy (text input) then
    uuid <- randomUUID ;;
    let boundary := "cf-mailer-" ++ uuid in
    let headers :=
      push headers ("Content-Type: multipart/alternative; boundary=" ++ quote ++ boundary ++ quote) in
    let parts :=
      [ "--" ++ boundary;
        "Content-Type: text/plain; charset=" ++ quote ++ "utf-8" ++ quote;
        EmptyString;
        orEmpty (text input);
        "--" ++ boundary;
        "Content-Type: text/html; charset=" ++ quote ++ "utf-8" ++ quote;
        EmptyString;
        orEmpty (html input);
        "--" ++ boundary ++ "--" ] in
    ret (Js.join CRLF headers ++ CRLF ++ CRLF ++ Js.join CRLF parts)
  else if truthy (html input) then
    let headers :=
      push headers ("Content-Type: text/html; charset=" ++ quote ++ "utf-8" ++ quote) in
    ret (Js.join CRLF headers ++ CRLF ++ CRLF ++ orEmpty (html input))
  else
    let headers :=
      push headers ("Content-Type: text/plain; charset=" ++ quote ++ "utf-8" ++ quote) in
    ret (Js.join CRLF headers ++ CRLF ++ CRLF ++ orEmpty (text input)).

(* ===================================================================== *)
(** * Dot-stuffer (dot-stuff.ts)                                           *)
(* ===================================================================== *)

Module Stuff.

Definition consHead (c : ascii) (parts : list string) : list string :=
  match parts with
  | p :: ps => String c p :: ps
  | [] => [String c EmptyString]
  end.

(** [message.split(CRLF)]: the text between the occurrences of CR LF,
    found from left to right; a text without CR LF is one piece. *)
Fixpoint split (message : string) : list string :=
  match message with
  | EmptyString => [EmptyString]
  | String c1 rest1 =>
      match rest1 with
      | String c2 rest2 =>
          if Ascii.eqb c1 "013" && Ascii.eqb c2 "010"
          then EmptyString :: split rest2
          else consHead c1 (split rest1)
      | EmptyString => [String c1 EmptyString]
      end
  end.

(** [(line) => line.startsWith(".") ? `.${line}` : line] *)
Definition stuffLine (line : string) : string :=
  if Js.startsWith line "." then "." ++ line else line.

End Stuff.

Definition dotStuff (message : string) : string :=
  Js.join CRLF (map Stuff.stuffLine (Stuff.split message)).

(* ===================================================================== *)
(** * Session orchestrator (smtp-send-mail.ts)                             *)
(* ===================================================================== *)

Module MailerConfig.
Record t : Type := mk {
  host : string;
  port : Z;
  secure : option bool;
  helo : option string;
  auth : option Credentials
}.
End MailerConfig.

Record SendMailResult : Type := mkResult { messageId : string }.

Definition smtpSendMail (config : MailerConfig.t) (mail : Mail) : M SendMailResult :=
  if (MailerConfig.port config =? 25)%Z then throw UnsupportedPort else

  let secureTransport :=
    getSmtpSecureTransport (MailerConfig.port config) (MailerConfig.secure config) in

  socket <- connect (MailerConfig.host config) (MailerConfig.port config) secureTransport ;;

  let reader := socket in
  let writer := socket in

  greeting <- readResponse reader ;;
  lift (assertSmtpOk greeting [220%Z] "Greeting") ;;

  let heloName := match MailerConfig.helo config with Some h => h | None => "localhost" end in

  writeSmtpCommand writer ("EHLO " ++ heloName) ;;
  ehlo <- readResponse reader ;;
  lift (assertSmtpOk ehlo [250%Z] "EHLO") ;;
  let capabilities := parseSmtpCapabilities ehlo in

  match secureTransport with
  | starttls =>
      writeSmtpCommand writer "STARTTLS" ;;
      starttlsReply <- readResponse reader ;;
      lift (assertSmtpOk starttlsReply [220%Z] "STARTTLS") ;;

      secureSocket <- startTls socket ;;

      let tlsReader := secureSocket in
      let tlsWriter := secureSocket in

      writeSmtpCommand tlsWriter ("EHLO " ++ heloName) ;;
      tlsEhlo <- readResponse tlsReader ;;
      lift (assertSmtpOk tlsEhlo [250%Z] "EHLO (TLS)") ;;

      let tlsCapabilities := parseSmtpCapabilities tlsEhlo in

      match MailerConfig.auth config with
      | Some credentials => smtpAuth tlsCapabilities credentials tlsReader
      | None => ret tt
      end ;;

      writeSmtpCommand tlsWriter ("MAIL FROM:<" ++ from mail ++ ">") ;;
      mailFrom <- readResponse tlsReader ;;
      lift (assertSmtpOk mailFrom [250%Z] "MAIL FROM") ;;

      forOf (to mail) (fun recipient =>
        writeSmtpCommand tlsWriter ("RCPT TO:<" ++ recipient ++ ">") ;;
        rcpt <- readResponse tlsReader ;;
        lift (assertSmtpOk rcpt [250%Z; 251%Z] "RCPT TO")) ;;

      writeSmtpCommand tlsWriter "DATA" ;;
      data <- readResponse tlsReader ;;
      lift (assertSmtpOk data [354%Z] "DATA") ;;

      body <- createMessage mail ;;

      let dotStuffed := dotStuff body in

      write tlsWriter (dotStuffed ++ CRLF ++ "." ++ CRLF) ;;

      queued <- readResponse tlsReader ;;
      lift (assertSmtpOk queued [250%Z] "DATA end") ;;

      writeSmtpCommand tlsWriter "QUIT" ;;
      _ <- readResponse tlsReader ;;

      close secureSocket ;;

      id <- randomUUID ;;
      ret (mkResult id)

  | _ =>
      match MailerConfig.auth config with
      | Some credentials => smtpAuth capabilities credentials reader
      | None => ret tt
      end ;;

      writeSmtpCommand writer ("MAIL FROM:<" ++ from mail ++ ">") ;;
      mailFrom <- readResponse reader ;;
      lift (assertSmtpOk mailFrom [250%Z] "MAIL FROM") ;;

      forOf (to mail) (fun recipient =>
        writeSmtpCommand writer ("RCPT TO:<" ++ recipient ++ ">") ;;
        rcpt <- readResponse reader ;;
        lift (assertSmtpOk rcpt [250%Z; 251%Z] "RCPT TO")) ;;

      writeSmtpCommand writer "DATA" ;;
      data <- readResponse reader ;;
      lift (assertSmtpOk data [354%Z] "DATA") ;;

      body <- createMessage mail ;;

      let dotStuffed := dotStuff body in

      write writer (dotStuffed ++ CRLF ++ "." ++ CRLF) ;;

      queued <- readResponse reader ;;
      lift (assertSmtpOk queued [250%Z] "DATA end") ;;

      writeSmtpCommand writer "QUIT" ;;
      _ <- readResponse reader ;;

      close socket ;;

      id <- randomUUID ;;
      ret (mkResult id)
  end.

(* ===================================================================== *)
(** * Input validation (validate-mailer-config.ts,                         *)
(**   validate-send-mail-input.ts)                                         *)
(* ===================================================================== *)

(** The schema combinators of [@/core/zod] that the two validators use.
    That module is not part of the sources at hand; the combinators have
    the meaning Zod documents for them: [min(1)] on a string or an array
    asks for at least one element, [optional] accepts an absent value,
    [union] accepts what either schema accepts, [positive] asks for a
    number above zero, [int] for an integer that is safe, that is, of
    absolute value at most 2^53 - 1.  A port is a [Z]: the numbers that
    are not integers (fractions, NaN, the infinities), which [int]
    refuses, are not configurations of this development. *)
Module Zod.
Definition stringMin1 (s : string) : bool := (1 <=? String.length s)%nat.
(** [min(1)] on a string that is kept as its code units. *)
Definition unitsMin1 (s : CodeUnits) : bool := (1 <=? List.length s)%nat.
Definition optional {A} (schema : A -> bool) (v : option A) : bool :=
  match v with Some x => schema x | None => true end.
Definition arrayMin1 {A} (schema : A -> bool) (xs : list A) : bool :=
  forallb schema xs && (1 <=? List.length xs)%nat.
(** [z.number().int().positive()] *)
Definition intPositive (n : Z) : bool := (0 <? n)%Z && (n <=? 9007199254740991)%Z.
End Zod.

(** The [to] field of the public input: [string | string[]]. *)
Inductive Recipients : Type :=
| One (address : string)
| Many (addresses : list string).

Module SendMailInput.
Record t : Type := mk {
  from : string;
  to : Recipients;
  subject : string;
  text : option string;
  html : option string
}.
End SendMailInput.

Definition mailerAuthSchema (a : Credentials) : bool :=
  Zod.unitsMin1 (user a) && Zod.unitsMin1 (pass a).

Definition mailerConfigSchema (c : MailerConfig.t) : bool :=
  Zod.stringMin1 (MailerConfig.host c) &&
  Zod.intPositive (MailerConfig.port c) &&
  Zod.optional (fun _ : bool => true) (MailerConfig.secure c) &&
  Zod.optional Zod.stringMin1 (MailerConfig.helo c) &&
  Zod.optional mailerAuthSchema (MailerConfig.auth c).

Definition validateMailerConfig (input : MailerConfig.t) : Outcome MailerConfig.t :=
  if mailerConfigSchema input then Ok input else Throw ValidationError.

Definition sendMailInputSchema (i : SendMailInput.t) : bool :=
  Zod.stringMin1 (SendMailInput.from i) &&
  match SendMailInput.to i with
  | One address => Zod.stringMin1 address
  | Many addresses => Zod.arrayMin1 Zod.stringMin1 addresses
  end &&
  Zod.stringMin1 (SendMailInput.subject i) &&
  Zod.optional Zod.stringMin1 (SendMailInput.text i) &&
  Zod.optional Zod.stringMin1 (SendMailInput.html i).

Definition validateSendMailInput (input : SendMailInput.t) : Outcome SendMailInput.t :=
  if sendMailInputSchema input then Ok input else Throw ValidationError.

(* ===================================================================== *)
(** * Public entry point (client.ts)                                       *)
(* ===================================================================== *)

Record Mailer : Type := mkMailer {
  send : SendMailInput.t -> M SendMailResult
}.

Definition createMailer (config : MailerConfig.t) : Outcome Mailer :=
  match validateMailerConfig config with
  | Throw e => Throw e
  | Ok parsedConfig =>
      Ok (mkMailer (fun input =>
        parsed <- lift (validateSendMailInput input) ;;
        let to :=
          match SendMailInput.to parsed with
          | Many addresses => addresses
          | One address => [address]
          end in
        result <- smtpSendMail parsedConfig
                    (mkMail (SendMailInput.from parsed) to (SendMailInput.subject parsed)
                            (SendMailInput.text parsed) (SendMailInput.html parsed)) ;;
        ret (mkResult (messageId result))))
  end.

(* ===================================================================== *)
(** * The session state machine of the specification                       *)
(* ===================================================================== *)

(** The states and transitions of section 4.8 of the specification, in
    its words; [smtpSendMail] above is compared with it below. *)
Module Machine.

Inductive State : Type :=
| Connected
| Greeted
| CapabilitiesKnown (capabilities : SmtpCapabilities)
| Secured (active : Handle) (capabilities : SmtpCapabilities)
| Authenticated (active : Handle)
| SenderAccepted (active : Handle) (remaining : list string)
| RecipientsAccepted (active : Handle)
| AcceptingBody (active : Handle)
| Queued (active : Handle)
| Closed (identifier : string).

(** "Any state transition whose expected code is not matched fails
    immediately with a ProtocolError tagged with the stage name, the
    received code, and all reply lines." *)
Definition expect (active : Handle) (stage : string) (expected : list Z)
  : M SmtpResponse :=
  reply <- readResponse active ;;
  if includesCode expected (code reply) then ret reply
  else throw (ProtocolError stage (code reply) (lines reply)).

Definition heloName (config : MailerConfig.t) : string :=
  match MailerConfig.helo config with Some h => h | None => "localhost" end.

Definition mode (config : MailerConfig.t) : SmtpSecureTransport :=
  getSmtpSecureTransport (MailerConfig.port config) (MailerConfig.secure config).

(** A command goes out as one line, ended by CR LF. *)
Definition command (active : Handle) (line : string) : M unit :=
  write active (line ++ CRLF).

Definition transition (config : MailerConfig.t) (mail : Mail) (s : State) : M State :=
  match s with
  | Connected =>
      expect PlainSocket "Greeting" [220%Z] ;;
      ret Greeted
  | Greeted =>
      command PlainSocket ("EHLO " ++ heloName config) ;;
      reply <- expect PlainSocket "EHLO" [250%Z] ;;
      ret (CapabilitiesKnown (parseSmtpCapabilities reply))
  | CapabilitiesKnown capabilities =>
      match mode config with
      | starttls =>
          command PlainSocket "STARTTLS" ;;
          expect PlainSocket "STARTTLS" [220%Z] ;;
          upgraded <- startTls PlainSocket ;;
          command upgraded ("EHLO " ++ heloName config) ;;
          reply <- expect upgraded "EHLO (TLS)" [250%Z] ;;
          ret (Secured upgraded (parseSmtpCapabilities reply))
      | _ => ret (Secured PlainSocket capabilities)
      end
  | Secured active capabilities =>
      match MailerConfig.auth config with
      | Some credentials => smtpAuth capabilities credentials active
      | None => ret tt
      end ;;
      ret (Authenticated active)
  | Authenticated active =>
      command active ("MAIL FROM:<" ++ from mail ++ ">") ;;
      expect active "MAIL FROM" [250%Z] ;;
      ret (SenderAccepted active (to mail))
  | SenderAccepted active (recipient :: remaining) =>
      command active ("RCPT TO:<" ++ recipient ++ ">") ;;
      expect active "RCPT TO" [250%Z; 251%Z] ;;
      ret (SenderAccepted active remaining)
  | SenderAccepted active [] =>
      ret (RecipientsAccepted active)
  | RecipientsAccepted active =>
      command active "DATA" ;;
      expect active "DATA" [354%Z] ;;
      ret (AcceptingBody active)
  | AcceptingBody active =>
      body <- createMessage mail ;;
      write active (dotStuff body ++ CRLF ++ "." ++ CRLF) ;;
      expect active "DATA end" [250%Z] ;;
      ret (Queued active)
  | Queued active =>
      command active "QUIT" ;;
      _ <- readResponse active ;;
      close active ;;
      identifier <- randomUUID ;;
      ret (Closed identifier)
  | Closed identifier => ret (Closed identifier)
  end.

Fixpoint run (config : MailerConfig.t) (mail : Mail) (steps : nat) (s : State) : M State :=
  match steps with
  | O => ret s
  | S steps' => s' <- transition config mail s ;; run config mail steps' s'
  end.

(** From [Connected] to [Closed] there are nine transitions and one
    more for every recipient. *)
Definition session (config : MailerConfig.t) (mail : Mail) : M State :=
  if (MailerConfig.port config =? 25)%Z then throw UnsupportedPort
  else
    connect (MailerConfig.host config) (MailerConfig.port config) (mode config) ;;
    run config mail (9 + List.length (to mail)) Connected.

End Machine.


(** ** The reply invariant of the data model *)

(** The Reply invariant of the specification's data model: [lines] is
    not empty, the last line begins with three digits that are the code,
    followed by a space, and every earlier line begins with the same three
    digits followed by a hyphen. *)
Module Invariant.

Definition threeDigits (p : string) : bool :=
  (String.length p =? 3)%nat && forallb Js.isDigit (list_ascii_of_string p).

Definition prefixed (c : JsNumber) (separator : ascii) (line : string) : bool :=
  let p := Js.slice line 0 3 in
  threeDigits p &&
  match JsNum.digits 10 p with Some v => JsNum.eqInt c v | None => false end &&
  match Js.at_ line 3 with Some s => Ascii.eqb s separator | None => false end.

Definition holds (reply : SmtpResponse) : bool :=
  match rev (lines reply) with
  | [] => false
  | final :: earlier =>
      prefixed (code reply) " " final && forallb (prefixed (code reply) "-") earlier
  end.

End Invariant.

(** ** Inputs refused by validation *)

(** The inputs that the send schema refuses. *)
Definition refusedInput (i : SendMailInput.t) : Prop :=
  SendMailInput.subject i = EmptyString \/
  SendMailInput.from i = EmptyString \/
  SendMailInput.to i = One EmptyString \/
  SendMailInput.to i = Many [] \/
  (exists addresses, SendMailInput.to i = Many addresses /\ In EmptyString addresses) \/
  SendMailInput.text i = Some EmptyString \/
  SendMailInput.html i = Some EmptyString.

(** ** Lines of a document *)

(** A text with CR LF somewhere in it. *)
Fixpoint containsCRLF (s : string) : bool :=
  match s with
  | String c1 rest =>
      match rest with
      | String c2 _ => (Ascii.eqb c1 "013" && Ascii.eqb c2 "010") || containsCRLF rest
      | EmptyString => false
      end
  | EmptyString => false
  end.

Definition startsWithDot (line : string) : bool := Js.startsWith line ".".

(** ** Two runs of the reader *)

(** Two runs of the reader, the second on a stream whose last chunk
    carries [extra] text and is followed by [post]: either the last
    chunk is still to be read in both, or it has been read, the stream
    of the first run is exhausted and the buffer of the second run
    holds the extra text at its end. *)
Inductive related (extra : string) (post : SmtpReader)
  : string * SmtpReader -> string * SmtpReader -> Prop :=
| related_ahead buffer pre chunk :
    related extra post (buffer, (pre ++ [chunk])%list)
                       (buffer, (pre ++ (chunk ++ extra)%string :: post)%list)
| related_read buffer :
    related extra post (buffer, []) (buffer ++ extra, post).

(** ** The code against the machine *)

(** The code [c] does what the machine [m] does: it throws the same
    error in the same world when the machine fails, and returns the
    identifier in the same world when the machine reaches [Closed]; the
    machine stops nowhere else. *)
Definition refines (m : M Machine.State) (c : M SendMailResult) : Prop :=
  forall w,
    match m w with
    | (Ok (Machine.Closed identifier), w') => c w = (Ok (mkResult identifier), w')
    | (Ok _, _) => False
    | (Throw e, w') => c w = (Throw e, w')
    end.

Section Fragments.
Variable config : MailerConfig.t.
Variable mail : Mail.

(** The code from [Queued] on. *)
Definition codeQuit (h : Handle) : M SendMailResult :=
  writeSmtpCommand h "QUIT" ;;
  _ <- readResponse h ;;
  close h ;;
  id <- randomUUID ;;
  ret (mkResult id).

(** The code from [AcceptingBody] on. *)
Definition codeBody (h : Handle) : M SendMailResult :=
  body <- createMessage mail ;;
  write h (dotStuff body ++ CRLF ++ "." ++ CRLF) ;;
  queued <- readResponse h ;;
  lift (assertSmtpOk queued [250%Z] "DATA end") ;;
  codeQuit h.

(** The code from [RecipientsAccepted] on. *)
Definition codeData (h : Handle) : M SendMailResult :=
  writeSmtpCommand h "DATA" ;;
  data <- readResponse h ;;
  lift (assertSmtpOk data [354%Z] "DATA") ;;
  codeBody h.

Definition codeRcpt (h : Handle) (recipient : string) : M unit :=
  writeSmtpCommand h ("RCPT TO:<" ++ recipient ++ ">") ;;
  rcpt <- readResponse h ;;
  lift (assertSmtpOk rcpt [250%Z; 251%Z] "RCPT TO").

(** The code from [Secured] on; the source has it twice, once for
    each socket. *)
Definition codeSecured (h : Handle) (capabilities : SmtpCapabilities)
  : M SendMailResult :=
  match MailerConfig.auth config with
  | Some credentials => smtpAuth capabilities credentials h
  | None => ret tt
  end ;;
  writeSmtpCommand h ("MAIL FROM:<" ++ from mail ++ ">") ;;
  mailFrom <- readResponse h ;;
  lift (assertSmtpOk mailFrom [250%Z] "MAIL FROM") ;;
  forOf (to mail) (codeRcpt h) ;;
  codeData h.

End Fragments.

(** ** The socket *)

Definition isClose (e : Event) : bool :=
  match e with Close _ => true | _ => false end.

Definition closes (w : World) : list Event := filter isClose (log w).

(** [m] closes nothing. *)
Definition quiet {A} (m : M A) : Prop :=
  forall w r w', m w = (r, w') -> closes w' = closes w.

(** [m] closes one socket, at the end, when it succeeds, and closes
    nothing when it throws. *)
Definition closesOnSuccessOnly {A} (m : M A) : Prop :=
  forall w,
    match m w with
    | (Ok _, w') => exists h, closes w' = (closes w ++ [Close h])%list
    | (Throw _, w') => closes w' = closes w
    end.

(** ** Sample data *)

(** A line as the server sends it. *)
Definition crlf (s : string) : string := s ++ Js.CR ++ Js.LF.

Definition exampleConfig : MailerConfig.t :=
  MailerConfig.mk "smtp.example.com" 465 None None None.

Definition quietWorld : World :=
  mkWorld [] [] (fun _ => "00000000-0000-4000-8000-000000000000") 0 [].

Definition submission : MailerConfig.t :=
  MailerConfig.mk "smtp.example.com" 2525 None None (Some (latin1Credentials "user" "pass")).

Definition letter : Mail :=
  mkMail "a@example.com" ["b@example.com"; "c@example.com"] "Hello" (Some "Hi") None.

Definition scripted (replies : SmtpReader) : World :=
  mkWorld replies [] (fun _ => "00000000-0000-4000-8000-000000000000") 0 [].


(** ** Streams and replies as text *)

(** The whole text that a stream is going to deliver. *)
Definition streamText (reader : SmtpReader) : string :=
  fold_right String.append EmptyString reader.

(** Lines as a server puts them on the wire: each one ended by CR LF. *)
Definition wire (replyLines : list string) : string :=
  fold_right (fun line rest => line ++ CRLF ++ rest) EmptyString replyLines.

(** A text with a line feed in it. *)
Definition hasLineFeed (s : string) : bool := Js.includes s Js.LF.

(** The lines of a well-formed reply: the code and a hyphen before each
    text but the last, the code and a space before the last. *)
Definition continuationLine (codeText text : string) : string := codeText ++ "-" ++ text.
Definition finalLine (codeText text : string) : string := codeText ++ " " ++ text.
Definition replyLines (codeText : string) (texts : list string) (final : string)
  : list string :=
  (map (continuationLine codeText) texts ++ [finalLine codeText final])%list.

(** ** Texts around a separator *)

Fixpoint endsWithCR (s : string) : bool :=
  match s with
  | EmptyString => false
  | String c rest =>
      match rest with
      | EmptyString => Ascii.eqb c "013"
      | String _ _ => endsWithCR rest
      end
  end.

Definition startsWithLF (s : string) : bool :=
  match s with
  | String c _ => Ascii.eqb c "010"
  | EmptyString => false
  end.

(** ** The parts of a message *)

(** The Content-Type header of a part. *)
Definition contentType (kind : string) : string :=
  "Content-Type: text/" ++ kind ++ "; charset=" ++ quote ++ "utf-8" ++ quote.

(** The three headers that carry caller text. *)
Definition fromHeader (mail : Mail) : string := "From: " ++ from mail.
Definition toHeader (mail : Mail) : string := "To: " ++ Js.join ", " (to mail).
Definition subjectHeader (mail : Mail) : string := "Subject: " ++ subject mail.

(** Those three headers, cut at their CR LF. *)
Definition callerHeaderLines (mail : Mail) : list string :=
  (Stuff.split (fromHeader mail) ++ Stuff.split (toHeader mail) ++
   Stuff.split (subjectHeader mail))%list.

(** The boundary of a multipart message built in world [w], and the
    lines made of it. *)
Definition boundaryIn (w : World) : string := "cf-mailer-" ++ uuidSource w (uuidDrawn w).
Definition multipartHeader (boundary : string) : string :=
  "Content-Type: multipart/alternative; boundary=" ++ quote ++ boundary ++ quote.
Definition openingLine (boundary : string) : string := "--" ++ boundary.
Definition closingLine (boundary : string) : string := "--" ++ boundary ++ "--".

(** The world after one call of [crypto.randomUUID()]. *)
Definition afterDraw (w : World) : World :=
  mkWorld (plainInput w) (tlsInput w) (uuidSource w) (S (uuidDrawn w)) (log w).

(** ** What a session puts on the wire *)

(** A world that has nothing but its identifiers. *)
Definition idsWorld (source : nat -> string) (drawn : nat) : World :=
  mkWorld [] [] source drawn [].

(** The document that [createMessage] builds in world [w]. *)
Definition documentOf (mail : Mail) (w : World) : string :=
  match createMessage mail w with
  | (Ok document, _) => document
  | (Throw _, _) => EmptyString
  end.

(** A command line as it is written. *)
Definition sent (h : Handle) (line : string) : Event := Write h (line ++ CRLF).

(** The socket that carries the envelope and the message. *)
Definition sessionHandle (config : MailerConfig.t) : Handle :=
  match Machine.mode config with
  | starttls => SecureSocket
  | _ => PlainSocket
  end.

(** The capabilities that count for the session that starts in world
    [w]: those of the reply to the EHLO that precedes the authentication,
    which is the second reply on the socket that [connect] returned or,
    with STARTTLS, the first reply on the upgraded socket.  Where the
    server sends no such reply the session ends before it uses them. *)
Definition announced (config : MailerConfig.t) (w : World) : SmtpCapabilities :=
  let nothing := mkCaps (mkAuthCaps false false) in
  match Machine.mode config with
  | starttls =>
      match readSmtpResponse (tlsInput w) with
      | (Ok ehlo, _) => parseSmtpCapabilities ehlo
      | (Throw _, _) => nothing
      end
  | _ =>
      match readSmtpResponse (plainInput w) with
      | (Ok _, rest) =>
          match readSmtpResponse rest with
          | (Ok ehlo, _) => parseSmtpCapabilities ehlo
          | (Throw _, _) => nothing
          end
      | (Throw _, _) => nothing
      end
  end.

(** The AUTH exchange with [capabilities]: the command lines in the
    order in which they are written when the server accepts every step,
    and whether the exchange can be completed, that is, a mechanism is
    offered and [btoa] encodes the credentials.  Where [btoa] throws the
    lines end before the one it was to make. *)
Definition authExchange (capabilities : SmtpCapabilities) (credentials : Credentials)
  (h : Handle) : list Event * bool :=
  if plain (auth capabilities) then
    match Base64.btoa (NUL ++ user credentials ++ NUL ++ pass credentials)%list with
    | Ok token => ([sent h ("AUTH PLAIN " ++ token)], true)
    | Throw _ => ([], false)
    end
  else if login (auth capabilities) then
    match Base64.btoa (user credentials) with
    | Ok userAnswer =>
        match Base64.btoa (pass credentials) with
        | Ok passAnswer =>
            ([sent h "AUTH LOGIN"; sent h userAnswer; sent h passAnswer], true)
        | Throw _ => ([sent h "AUTH LOGIN"; sent h userAnswer], false)
        end
    | Throw _ => ([sent h "AUTH LOGIN"], false)
    end
  else ([], false).

(** The server accepts a step: the read gives a reply, and its code is
    the expected one. *)
Definition accepted (expected : Z) (read : Outcome SmtpResponse * SmtpReader) : bool :=
  match fst read with
  | Ok reply => includesCode [expected] (code reply)
  | Throw _ => false
  end.

(** The answers of AUTH LOGIN on a socket with [input] pending: the
    user name goes out when the server accepts the command with 334, the
    password when it accepts the user name with 334, each provided that
    [btoa] encodes it. *)
Definition loginAnswers (credentials : Credentials) (h : Handle) (input : SmtpReader)
  : list Event :=
  let first := readSmtpResponse input in
  if accepted 334 first then
    match Base64.btoa (user credentials) with
    | Ok userAnswer =>
        sent h userAnswer ::
        (if accepted 334 (readSmtpResponse (snd first)) then
           match Base64.btoa (pass credentials) with
           | Ok passAnswer => [sent h passAnswer]
           | Throw _ => []
           end
         else [])
    | Throw _ => []
    end
  else [].

(** AUTH LOGIN goes through on a socket with [input] pending. *)
Definition loginCompletes (credentials : Credentials) (input : SmtpReader) : bool :=
  let first := readSmtpResponse input in
  let second := readSmtpResponse (snd first) in
  let third := readSmtpResponse (snd second) in
  accepted 334 first && accepted 334 second && accepted 235 third &&
  match Base64.btoa (user credentials), Base64.btoa (pass credentials) with
  | Ok _, Ok _ => true
  | _, _ => false
  end.

Definition handshake (config : MailerConfig.t) : list Event :=
  Connect (MailerConfig.host config) (MailerConfig.port config) (Machine.mode config) ::
  sent PlainSocket ("EHLO " ++ Machine.heloName config) ::
  match Machine.mode config with
  | starttls =>
      [sent PlainSocket "STARTTLS"; StartTls;
       sent SecureSocket ("EHLO " ++ Machine.heloName config)]
  | _ => []
  end.

Definition authentication (config : MailerConfig.t) (capabilities : SmtpCapabilities)
  (h : Handle) : list Event * bool :=
  match MailerConfig.auth config with
  | Some credentials => authExchange capabilities credentials h
  | None => ([], true)
  end.

Definition recipientLine (h : Handle) (recipient : string) : Event :=
  sent h ("RCPT TO:<" ++ recipient ++ ">").

Definition envelope (mail : Mail) (h : Handle) : list Event :=
  sent h ("MAIL FROM:<" ++ from mail ++ ">") :: map (recipientLine h) (to mail).

Definition delivery (document : string) (h : Handle) : list Event :=
  [sent h "DATA"; Write h (dotStuff document ++ CRLF ++ "." ++ CRLF); sent h "QUIT";
   Close h].

(** Everything that a session does to the network when the server
    accepts every step, in order: as far as the close of the socket when
    the authentication can be completed, and as far as the authentication
    goes when it cannot. *)
Definition transcript (config : MailerConfig.t) (mail : Mail)
  (capabilities : SmtpCapabilities) (document : string) : list Event :=
  let h := sessionHandle config in
  let exchange := authentication config capabilities h in
  (handshake config ++ fst exchange ++
   (if snd exchange then envelope mail h ++ delivery document h else []))%list.

(** In a world whose identifiers are [source] and [drawn], [m] adds
    [script] to the log when it returns, and an initial part of [script]
    when it throws; with [keep], it returns with the identifiers as they
    were. *)
Definition plays (source : nat -> string) (drawn : nat) (keep : bool) {A} (m : M A)
  (script : list Event) : Prop :=
  forall w, uuidSource w = source -> uuidDrawn w = drawn ->
    match m w with
    | (Ok _, w') =>
        log w' = (log w ++ script)%list /\
        (keep = true -> uuidSource w' = source /\ uuidDrawn w' = drawn)
    | (Throw _, w') =>
        exists done rest, script = (done ++ rest)%list /\ log w' = (log w ++ done)%list
    end.

(** [m] returns only when [good] holds. *)
Definition succeedsOnly {A} (m : M A) (good : Prop) : Prop :=
  forall w a w', m w = (Ok a, w') -> good.


(** What may go over the socket that [connect] returned when the
    session upgrades it with STARTTLS. *)
Definition beforeUpgrade (config : MailerConfig.t) (e : Event) : Prop :=
  match e with
  | Write PlainSocket payload =>
      payload = ("EHLO " ++ Machine.heloName config) ++ CRLF \/
      payload = "STARTTLS" ++ CRLF
  | Close PlainSocket => False
  | _ => True
  end.

(** ** Lines of an EHLO reply *)

(** A line as [parseSmtpCapabilities] looks at it: without its code,
    trimmed and in upper case. *)
Definition normalizedLine (line : string) : string :=
  Caps.toUpperCase (Js.trim (Caps.stripCode line)).

(** The line is one that announces AUTH mechanisms. *)
Definition advertisesAuth (line : string) : bool :=
  Js.startsWith (normalizedLine line) "AUTH ".

Fixpoint hasWhiteSpace (s : string) : bool :=
  match s with
  | EmptyString => false
  | String c rest => Js.isWhiteSpace c || hasWhiteSpace rest
  end.

(** The name of a mechanism: not empty, no white space in it. *)
Definition mechanism (name : string) : bool :=
  Caps.nonEmpty name && negb (hasWhiteSpace name).

(** The line that announces [mechanisms], after the code [codeText] and
    the separator. *)
Definition authLine (codeText : string) (separator : ascii) (mechanisms : list string)
  : string :=
  codeText ++ String separator ("AUTH " ++ Js.join " " mechanisms).

(** The last character is not white space. *)
Fixpoint endsInInk (s : string) : bool :=
  match s with
  | EmptyString => false
  | String c rest =>
      match rest with
      | EmptyString => negb (Js.isWhiteSpace c)
      | String _ _ => endsInInk rest
      end
  end.

(** ** Configurations refused by validation *)

Definition refusedConfig (config : MailerConfig.t) : Prop :=
  MailerConfig.host config = EmptyString \/
  (MailerConfig.port config <= 0)%Z \/
  MailerConfig.helo config = Some EmptyString \/
  (exists credentials,
     MailerConfig.auth config = Some credentials /\
     (user credentials = [] \/ pass credentials = [])).

(** ** Command lines *)

(** Neither CR nor LF. *)
Definition inLine (c : ascii) : bool :=
  negb (Ascii.eqb c "013") && negb (Ascii.eqb c "010").

(** A text without CR and without LF. *)
Fixpoint lineBreakFree (s : string) : bool :=
  match s with
  | EmptyString => true
  | String c rest => inLine c && lineBreakFree rest
  end.

(** The event is the writing of one command line on [h]: a text without
    CR and LF, ended by CR LF. *)
Definition oneCommandLine (h : Handle) (e : Event) : Prop :=
  exists line, e = Write h (line ++ CRLF) /\ lineBreakFree line = true.



(* ===================================================================== *)
(** * Properties                                                           *)
(* ===================================================================== *)

(** ** The embedding on sample inputs *)

Example Number_250 : JsNum.Number "250" = Dec 250 0.
Proof. reflexivity. Qed.
Example Number_plus : JsNum.Number "+12" = Dec 12 0.
Proof. reflexivity. Qed.
Example Number_space : JsNum.Number " 12" = Dec 12 0.
Proof. reflexivity. Qed.
Example Number_exp : JsNum.Number "1e3" = Dec 1 3.
Proof. reflexivity. Qed.
Example Number_hex : JsNum.Number "0xF" = Dec 15 0.
Proof. reflexivity. Qed.
Example Number_frac : JsNum.Number ".12" = Dec 12 (-2).
Proof. reflexivity. Qed.
Example Number_dot : JsNum.Number "12." = Dec 12 0.
Proof. reflexivity. Qed.
Example Number_bad : JsNum.Number "25x" = NaN.
Proof. reflexivity. Qed.
Example Number_bad2 : JsNum.Number "1e+" = NaN.
Proof. reflexivity. Qed.
Example Number_bad3 : JsNum.Number "-0x" = NaN.
Proof. reflexivity. Qed.
Example Number_bad4 : JsNum.Number "2 5" = NaN.
Proof. reflexivity. Qed.
Example Number_blank : JsNum.Number "   " = Dec 0 0.
Proof. reflexivity. Qed.

Example stripEol_crlf : Reader.stripEol ("250 OK" ++ Js.CR ++ Js.LF) = "250 OK".
Proof. reflexivity. Qed.
Example stripEol_lf : Reader.stripEol ("250 OK" ++ Js.LF) = "250 OK".
Proof. reflexivity. Qed.
Example stripEol_inner :
  Reader.stripEol ("a" ++ Js.CR ++ "b" ++ Js.CR ++ Js.CR ++ Js.LF) = "a" ++ Js.CR ++ "b" ++ Js.CR.
Proof. reflexivity. Qed.
Example readLine_ex :
  Reader.readLine EmptyString ["25"; "0 O"; "K" ++ Js.CR ++ Js.LF ++ "354"; "x"]
  = (Ok "250 OK", "354", ["x"]).
Proof. reflexivity. Qed.

Example read_single :
  readSmtpResponse [crlf "250 OK"] = (Ok (mkResponse (Dec 250 0) ["250 OK"]), []).
Proof. reflexivity. Qed.

Example read_multi :
  readSmtpResponse [crlf "250-example.com" ++ crlf "250-AUTH PLAIN LOGIN";
                    crlf "250 SIZE 35882577" ++ crlf "250 more"; "next"]
  = (Ok (mkResponse (Dec 250 0) ["250-example.com"; "250-AUTH PLAIN LOGIN"; "250 SIZE 35882577"]),
     ["next"]).
Proof. reflexivity. Qed.

Example read_closed :
  readSmtpResponse [crlf "250-x"] = (Throw ConnectionClosed, []).
Proof. reflexivity. Qed.

Example dotStuff_test :
  dotStuff ("Hello" ++ CRLF ++ ".World" ++ CRLF ++ "..Two" ++ CRLF ++ "End")
  = "Hello" ++ CRLF ++ "..World" ++ CRLF ++ "...Two" ++ CRLF ++ "End".
Proof. reflexivity. Qed.

Example btoa_test :
  Base64.btoa (NUL ++ CodeUnits.ofString "user" ++ NUL ++ CodeUnits.ofString "pass")%list
  = Ok "AHVzZXIAcGFzcw==".
Proof. reflexivity. Qed.
Example btoa_padding :
  Base64.encode "Ma" = "TWE=" /\ Base64.encode "Man" = "TWFu" /\ Base64.encode "M" = "TQ==".
Proof. repeat split. Qed.
Example btoa_euro : Base64.btoa [112; 8364; 115; 115]%N = Throw InvalidCharacter.
Proof. reflexivity. Qed.

Example capabilities_advertised :
  parseSmtpCapabilities
    (mkResponse (Dec 250 0) ["250-example.com"; "250-AUTH PLAIN LOGIN"; "250 SIZE 35882577"])
  = mkCaps (mkAuthCaps true true).
Proof. reflexivity. Qed.

Example capabilities_absent :
  parseSmtpCapabilities (mkResponse (Dec 250 0) ["250-example.com"; "250 SIZE 35882577"])
  = mkCaps (mkAuthCaps false false).
Proof. reflexivity. Qed.

Example capabilities_any_case :
  parseSmtpCapabilities (mkResponse (Dec 250 0) ["250-example.com"; "250 auth  Login"])
  = mkCaps (mkAuthCaps false true).
Proof. reflexivity. Qed.

Example createMessage_text_only :
  fst (createMessage (mkMail "hello@schnl.com" ["kibru@schnl.com"] "Hello" (Some "Hi") None)
         quietWorld)
  = Ok ("From: hello@schnl.com" ++ CRLF ++ "To: kibru@schnl.com" ++ CRLF ++
        "Subject: Hello" ++ CRLF ++ "MIME-Version: 1.0" ++ CRLF ++
        "Content-Type: text/plain; charset=" ++ quote ++ "utf-8" ++ quote ++ CRLF ++
        CRLF ++ "Hi").
Proof. reflexivity. Qed.

(** ** Transport mode selector *)

(** C7: the transport mode is decided by the port and the explicit flag
    alone, in this order: port 465 gives implicit TLS and port 587 gives
    STARTTLS whatever the flag says; on any other port the flag [true]
    gives implicit TLS, and the flag [false] or no flag gives plain. *)
Theorem getSmtpSecureTransport_policy (port : Z) (secure : option bool) :
  (port = 465%Z -> getSmtpSecureTransport port secure = on) /\
  (port = 587%Z -> getSmtpSecureTransport port secure = starttls) /\
  (port <> 465%Z -> port <> 587%Z ->
     getSmtpSecureTransport port secure =
     match secure with
     | Some true => on
     | Some false => off
     | None => off
     end).
Proof.
  unfold getSmtpSecureTransport. repeat split.
  - intros ->. reflexivity.
  - intros ->. reflexivity.
  - intros H1 H2.
    destruct (Z.eqb_spec port 465); [contradiction|].
    destruct (Z.eqb_spec port 587); [contradiction|].
    reflexivity.
Qed.

Lemma getSmtpSecureTransport_policy_witness :
  getSmtpSecureTransport 465 None = on /\
  getSmtpSecureTransport 587 None = starttls /\
  getSmtpSecureTransport 2525 (Some true) = on /\
  getSmtpSecureTransport 2525 (Some false) = off /\
  getSmtpSecureTransport 2525 None = off.
Proof.
  refine (conj _ (conj _ (conj _ (conj _ _)))).
  - apply (getSmtpSecureTransport_policy 465 None). reflexivity.
  - apply (getSmtpSecureTransport_policy 587 None). reflexivity.
  - apply (getSmtpSecureTransport_policy 2525 (Some true)); discriminate.
  - apply (getSmtpSecureTransport_policy 2525 (Some false)); discriminate.
  - apply (getSmtpSecureTransport_policy 2525 None); discriminate.
Defined.

(** ** Input validation and the public entry point *)

Lemma stringMin1_false (s : string) : Zod.stringMin1 s = false <-> s = EmptyString.
Proof. unfold Zod.stringMin1. destruct s; simpl; split; intros; congruence. Qed.

Lemma forallb_stringMin1_false (xs : list string) :
  forallb Zod.stringMin1 xs = false <-> In EmptyString xs.
Proof.
  induction xs as [|x xs IH]; simpl.
  - split; [discriminate | contradiction].
  - rewrite andb_false_iff, IH, stringMin1_false. intuition auto.
Qed.

Lemma sendMailInputSchema_false (i : SendMailInput.t) :
  sendMailInputSchema i = false <-> refusedInput i.
Proof.
  unfold sendMailInputSchema, refusedInput.
  rewrite !andb_false_iff, !stringMin1_false.
  destruct i as [f t s tx h]; simpl.
  split.
  - intros [[[[H|H]|H]|H]|H]; auto.
    + destruct t as [a|l].
      * apply stringMin1_false in H. subst. auto.
      * unfold Zod.arrayMin1 in H. apply andb_false_iff in H as [H|H].
        -- apply forallb_stringMin1_false in H. right; right; right; right; left. eauto.
        -- destruct l; [auto | discriminate].
    + destruct tx as [x|]; [|discriminate]. apply stringMin1_false in H. subst. auto 10.
    + destruct h as [x|]; [|discriminate]. apply stringMin1_false in H. subst. auto 10.
  - intros [H|[H|[H|[H|[H|[H|H]]]]]]; subst; auto.
    destruct H as (l & -> & Hin). left; left; left; right.
    unfold Zod.arrayMin1. apply andb_false_iff. left.
    now apply forallb_stringMin1_false.
Qed.

(** C10: the public [send] throws a validation error, and leaves the
    world untouched (no connection opened, nothing written or read),
    for every input whose subject or sender is empty, whose recipient is
    an empty string, an empty list or a list with an empty string in it,
    or whose supplied text or html is empty; and these are the only
    inputs that the validator refuses. *)
Theorem send_rejects_empty_fields (config : MailerConfig.t) (mailer : Mailer)
  (input : SendMailInput.t) (w : World) :
  createMailer config = Ok mailer ->
  (refusedInput input -> send mailer input w = (Throw ValidationError, w)) /\
  (validateSendMailInput input = Throw ValidationError <-> refusedInput input).
Proof.
  intros Hmk. split.
  - intros Href. apply sendMailInputSchema_false in Href.
    unfold createMailer in Hmk.
    destruct (validateMailerConfig config); [|discriminate].
    injection Hmk as <-. cbn [send].
    unfold bind, lift, validateSendMailInput. rewrite Href. reflexivity.
  - rewrite <- sendMailInputSchema_false. unfold validateSendMailInput.
    destruct (sendMailInputSchema input); split; intros; congruence.
Qed.

Lemma send_rejects_empty_fields_witness :
  exists mailer,
    createMailer exampleConfig = Ok mailer /\
    send mailer (SendMailInput.mk "a@example.com" (Many ["b@example.com"; EmptyString])
                   "Hello" (Some "Hi") None) quietWorld
    = (Throw ValidationError, quietWorld).
Proof.
  eexists. split.
  - reflexivity.
  - apply (send_rejects_empty_fields exampleConfig _ _ quietWorld eq_refl).
    unfold refusedInput. cbn.
    right; right; right; right; left.
    eexists; split; [reflexivity | right; left; reflexivity].
Defined.

(** ** Port 25 *)

(** C8: when the configured port is 25, [smtpSendMail] throws
    [UnsupportedPort] whatever the other fields of the configuration and
    of the message are, and the world is as it was: no connection has been
    opened, nothing has been read or written.  Through the public [send]
    no connection is opened either, and the error is [UnsupportedPort] as
    soon as the message passes validation. *)
Theorem port_25_rejected_before_connect (config : MailerConfig.t) (mail : Mail) (w : World) :
  MailerConfig.port config = 25%Z ->
  smtpSendMail config mail w = (Throw UnsupportedPort, w) /\
  (forall mailer input,
     createMailer config = Ok mailer ->
     exists e, send mailer input w = (Throw e, w) /\
               (validateSendMailInput input = Ok input -> e = UnsupportedPort)).
Proof.
  intros Hport.
  assert (Hcore : forall m, smtpSendMail config m w = (Throw UnsupportedPort, w)).
  { intros m. unfold smtpSendMail. rewrite Hport. reflexivity. }
  split; [apply Hcore|].
  intros mailer input Hmk. unfold createMailer, validateMailerConfig in Hmk.
  destruct (mailerConfigSchema config); [|discriminate].
  injection Hmk as <-. cbn [send]. unfold bind at 1. unfold lift, validateSendMailInput.
  destruct (sendMailInputSchema input).
  - exists UnsupportedPort. split; [|reflexivity].
    unfold bind. rewrite Hcore. reflexivity.
  - exists ValidationError. split; [reflexivity | discriminate].
Qed.

Lemma port_25_rejected_before_connect_witness :
  smtpSendMail (MailerConfig.mk "smtp.example.com" 25 (Some true) (Some "client.example.com")
                  (Some (latin1Credentials "user" "pass")))
               (mkMail "a@example.com" ["b@example.com"] "Hello" (Some "Hi") None)
               quietWorld
  = (Throw UnsupportedPort, quietWorld).
Proof.
  apply (port_25_rejected_before_connect
           (MailerConfig.mk "smtp.example.com" 25 (Some true) (Some "client.example.com")
              (Some (latin1Credentials "user" "pass")))
           (mkMail "a@example.com" ["b@example.com"] "Hello" (Some "Hi") None)
           quietWorld).
  reflexivity.
Defined.

(** ** Auth negotiator *)

Lemma log_setInput h r w : log (setInput h r w) = log w.
Proof. destruct h; reflexivity. Qed.

Lemma log_readResponse h w : log (snd (readResponse h w)) = log w.
Proof.
  unfold readResponse. destruct (readSmtpResponse (inputOf h w)) as [r rest].
  apply log_setInput.
Qed.

Lemma readResponse_log h w r w' : readResponse h w = (r, w') -> log w' = log w.
Proof. intros H. rewrite <- (log_readResponse h w), H. reflexivity. Qed.

Lemma log_writeSmtpCommand h c w :
  writeSmtpCommand h c w =
  (Ok tt, mkWorld (plainInput w) (tlsInput w) (uuidSource w) (uuidDrawn w)
                  (log w ++ [Write h (c ++ CRLF)])%list).
Proof. reflexivity. Qed.

Module AuthFacts.

Lemma inputOf_logged h w e :
  inputOf h (mkWorld (plainInput w) (tlsInput w) (uuidSource w) (uuidDrawn w)
                     (log w ++ [e])%list) = inputOf h w.
Proof. now destruct h. Qed.

(** One checked exchange: the command, the read of the reply and the
    test of its code. *)
Lemma exchange_step {A} h line expected stage (k : M A) w :
  (writeSmtpCommand h line ;;
   reply <- readResponse h ;;
   lift (assertSmtpOk reply expected stage) ;; k) w
  = let w1 := mkWorld (plainInput w) (tlsInput w) (uuidSource w) (uuidDrawn w)
                      (log w ++ [sent h line])%list in
    let read := readSmtpResponse (inputOf h w) in
    match fst read with
    | Ok reply =>
        if includesCode expected (code reply) then k (setInput h (snd read) w1)
        else (Throw (ProtocolError stage (code reply) (lines reply)),
              setInput h (snd read) w1)
    | Throw e => (Throw e, setInput h (snd read) w1)
    end.
Proof.
  unfold bind at 1. unfold writeSmtpCommand, write, logEvent, sent.
  unfold bind at 1. unfold readResponse. rewrite inputOf_logged.
  destruct (readSmtpResponse (inputOf h w)) as [[reply|e] rest]; cbn [fst snd]; [|reflexivity].
  unfold bind, lift, assertSmtpOk.
  now destruct (includesCode expected (code reply)).
Qed.

Lemma inputOf_exchanged h rest w e :
  inputOf h (setInput h rest
               (mkWorld (plainInput w) (tlsInput w) (uuidSource w) (uuidDrawn w)
                        (log w ++ [e])%list)) = rest.
Proof. now destruct h. Qed.

Lemma log_exchanged h rest w e :
  log (setInput h rest
         (mkWorld (plainInput w) (tlsInput w) (uuidSource w) (uuidDrawn w)
                  (log w ++ [e])%list)) = (log w ++ [e])%list.
Proof. now destruct h. Qed.

(** Credentials that [btoa] does not encode, with PLAIN on offer: the
    negotiator throws what [btoa] throws, and nothing is written. *)
Lemma smtpAuth_plain_unencodable capabilities credentials h w e :
  plain (auth capabilities) = true ->
  Base64.btoa (NUL ++ user credentials ++ NUL ++ pass credentials)%list = Throw e ->
  smtpAuth capabilities credentials h w = (Throw e, w).
Proof.
  intros Hplain Hb. unfold smtpAuth. rewrite Hplain. unfold bind at 1.
  unfold lift. now rewrite Hb.
Qed.

(** With PLAIN on offer and credentials that [btoa] encodes, the one
    command written is AUTH PLAIN, whatever LOGIN says, and the call
    returns exactly when the server answers 235. *)
Lemma smtpAuth_plain capabilities credentials h w token :
  plain (auth capabilities) = true ->
  Base64.btoa (NUL ++ user credentials ++ NUL ++ pass credentials)%list = Ok token ->
  log (snd (smtpAuth capabilities credentials h w))
  = (log w ++ [sent h ("AUTH PLAIN " ++ token)])%list /\
  (fst (smtpAuth capabilities credentials h w) = Ok tt <->
   accepted 235 (readSmtpResponse (inputOf h w)) = true).
Proof.
  intros Hplain Hb.
  remember (smtpAuth capabilities credentials h w) as run eqn:Hrun.
  unfold smtpAuth in Hrun. rewrite Hplain in Hrun. unfold bind at 1 in Hrun.
  unfold lift at 1 in Hrun. rewrite Hb, exchange_step in Hrun. cbv zeta in Hrun.
  unfold accepted.
  destruct (readSmtpResponse (inputOf h w)) as [[reply|e] rest]; cbn [fst snd] in *.
  - destruct (includesCode [235%Z] (code reply)); subst run; cbn [fst snd ret];
      rewrite log_exchanged; split; try reflexivity; split; intros; congruence.
  - subst run. cbn [fst snd]. rewrite log_exchanged. split; [reflexivity|].
    split; intros; congruence.
Qed.

(** With LOGIN alone on offer the first command is AUTH LOGIN; the
    answers that follow are those that the server's replies and [btoa]
    allow, and the call returns exactly when all of them went through
    and the server answers 235 at the end. *)
Lemma smtpAuth_login capabilities credentials h w :
  plain (auth capabilities) = false ->
  login (auth capabilities) = true ->
  log (snd (smtpAuth capabilities credentials h w))
  = (log w ++ sent h "AUTH LOGIN" :: loginAnswers credentials h (inputOf h w))%list /\
  (fst (smtpAuth capabilities credentials h w) = Ok tt <->
   loginCompletes credentials (inputOf h w) = true).
Proof.
  intros Hplain Hlogin.
  remember (smtpAuth capabilities credentials h w) as run eqn:Hrun.
  unfold smtpAuth in Hrun. rewrite Hplain, Hlogin, exchange_step in Hrun.
  cbv zeta in Hrun.
  unfold loginAnswers, loginCompletes, accepted. cbv zeta.
  destruct (readSmtpResponse (inputOf h w)) as [[c1|e1] rest1]; cbn [fst snd] in *;
    [|subst run; cbn [fst snd]; rewrite log_exchanged;
      split; [reflexivity | split; intros; discriminate]].
  destruct (includesCode [334%Z] (code c1));
    [|subst run; cbn [fst snd andb]; rewrite log_exchanged;
      split; [reflexivity | split; intros; discriminate]].
  unfold bind at 1 in Hrun. unfold lift at 1 in Hrun.
  destruct (Base64.btoa (user credentials)) as [userAnswer|eu];
    [|subst run; cbn [fst snd]; rewrite log_exchanged; split; [reflexivity|];
      rewrite andb_false_r; split; intros; discriminate].
  rewrite exchange_step in Hrun. cbv zeta in Hrun. rewrite inputOf_exchanged in Hrun.
  destruct (readSmtpResponse rest1) as [[c2|e2] rest2]; cbn [fst snd] in *;
    [|subst run; cbn [fst snd]; rewrite !log_exchanged, <- app_assoc;
      split; [reflexivity | split; intros; discriminate]].
  destruct (includesCode [334%Z] (code c2));
    [|subst run; cbn [fst snd andb]; rewrite !log_exchanged, <- app_assoc;
      split; [reflexivity | split; intros; discriminate]].
  unfold bind at 1 in Hrun. unfold lift at 1 in Hrun.
  destruct (Base64.btoa (pass credentials)) as [passAnswer|ep];
    [|subst run; cbn [fst snd]; rewrite !log_exchanged, <- app_assoc; split; [reflexivity|];
      rewrite andb_false_r; split; intros; discriminate].
  rewrite exchange_step in Hrun. cbv zeta in Hrun. rewrite inputOf_exchanged in Hrun.
  destruct (readSmtpResponse rest2) as [[c3|e3] rest3]; cbn [fst snd] in *;
    [|subst run; cbn [fst snd]; rewrite !log_exchanged, <- !app_assoc;
      split; [reflexivity | split; intros; discriminate]].
  destruct (includesCode [235%Z] (code c3)); subst run; cbn [fst snd ret andb];
    rewrite !log_exchanged, <- !app_assoc; split; try reflexivity;
    split; intros; congruence.
Qed.

(** With neither mechanism on offer nothing is written. *)
Lemma smtpAuth_unsupported capabilities credentials h w :
  plain (auth capabilities) = false ->
  login (auth capabilities) = false ->
  smtpAuth capabilities credentials h w = (Throw AuthUnsupported, w).
Proof.
  intros Hplain Hlogin. unfold smtpAuth. now rewrite Hplain, Hlogin.
Qed.

End AuthFacts.

(** C6: credentials with a code unit above U+00FF: the user name is
    "user" and the password is "p", the euro sign U+20AC, "ss".  With
    PLAIN on offer, whatever LOGIN says and on either socket, the
    negotiator throws the [InvalidCharacterError] of [btoa] and the
    world is as it was: no command is written and no mechanism is
    performed.  With LOGIN alone on offer and a server that answers 334
    to each step, the negotiator writes AUTH LOGIN and the user name and
    then throws the same error in place of the password. *)
Theorem smtpAuth_fails_on_wide_credentials (loginOffered : bool) (h : Handle) (w : World) :
  let credentials := mkCredentials (CodeUnits.ofString "user") [112; 8364; 115; 115]%N in
  smtpAuth (mkCaps (mkAuthCaps true loginOffered)) credentials h w
  = (Throw InvalidCharacter, w) /\
  let run := smtpAuth (mkCaps (mkAuthCaps false true)) credentials PlainSocket
               (scripted [crlf "334 VXNlcm5hbWU6"; crlf "334 UGFzc3dvcmQ6"]) in
  fst run = Throw InvalidCharacter /\
  log (snd run) = [sent PlainSocket "AUTH LOGIN"; sent PlainSocket "dXNlcg=="].
Proof.
  intros credentials. split.
  - now apply AuthFacts.smtpAuth_plain_unencodable.
  - split; reflexivity.
Qed.

(** ** Dot-stuffer *)

Module StuffFacts.
Import Stuff.

Lemma startsWithDot_cons c s : startsWithDot (String c s) = Ascii.eqb c ".".
Proof.
  unfold startsWithDot, Js.startsWith. cbn [prefix].
  destruct (ascii_dec "." c) as [<-|Hne].
  - now destruct s.
  - symmetry. apply Ascii.eqb_neq. congruence.
Qed.

Lemma join_cons_cons sep x y ys :
  Js.join sep (x :: y :: ys) = x ++ sep ++ Js.join sep (y :: ys).
Proof. reflexivity. Qed.

Lemma split_nonempty s : split s <> [].
Proof.
  induction s as [|c1 s IH]; [discriminate|].
  cbn [split]. destruct s as [|c2 s']; [discriminate|].
  destruct (_ && _); [discriminate|].
  destruct (split (String c2 s')); [contradiction | discriminate].
Qed.

Lemma join_consHead sep c ps :
  ps <> [] -> Js.join sep (consHead c ps) = String c (Js.join sep ps).
Proof.
  destruct ps as [|p [|q ps]]; [contradiction| |]; reflexivity.
Qed.

Lemma split_cons2 c1 c2 s :
  split (String c1 (String c2 s)) =
  if Ascii.eqb c1 "013" && Ascii.eqb c2 "010" then EmptyString :: split s
  else consHead c1 (split (String c2 s)).
Proof. reflexivity. Qed.

(** Induction that looks two characters ahead, as [split] does. *)
Lemma string_ind2 (P : string -> Prop) :
  P EmptyString ->
  (forall c, P (String c EmptyString)) ->
  (forall c1 c2 s, P s -> P (String c2 s) -> P (String c1 (String c2 s))) ->
  forall s, P s.
Proof.
  intros H0 H1 H2 s.
  enough (P s /\ forall c, P (String c s)) by tauto.
  induction s as [|c s [IHa IHb]]; split; auto.
Qed.

(** Splitting loses nothing: joining the pieces gives the text back. *)
Lemma join_split s : Js.join CRLF (split s) = s.
Proof.
  induction s as [| c | c1 c2 s IH1 IH2] using string_ind2;
    [reflexivity | reflexivity |].
  rewrite split_cons2.
  destruct (Ascii.eqb_spec c1 "013") as [->|H1];
    [destruct (Ascii.eqb_spec c2 "010") as [->|H2]|]; cbn [andb].
  - pose proof (split_nonempty s) as Hne.
    destruct (split s) as [|p ps] eqn:E; [contradiction|].
    rewrite join_cons_cons, IH1. reflexivity.
  - rewrite join_consHead by apply split_nonempty.
    now rewrite IH2.
  - rewrite join_consHead by apply split_nonempty.
    now rewrite IH2.
Qed.

Lemma containsCRLF_cons2 c1 c2 s :
  containsCRLF (String c1 (String c2 s)) =
  (Ascii.eqb c1 "013" && Ascii.eqb c2 "010") || containsCRLF (String c2 s).
Proof. reflexivity. Qed.

(** The first piece of a text starts like the text, unless it is empty. *)
Lemma split_head c s :
  exists p ps, split (String c s) = p :: ps /\
               (p = EmptyString \/ exists p', p = String c p').
Proof.
  destruct s as [|c2 s].
  - exists (String c EmptyString), []. split; [reflexivity | eauto].
  - rewrite split_cons2. destruct (_ && _).
    + eauto.
    + pose proof (split_nonempty (String c2 s)) as Hne.
      destruct (split (String c2 s)) as [|p ps]; [contradiction|].
      exists (String c p), ps. split; [reflexivity | eauto].
Qed.

(** No piece contains CR LF. *)
Lemma split_pieces s : Forall (fun piece => containsCRLF piece = false) (split s).
Proof.
  induction s as [| c | c1 c2 s IH1 IH2] using string_ind2.
  - repeat constructor.
  - repeat constructor.
  - rewrite split_cons2.
    destruct (Ascii.eqb c1 "013" && Ascii.eqb c2 "010") eqn:E.
    + constructor; [reflexivity | exact IH1].
    + destruct (split_head c2 s) as (p & ps & Hs & Hp).
      rewrite Hs in *. inversion IH2 as [|? ? Hp0 Hps]; subst.
      cbn [consHead]. constructor; [|exact Hps].
      destruct Hp as [->|[p' ->]]; [reflexivity|].
      rewrite containsCRLF_cons2, E. exact Hp0.
Qed.

Lemma split_line_then line rest :
  containsCRLF line = false ->
  split (line ++ CRLF ++ rest) = line :: split rest.
Proof.
  induction line as [|c line IH]; intros Hno.
  - reflexivity.
  - destruct line as [|c2 line].
    + cbn [append]. change (CRLF ++ rest) with (String "013" (String "010" rest)).
      rewrite split_cons2.
      replace (Ascii.eqb c "013" && Ascii.eqb "013" "010") with false
        by (now rewrite andb_false_r).
      rewrite split_cons2. reflexivity.
    + rewrite containsCRLF_cons2 in Hno. apply orb_false_iff in Hno as [E Hno].
      change (String c (String c2 line) ++ CRLF ++ rest)
        with (String c (String c2 (line ++ CRLF ++ rest))).
      rewrite split_cons2, E.
      change (String c2 (line ++ CRLF ++ rest)) with (String c2 line ++ CRLF ++ rest).
      rewrite (IH Hno). reflexivity.
Qed.

Lemma split_single line : containsCRLF line = false -> split line = [line].
Proof.
  induction line as [| c | c1 c2 line IH1 IH2] using string_ind2; intros Hno;
    [reflexivity | reflexivity |].
  rewrite containsCRLF_cons2 in Hno. apply orb_false_iff in Hno as [E Hno].
  rewrite split_cons2, E, (IH2 Hno). reflexivity.
Qed.

(** Joining lines that hold no CR LF and splitting again gives the
    lines back. *)
Lemma split_join ls :
  ls <> [] ->
  Forall (fun piece => containsCRLF piece = false) ls ->
  split (Js.join CRLF ls) = ls.
Proof.
  induction ls as [|l ls IH]; [contradiction|].
  intros _ Hall. inversion Hall as [|? ? Hl Hls]; subst.
  destruct ls as [|l2 ls].
  - apply split_single, Hl.
  - rewrite join_cons_cons, split_line_then by exact Hl.
    rewrite IH; [reflexivity | discriminate | exact Hls].
Qed.

Lemma prefix_nil s : prefix EmptyString s = true.
Proof. now destruct s. Qed.

Lemma prefix_cons a s1 b s2 :
  prefix (String a s1) (String b s2) = Ascii.eqb a b && prefix s1 s2.
Proof.
  cbn [prefix]. destruct (ascii_dec a b) as [->|H].
  - now rewrite Ascii.eqb_refl.
  - apply Ascii.eqb_neq in H. now rewrite H.
Qed.

(** [containsCRLF] is [includes(CRLF)]. *)
Lemma includes_CRLF s : Js.includes s CRLF = containsCRLF s.
Proof.
  unfold Js.includes, Js.indexOf.
  induction s as [|c1 s IH].
  - reflexivity.
  - cbn [index containsCRLF].
    change CRLF with (String "013" (String "010" EmptyString)) in *.
    rewrite prefix_cons.
    destruct s as [|c2 s].
    + rewrite andb_false_r. reflexivity.
    + rewrite prefix_cons, prefix_nil, andb_true_r.
      rewrite (Ascii.eqb_sym "013" c1), (Ascii.eqb_sym "010" c2).
      destruct (Ascii.eqb c1 "013" && Ascii.eqb c2 "010"); [reflexivity|].
      cbn [orb]. rewrite <- IH.
      destruct (index 0 _ (String c2 s)); reflexivity.
Qed.

Lemma stuffLine_cases line :
  stuffLine line = if startsWithDot line then String "." line else line.
Proof. reflexivity. Qed.

Lemma stuffLine_keeps_lines line :
  containsCRLF line = false -> containsCRLF (stuffLine line) = false.
Proof.
  rewrite stuffLine_cases. destruct (startsWithDot line); [|auto].
  destruct line; [reflexivity|]. rewrite containsCRLF_cons2. auto.
Qed.

Lemma split_dotStuff message :
  split (dotStuff message) = map stuffLine (split message).
Proof.
  unfold dotStuff. apply split_join.
  - pose proof (split_nonempty message).
    destruct (split message); [contradiction | discriminate].
  - pose proof (split_pieces message) as H.
    induction H; constructor; auto using stuffLine_keeps_lines.
Qed.

Lemma stuffLine_twice line :
  stuffLine (stuffLine line) =
  if startsWithDot line then String "." (String "." line) else line.
Proof.
  rewrite (stuffLine_cases line).
  destruct (startsWithDot line) eqn:E.
  - rewrite stuffLine_cases, startsWithDot_cons. reflexivity.
  - rewrite stuffLine_cases, E. reflexivity.
Qed.

End StuffFacts.

(** C5: dot-stuffing works line by line.  The lines of a document are
    the pieces between its CR LF separators (joined again they give the
    document, and none holds a CR LF); the lines of the stuffed document
    are those lines, each with one more dot in front when it begins with
    a dot and unchanged otherwise, so [.] becomes [..] and [..Two]
    becomes [...Two]; stuffing the result again puts two dots in front of
    every such line, and is therefore a different text as soon as one
    line begins with a dot. *)
Theorem dotStuff_line_by_line (message : string) :
  let documentLines := Stuff.split message in
  Js.join CRLF documentLines = message /\
  Forall (fun line => Js.includes line CRLF = false) documentLines /\
  dotStuff message =
    Js.join CRLF (map (fun line => if Js.startsWith line "." then "." ++ line else line)
                      documentLines) /\
  Stuff.split (dotStuff message) =
    map (fun line => if Js.startsWith line "." then "." ++ line else line) documentLines /\
  Stuff.split (dotStuff (dotStuff message)) =
    map (fun line => if Js.startsWith line "." then ".." ++ line else line) documentLines /\
  dotStuff "." = ".." /\
  dotStuff "..Two" = "...Two" /\
  (Exists (fun line => Js.startsWith line "." = true) documentLines ->
   dotStuff (dotStuff message) <> dotStuff message).
Proof.
  intros documentLines. subst documentLines.
  assert (Htwice : Stuff.split (dotStuff (dotStuff message)) =
    map (fun line => if Js.startsWith line "." then ".." ++ line else line)
        (Stuff.split message)).
  { rewrite !StuffFacts.split_dotStuff, map_map.
    apply map_ext. intros line. apply StuffFacts.stuffLine_twice. }
  assert (Hpieces : Forall (fun line => Js.includes line CRLF = false)
                           (Stuff.split message)).
  { eapply Forall_impl; [|apply StuffFacts.split_pieces].
    intros line Hline. now rewrite StuffFacts.includes_CRLF. }
  refine (conj (StuffFacts.join_split message)
         (conj Hpieces
         (conj eq_refl (conj (StuffFacts.split_dotStuff message)
         (conj Htwice (conj eq_refl (conj eq_refl _))))))).
  intros Hex Heq.
  apply (f_equal Stuff.split) in Heq.
  rewrite Htwice, StuffFacts.split_dotStuff in Heq. clear Htwice Hpieces.
  induction Hex as [line ls Hdot | line ls _ IH].
  - cbn [map] in Heq. injection Heq as Heq _.
    unfold Stuff.stuffLine in Heq. rewrite Hdot in Heq.
    apply (f_equal String.length) in Heq. simpl in Heq. lia.
  - cbn [map] in Heq. injection Heq as _ Heq. exact (IH Heq).
Qed.

Lemma dotStuff_line_by_line_witness :
  dotStuff (dotStuff ("Hello" ++ CRLF ++ ".World" ++ CRLF ++ "..Two" ++ CRLF ++ "End"))
  <> dotStuff ("Hello" ++ CRLF ++ ".World" ++ CRLF ++ "..Two" ++ CRLF ++ "End").
Proof.
  apply (dotStuff_line_by_line
           ("Hello" ++ CRLF ++ ".World" ++ CRLF ++ "..Two" ++ CRLF ++ "End")).
  apply Exists_cons_tl, Exists_cons_hd. reflexivity.
Defined.

(** ** Response reader *)

Module ReaderFacts.
Import Reader ReaderTermination.

(** One round of the multi-line loop. *)
Lemma readMore_step codeStr buffer reader lines :
  readMore codeStr buffer reader lines =
  match readLine buffer reader with
  | (Throw e, _, reader') => (Throw e, reader')
  | (Ok line, buffer', reader') =>
      if Js.startsWith line (codeStr ++ " ")
      then (Ok (lines ++ [line])%list, reader')
      else readMore codeStr buffer' reader' (lines ++ [line])%list
  end.
Proof.
  funelim (readMore codeStr buffer reader lines);
    match goal with H : readLine _ _ = _ |- _ => rewrite H end; reflexivity.
Qed.

(** What the loop returns: the lines it was given, then lines that do
    not close the reply, then the one that does. *)
Lemma readMore_lines codeStr buffer reader lines result rest :
  readMore codeStr buffer reader lines = (Ok result, rest) ->
  exists middle final,
    result = (lines ++ middle ++ [final])%list /\
    Js.startsWith final (codeStr ++ " ") = true /\
    Forall (fun line => Js.startsWith line (codeStr ++ " ") = false) middle.
Proof.
  funelim (readMore codeStr buffer reader lines); [|discriminate].
  destruct (Js.startsWith line (codeStr ++ " ")) eqn:E.
  - intros [= <- <-]. exists [], line. auto.
  - intros Hrec.
    destruct (H _ _ Hrec) as (middle & final & -> & Hfinal & Hmid).
    exists (line :: middle), final. rewrite <- app_assoc. auto.
Qed.

(** The loop itself throws only when the stream ends. *)
Lemma readMore_throws codeStr buffer reader lines e rest :
  readMore codeStr buffer reader lines = (Throw e, rest) -> e = ConnectionClosed.
Proof.
  funelim (readMore codeStr buffer reader lines).
  - destruct (Js.startsWith line (codeStr ++ " ")); [discriminate|]. apply H.
  - intros [= <- <-]. clear Heqcall.
    match goal with Hi : sigmaI _ _ _ = _ |- _ => clear Hi end.
    match goal with Hr : readLine _ _ = _ |- _ => revert Hr end.
    unfold readLine. destruct (fill buffer reader) as [[b1 r1]|].
    + destruct (Js.indexOf b1 Js.LF); discriminate.
    + now intros [= <- _ _].
Qed.

Lemma isDigit_cases a :
  Js.isDigit a = true -> In a (list_ascii_of_string "0123456789").
Proof.
  destruct a as [[] [] [] [] [] [] [] []]; cbn; intros H; try discriminate H; auto 12.
Qed.

(** Three digits are always a finite number. *)
Lemma threeDigits_finite p :
  Invariant.threeDigits p = true -> JsNum.isFinite (JsNum.Number p) = true.
Proof.
  unfold Invariant.threeDigits.
  destruct p as [|a [|b [|c [|d p]]]]; try discriminate.
  cbn [String.length Nat.eqb andb list_ascii_of_string forallb].
  intros H. apply andb_prop in H as [Ha H]. apply andb_prop in H as [Hb H].
  apply andb_prop in H as [Hc _].
  apply isDigit_cases in Ha, Hb, Hc. cbn [list_ascii_of_string In] in Ha, Hb, Hc.
  repeat (destruct Ha as [<-|Ha]; [|]); try contradiction;
    repeat (destruct Hb as [<-|Hb]; [|]); try contradiction;
    repeat (destruct Hc as [<-|Hc]; [|]); try contradiction; reflexivity.
Qed.

(** The half of the first-line check that holds: a line is refused as
    malformed only when it does not begin with three digits. *)
Lemma malformed_only_without_digits reader first rest :
  readSmtpResponse reader = (Throw (MalformedResponse first), rest) ->
  Invariant.threeDigits (Js.slice first 0 3) = false.
Proof.
  unfold readSmtpResponse.
  destruct (readLine EmptyString reader) as [[[line|e] b1] r1] eqn:L.
  - destruct (Invariant.threeDigits (Js.slice line 0 3)) eqn:T.
    + rewrite (threeDigits_finite _ T).
      assert (Hlen : String.length (Js.slice line 0 3) = 3).
      { unfold Invariant.threeDigits in T. apply andb_prop in T as [T _].
        now apply Nat.eqb_eq. }
      rewrite Hlen. cbn [negb orb Nat.eqb].
      destruct (negb _); [discriminate|].
      destruct (readMore _ b1 r1 _) as [[ls|e] r2] eqn:Hm; [discriminate|].
      apply readMore_throws in Hm. subst e. discriminate.
    + destruct (negb _ || negb _).
      * now intros [= <- _].
      * destruct (negb _); [discriminate|].
        destruct (readMore _ b1 r1 _) as [[ls|e] r2] eqn:Hm; [discriminate|].
        apply readMore_throws in Hm. subst e. discriminate.
  - revert L. unfold readLine. destruct (fill EmptyString reader) as [[b r]|].
    + destruct (Js.indexOf b Js.LF); discriminate.
    + intros [= <- _ _]. discriminate.
Qed.

End ReaderFacts.

(** C3: the reader accepts first lines that do not begin with three
    digits.  [Number] reads a sign, surrounding white space and an
    exponent, so the replies below come back with the codes 12, 12 and
    1000 instead of being refused as malformed. *)
Theorem readSmtpResponse_accepts_non_digit_prefix :
  readSmtpResponse [crlf "+12 hello"] = (Ok (mkResponse (Dec 12 0) ["+12 hello"]), []) /\
  readSmtpResponse [crlf " 12 hello"] = (Ok (mkResponse (Dec 12 0) [" 12 hello"]), []) /\
  readSmtpResponse [crlf "1e3 hello"] = (Ok (mkResponse (Dec 1 3) ["1e3 hello"]), []) /\
  JsNum.eqInt (Dec 1 3) 1000 = true.
Proof. refine (conj eq_refl (conj eq_refl (conj eq_refl eq_refl))). Qed.

Example invariant_single : Invariant.holds (mkResponse (Dec 250 0) ["250 OK"]) = true.
Proof. reflexivity. Qed.
Example invariant_multi :
  Invariant.holds (mkResponse (Dec 250 0)
    ["250-example.com"; "250-AUTH PLAIN LOGIN"; "250 SIZE 35882577"]) = true.
Proof. reflexivity. Qed.

(** Two replies that the reader returns and that break the invariant: a
    single line with nothing after the code, and a multi-line reply with
    a line in the middle that does not carry the code. *)
Lemma reply_invariant_counterexample :
  (readSmtpResponse [crlf "250"] = (Ok (mkResponse (Dec 250 0) ["250"]), []) /\
   Invariant.holds (mkResponse (Dec 250 0) ["250"]) = false) /\
  (readSmtpResponse [crlf "250-first" ++ crlf "hello" ++ crlf "250 done"]
   = (Ok (mkResponse (Dec 250 0) ["250-first"; "hello"; "250 done"]), []) /\
   Invariant.holds (mkResponse (Dec 250 0) ["250-first"; "hello"; "250 done"]) = false).
Proof. refine (conj (conj eq_refl eq_refl) (conj eq_refl eq_refl)). Qed.

(** C4, as the code has it: a reply that the reader returns has at
    least one line; its code is the number read from the first three
    characters of the first line.  Either it has that line alone, and
    the character after the three is not a hyphen; or that character is
    a hyphen, the last line begins with the same three characters and a
    space, and no line between the first and the last does: reading
    stopped at the first later line that begins with the three
    characters and a space. *)
Theorem readSmtpResponse_reply_shape (reader : SmtpReader) (reply : SmtpResponse)
  (rest : SmtpReader) :
  readSmtpResponse reader = (Ok reply, rest) ->
  exists first more,
    lines reply = first :: more /\
    String.length (Js.slice first 0 3) = 3 /\
    code reply = JsNum.Number (Js.slice first 0 3) /\
    JsNum.isFinite (code reply) = true /\
    ((more = [] /\ Js.at_ first 3 <> Some "-"%char) \/
     (Js.at_ first 3 = Some "-"%char /\
      exists middle final,
        more = (middle ++ [final])%list /\
        Js.startsWith final (Js.slice first 0 3 ++ " ") = true /\
        Forall (fun line => Js.startsWith line (Js.slice first 0 3 ++ " ") = false) middle)).
Proof.
  unfold readSmtpResponse.
  destruct (Reader.readLine EmptyString reader) as [[[first|e] buffer1] reader1];
    [|discriminate].
  destruct (JsNum.isFinite (JsNum.Number (Js.slice first 0 3))) eqn:Hfin;
    [|discriminate].
  destruct (Nat.eqb_spec (String.length (Js.slice first 0 3)) 3) as [Hlen|];
    [|discriminate].
  cbn [negb orb].
  destruct (Js.at_ first 3) as [c|] eqn:Hat.
  - destruct (Ascii.eqb_spec c "-") as [->|Hne]; cbn [negb].
    + destruct (readMore _ buffer1 reader1 _) as [[result|e] reader2] eqn:Hmore;
        [|discriminate].
      intros [= <- <-]. cbn [lines code].
      apply ReaderFacts.readMore_lines in Hmore as (middle & final & -> & Hfinal & Hmid).
      exists first, (middle ++ [final])%list. repeat split; auto.
      right. split; [exact Hat|]. exists middle, final. auto.
    + intros [= <- <-]. exists first, []. cbn [lines code]. repeat split; auto.
      left. split; [reflexivity | congruence].
  - intros [= <- <-]. exists first, []. cbn [lines code]. repeat split; auto.
    left. split; [reflexivity | congruence].
Qed.

Lemma readSmtpResponse_reply_shape_witness :
  exists first more,
    ["250-example.com"; "250-AUTH PLAIN LOGIN"; "250 SIZE 35882577"] = first :: more /\
    String.length (Js.slice first 0 3) = 3 /\
    Dec 250 0 = JsNum.Number (Js.slice first 0 3) /\
    JsNum.isFinite (Dec 250 0) = true /\
    ((more = [] /\ Js.at_ first 3 <> Some "-"%char) \/
     (Js.at_ first 3 = Some "-"%char /\
      exists middle final,
        more = (middle ++ [final])%list /\
        Js.startsWith final (Js.slice first 0 3 ++ " ") = true /\
        Forall (fun line => Js.startsWith line (Js.slice first 0 3 ++ " ") = false) middle)).
Proof.
  apply (readSmtpResponse_reply_shape
           [crlf "250-example.com" ++ crlf "250-AUTH PLAIN LOGIN"; crlf "250 SIZE 35882577"]
           (mkResponse (Dec 250 0)
              ["250-example.com"; "250-AUTH PLAIN LOGIN"; "250 SIZE 35882577"])
           []).
  reflexivity.
Defined.

(** *** The line buffer does not outlive the call *)

Module BufferFacts.
Import Reader ReaderTermination.

Lemma cutLine_append s extra a b :
  cutLine s = Some (a, b) -> cutLine (s ++ extra) = Some (a, b ++ extra).
Proof.
  revert a b. induction s as [|c s IH]; intros a b; cbn [cutLine append].
  - discriminate.
  - destruct (Ascii.eqb c "010").
    + intros [= <- <-]. reflexivity.
    + destruct (cutLine s) as [[a' b']|]; [|discriminate].
      intros [= <- <-]. now rewrite (IH a' b' eq_refl).
Qed.

Lemma includes_cutLine s :
  Js.includes s Js.LF = match cutLine s with Some _ => true | None => false end.
Proof.
  unfold Js.includes. pose proof (indexOf_cutLine s) as H.
  destruct (cutLine s) as [[a b]|].
  - destruct H as (-> & _). reflexivity.
  - now rewrite H.
Qed.

Lemma includes_append s extra :
  Js.includes s Js.LF = true -> Js.includes (s ++ extra) Js.LF = true.
Proof.
  rewrite !includes_cutLine. destruct (cutLine s) as [[a b]|] eqn:E; [|discriminate].
  now rewrite (cutLine_append _ extra _ _ E).
Qed.

Lemma append_assoc (a b c : string) : (a ++ b) ++ c = a ++ b ++ c.
Proof. induction a; cbn; [reflexivity | now rewrite IHa]. Qed.

Lemma fill_ready buffer reader :
  Js.includes buffer Js.LF = true -> fill buffer reader = Some (buffer, reader).
Proof. intros H. destruct reader; cbn [fill]; now rewrite H. Qed.

Lemma fill_ahead extra post pre chunk buffer buffer1 reader1 :
  fill buffer (pre ++ [chunk])%list = Some (buffer1, reader1) ->
  exists buffer1' reader1',
    fill buffer (pre ++ (chunk ++ extra)%string :: post)%list = Some (buffer1', reader1') /\
    related extra post (buffer1, reader1) (buffer1', reader1').
Proof.
  revert buffer. induction pre as [|p pre IH]; intros buffer; cbn [List.app fill].
  - destruct (Js.includes buffer Js.LF) eqn:E.
    + intros [= <- <-]. do 2 eexists. split; [reflexivity|].
      apply (related_ahead extra post buffer []).
    + destruct (Js.includes (buffer ++ chunk) Js.LF) eqn:E2; [|discriminate].
      intros [= <- <-]. rewrite <- append_assoc.
      exists ((buffer ++ chunk) ++ extra), post. split.
      * apply fill_ready, includes_append, E2.
      * constructor.
  - destruct (Js.includes buffer Js.LF) eqn:E.
    + intros [= <- <-]. do 2 eexists. split; [reflexivity|].
      apply (related_ahead extra post buffer (p :: pre)).
    + apply IH.
Qed.

Lemma fill_related extra post buffer reader buffer' reader' buffer1 reader1 :
  related extra post (buffer, reader) (buffer', reader') ->
  fill buffer reader = Some (buffer1, reader1) ->
  exists buffer1' reader1',
    fill buffer' reader' = Some (buffer1', reader1') /\
    related extra post (buffer1, reader1) (buffer1', reader1').
Proof.
  intros Hrel. inversion Hrel as [b pre chunk | b]; subst; clear Hrel.
  - apply fill_ahead.
  - cbn [fill]. destruct (Js.includes buffer Js.LF) eqn:E; [|discriminate].
    intros [= <- <-]. do 2 eexists. split.
    + apply fill_ready, includes_append, E.
    + constructor.
Qed.

Lemma readLine_related extra post buffer reader buffer' reader' line buffer2 reader2 :
  related extra post (buffer, reader) (buffer', reader') ->
  readLine buffer reader = (Ok line, buffer2, reader2) ->
  exists buffer2' reader2',
    readLine buffer' reader' = (Ok line, buffer2', reader2') /\
    related extra post (buffer2, reader2) (buffer2', reader2').
Proof.
  intros Hrel. unfold readLine.
  destruct (fill buffer reader) as [[b1 r1]|] eqn:F; [|discriminate].
  destruct (fill_related _ _ _ _ _ _ _ _ Hrel F) as (b1' & r1' & -> & Hrel1).
  pose proof (fill_pending _ _ _ _ F) as [_ Hin].
  rewrite includes_cutLine in Hin.
  destruct (cutLine b1) as [[a b]|] eqn:C; [|discriminate].
  pose proof (indexOf_cutLine b1) as H1. rewrite C in H1.
  destruct H1 as (Hi & Hs & Hf & _). rewrite Hi, Hs, Hf. clear Hi Hs Hf.
  intros Heq. injection Heq as Hl Hb Hr. subst line buffer2 reader2.
  assert (exists b', cutLine b1' = Some (a, b') /\
                     related extra post (b, r1) (b', r1')) as (b' & C' & Hrel2).
  { inversion Hrel1; subst.
    - exists b. split; [assumption | constructor].
    - exists (b ++ extra). split; [now apply cutLine_append | constructor]. }
  pose proof (indexOf_cutLine b1') as H1'. rewrite C' in H1'.
  destruct H1' as (Hi' & Hs' & Hf' & _). rewrite Hi', Hs', Hf'.
  exists b', r1'. split; [reflexivity | assumption].
Qed.

Lemma related_exhausted extra post buffer buffer' reader' :
  related extra post (buffer, []) (buffer', reader') -> reader' = post.
Proof.
  intros H. inversion H as [b pre chunk Hb|b]; subst; [|reflexivity].
  destruct pre; discriminate.
Qed.

Lemma readMore_related extra post codeStr buffer reader lines result :
  readMore codeStr buffer reader lines = (Ok result, []) ->
  forall buffer' reader',
    related extra post (buffer, reader) (buffer', reader') ->
    readMore codeStr buffer' reader' lines = (Ok result, post).
Proof.
  funelim (readMore codeStr buffer reader lines); [|discriminate].
  intros Hres buffer0 reader0 Hrel.
  destruct (readLine_related _ _ _ _ _ _ _ _ _ Hrel Hread) as (b2 & r2 & Hline & Hrel2).
  rewrite ReaderFacts.readMore_step, Hline.
  destruct (Js.startsWith line (codeStr ++ " ")).
  - injection Hres as <- ->.
    now rewrite (related_exhausted _ _ _ _ _ Hrel2).
  - eapply H; eauto.
Qed.

End BufferFacts.

Lemma inputOf_setInput h r w : inputOf h (setInput h r w) = r.
Proof. destruct h; reflexivity. Qed.

(** On the texts that the decoder delivers, the line buffer is local to
    one call.  Take a stream on which a
    call reads a reply and uses up every chunk; let the last chunk carry
    any extra text after the reply, and let any chunks follow.  The call
    returns the same reply and leaves exactly the following chunks in the
    stream: the extra text is gone with the buffer, and the next call on
    that stream reads what it would read from the following chunks
    alone. *)
Theorem readSmtpResponse_discards_excess (pre : list string) (chunk extra : string)
  (post : SmtpReader) (reply : SmtpResponse) :
  readSmtpResponse (pre ++ [chunk])%list = (Ok reply, []) ->
  readSmtpResponse (pre ++ (chunk ++ extra)%string :: post)%list = (Ok reply, post) /\
  (forall h w,
     inputOf h w = (pre ++ (chunk ++ extra)%string :: post)%list ->
     readResponse h w = (Ok reply, setInput h post w) /\
     fst ((_ <- readResponse h ;; readResponse h) w) = fst (readSmtpResponse post)).
Proof.
  intros Hread.
  assert (Hmain : readSmtpResponse (pre ++ (chunk ++ extra)%string :: post)%list
                  = (Ok reply, post)).
  { revert Hread. unfold readSmtpResponse.
    destruct (Reader.readLine EmptyString (pre ++ [chunk])%list) as [[[first|e] b1] r1] eqn:L;
      [|discriminate].
    destruct (BufferFacts.readLine_related extra post _ _ _ _ _ _ _
                (related_ahead extra post EmptyString pre chunk) L)
      as (b1' & r1' & -> & Hrel).
    destruct (negb _ || negb _); [discriminate|].
    destruct (negb _).
    - intros [= <- ->]. now rewrite (BufferFacts.related_exhausted _ _ _ _ _ Hrel).
    - destruct (readMore _ b1 r1 _) as [[result|e] r2] eqn:Hmore; [|discriminate].
      intros [= <- ->].
      now rewrite (BufferFacts.readMore_related extra post _ _ _ _ _ Hmore _ _ Hrel). }
  split; [exact Hmain|].
  intros h w Hin. unfold bind, readResponse.
  rewrite Hin, Hmain. split; [reflexivity|].
  rewrite inputOf_setInput.
  destruct (readSmtpResponse post) as [r rest]. reflexivity.
Qed.

Lemma readSmtpResponse_discards_excess_witness :
  readSmtpResponse [crlf "250-example.com"; crlf "250 OK" ++ crlf "354 early"; crlf "221 bye"]
  = (Ok (mkResponse (Dec 250 0) ["250-example.com"; "250 OK"]), [crlf "221 bye"]).
Proof.
  apply (readSmtpResponse_discards_excess
           [crlf "250-example.com"] (crlf "250 OK") (crlf "354 early") [crlf "221 bye"]
           (mkResponse (Dec 250 0) ["250-example.com"; "250 OK"])).
  reflexivity.
Defined.

(** *** The reader on the bytes *)

Module ByteFacts.

Section Decoding.
Context {Decoder : Type} `{TextDecoding Decoder}.

Lemma decoded_app d a b :
  decoded d (a ++ b)%list = (decoded d a ++ decoded (decoderAfter d a) b)%list.
Proof.
  revert d. induction a as [|value a IH]; intros d; [reflexivity|].
  cbn [List.app decoded decoderAfter]. now rewrite IH.
Qed.

Lemma decoderAfter_app d a b :
  decoderAfter d (a ++ b)%list = decoderAfter (decoderAfter d a) b.
Proof.
  revert d. induction a as [|value a IH]; intros d; [reflexivity|].
  cbn [List.app decoderAfter]. apply IH.
Qed.

Lemma decoded_length d reader : List.length (decoded d reader) = List.length reader.
Proof.
  revert d. induction reader as [|value reader IH]; intros d; [reflexivity|].
  cbn [decoded List.length]. now rewrite IH.
Qed.

Lemma consumes_refl d reader : consumes d reader d reader.
Proof. now exists []. Qed.

Lemma consumes_trans d reader d1 reader1 d2 reader2 :
  consumes d reader d1 reader1 -> consumes d1 reader1 d2 reader2 ->
  consumes d reader d2 reader2.
Proof.
  intros (c1 & -> & ->) (c2 & -> & ->). exists (c1 ++ c2)%list.
  now rewrite app_assoc, decoderAfter_app.
Qed.

Lemma fillFrom_consumes buffer d reader filled d1 reader1 :
  fillFrom buffer d reader = (filled, d1, reader1) -> consumes d reader d1 reader1.
Proof.
  revert buffer d. induction reader as [|value reader IH]; intros buffer d; cbn [fillFrom].
  - destruct (Js.includes buffer Js.LF); intros [= _ <- <-]; apply consumes_refl.
  - destruct (Js.includes buffer Js.LF).
    + intros [= _ <- <-]. apply consumes_refl.
    + intros F. apply IH in F. destruct F as (consumed & -> & ->).
      now exists (value :: consumed).
Qed.

Lemma readLineFrom_consumes buffer d reader line buffer1 d1 reader1 :
  readLineFrom buffer d reader = (line, buffer1, d1, reader1) ->
  consumes d reader d1 reader1.
Proof.
  unfold readLineFrom.
  destruct (fillFrom buffer d reader) as [[[b|] d'] reader'] eqn:F;
    apply fillFrom_consumes in F.
  - destruct (Js.indexOf b Js.LF); now intros [= _ _ <- <-].
  - now intros [= _ _ <- <-].
Qed.

Lemma readMoreFrom_step codeStr buffer d reader lines :
  readMoreFrom codeStr buffer d reader lines =
  match readLineFrom buffer d reader with
  | (Throw e, _, d1, reader1) => (Throw e, d1, reader1)
  | (Ok line, buffer1, d1, reader1) =>
      if Js.startsWith line (codeStr ++ " ")
      then (Ok (lines ++ [line])%list, d1, reader1)
      else readMoreFrom codeStr buffer1 d1 reader1 (lines ++ [line])%list
  end.
Proof.
  funelim (readMoreFrom codeStr buffer d reader lines);
    match goal with Hr : readLineFrom _ _ _ = _ |- _ => rewrite Hr end; reflexivity.
Qed.

Lemma readMoreFrom_consumes codeStr buffer d reader lines result d1 reader1 :
  readMoreFrom codeStr buffer d reader lines = (result, d1, reader1) ->
  consumes d reader d1 reader1.
Proof.
  funelim (readMoreFrom codeStr buffer d reader lines);
    match goal with Hr : readLineFrom _ _ _ = _ |- _ =>
      pose proof (readLineFrom_consumes _ _ _ _ _ _ _ Hr) as Hline end.
  - destruct (Js.startsWith line (codeStr ++ " ")).
    + now intros [= _ <- <-].
    + intros Hmore. eapply consumes_trans; [exact Hline|]. eapply H0. exact Hmore.
  - now intros [= _ <- <-].
Qed.

(** Reading the bytes is reading the texts that the decoder makes of
    them, for the loop and for the whole call. *)
Lemma readMoreFrom_decoded codeStr buffer d reader lines :
  readMore codeStr buffer (decoded d reader) lines =
  match readMoreFrom codeStr buffer d reader lines with
  | (result, d1, reader1) => (result, decoded d1 reader1)
  end.
Proof.
  funelim (readMoreFrom codeStr buffer d reader lines);
    rewrite ReaderFacts.readMore_step, readLineFrom_decoded;
    match goal with Hr : readLineFrom _ _ _ = _ |- _ => rewrite Hr end.
  - destruct (Js.startsWith line (codeStr ++ " ")); [reflexivity | apply H0].
  - reflexivity.
Qed.

Lemma readSmtpResponseFrom_decoded d reader :
  readSmtpResponse (decoded d reader) =
  match readSmtpResponseFrom d reader with
  | (result, d1, reader1) => (result, decoded d1 reader1)
  end.
Proof.
  unfold readSmtpResponse, readSmtpResponseFrom. rewrite readLineFrom_decoded.
  destruct (readLineFrom EmptyString d reader) as [[[[first|e] buffer1] d1] reader1];
    [|reflexivity].
  destruct (negb _ || negb _); [reflexivity|].
  destruct (negb _); [reflexivity|].
  rewrite readMoreFrom_decoded.
  now destruct (readMoreFrom _ buffer1 d1 reader1 _) as [[[result|e] d2] reader2].
Qed.

Lemma readSmtpResponseFrom_consumes d reader result d1 reader1 :
  readSmtpResponseFrom d reader = (result, d1, reader1) -> consumes d reader d1 reader1.
Proof.
  unfold readSmtpResponseFrom.
  destruct (readLineFrom EmptyString d reader) as [[[[first|e] buffer1] d'] reader'] eqn:L;
    apply readLineFrom_consumes in L; [|now intros [= _ <- <-]].
  destruct (negb _ || negb _); [now intros [= _ <- <-]|].
  destruct (negb _); [now intros [= _ <- <-]|].
  destruct (readMoreFrom _ buffer1 d' reader' _) as [[[more|e] d2] reader2] eqn:M;
    apply readMoreFrom_consumes in M; intros [= _ <- <-];
    eapply consumes_trans; eassumption.
Qed.

(** A call that leaves [post] of a stream that ends with [post] has
    read everything before it. *)
Lemma consumes_all d before post d1 reader1 :
  consumes d (before ++ post)%list d1 reader1 ->
  List.length reader1 = List.length post ->
  reader1 = post /\ d1 = decoderAfter d before.
Proof.
  intros (values & Heq & ->) Hlen.
  assert (Hv : List.length values = List.length before).
  { apply (f_equal (@List.length Bytes)) in Heq. rewrite !length_app in Heq. lia. }
  assert (Hsplit : before = values /\ post = reader1).
  { revert values Heq Hv. induction before as [|x before IH]; intros [|v values] Heq Hv;
      try discriminate Hv.
    - now split.
    - cbn [List.app] in Heq. injection Heq as -> Heq. injection Hv as Hv.
      destruct (IH values Heq Hv) as (-> & ->). now split. }
  destruct Hsplit as (-> & ->). now split.
Qed.

End Decoding.

End ByteFacts.

(** C9, the instance that refutes it: a byte beyond the reply that the
    next read observes.  The first chunk holds the reply [250 OK] and,
    after its line, the byte C2, which begins a character of two bytes;
    the second chunk begins with the byte A0.  The first call returns
    the reply and leaves the second chunk unread, with the byte C2 held
    by the decoder.  The second call returns a reply whose line begins
    with U+00A0, the character of the two bytes C2 A0, and whose code is
    21, U+00A0 being white space for [Number]: the byte that came beyond
    the first reply is part of the second.  Decoded without the held
    byte, the second chunk begins with U+FFFD.  Every character of the
    two decodings of the session lies below U+0100. *)
Lemma excess_byte_reaches_next_reply :
  let first := (bytesOf (crlf "250 OK") ++ [xc2])%list in
  let second := xa0 :: bytesOf (crlf "21 later") in
  exists held,
    readSmtpResponseFrom Utf8.fresh [first; second]
    = (Ok (mkResponse (Dec 250 0) ["250 OK"]), held, [second]) /\
    Utf8.bytesNeeded held = 1 /\
    fst (fst (readSmtpResponseFrom held [second]))
    = Ok (mkResponse (Dec 21 0) [String "160"%char "21 later"]) /\
    hd 0%N (fst (Utf8.scalars held second)) = 160%N /\
    hd 0%N (fst (Utf8.scalars (Utf8.idle held) second)) = 65533%N /\
    Utf8.exact (fst (Utf8.scalars Utf8.fresh first)) = true /\
    Utf8.exact (fst (Utf8.scalars held second)) = true.
Proof.
  eexists. split; [vm_compute; reflexivity|].
  repeat split; vm_compute; reflexivity.
Qed.

(** C9: on the bytes, the line buffer is local to one call and the
    decoder is not.  Take a stream on which a call reads a reply and
    uses up every chunk, leaving the decoder in state [dEnd]; let the
    last chunk carry any bytes [extra] after those, and let any chunks
    [post] follow.  The call returns the same reply and leaves exactly
    the following chunks unread: the text decoded from the extra bytes
    is gone with the buffer.  What it leaves of them is the state in
    which they put the decoder.  When that state is [dEnd], the stream
    is left as the stream without the extra bytes is left, so that the
    next call reads what it would read had they not been delivered. *)
Theorem readSmtpResponseFrom_discards_decoded_excess {Decoder : Type}
  `{TextDecoding Decoder} (d dEnd : Decoder) (pre : list Bytes) (chunk extra : Bytes)
  (post : list Bytes) (reply : SmtpResponse) :
  readSmtpResponseFrom d (pre ++ [chunk])%list = (Ok reply, dEnd, []) ->
  readSmtpResponseFrom d (pre ++ (chunk ++ extra)%list :: post)%list
  = (Ok reply, snd (decode dEnd extra), post) /\
  (snd (decode dEnd extra) = dEnd ->
   readSmtpResponseFrom d (pre ++ (chunk ++ extra)%list :: post)%list
   = readSmtpResponseFrom d (pre ++ chunk :: post)%list).
Proof.
  intros Hread.
  assert (Hend : dEnd = snd (decode (decoderAfter d pre) chunk)).
  { pose proof (ByteFacts.readSmtpResponseFrom_consumes _ _ _ _ _ Hread) as Hc.
    rewrite <- (app_nil_r (pre ++ [chunk])%list) in Hc.
    destruct (ByteFacts.consumes_all _ _ _ _ _ Hc eq_refl) as (_ & ->).
    now rewrite ByteFacts.decoderAfter_app. }
  assert (Htext : readSmtpResponse (decoded d pre ++ [fst (decode (decoderAfter d pre) chunk)])%list
                  = (Ok reply, [])).
  { pose proof (ByteFacts.readSmtpResponseFrom_decoded d (pre ++ [chunk])%list) as Hd.
    rewrite Hread, ByteFacts.decoded_app in Hd. exact Hd. }
  assert (Hmain : forall more,
            readSmtpResponseFrom d (pre ++ (chunk ++ more)%list :: post)%list
            = (Ok reply, snd (decode dEnd more), post)).
  { intros more.
    pose proof (ByteFacts.readSmtpResponseFrom_decoded d
                  (pre ++ (chunk ++ more)%list :: post)%list) as Hd.
    rewrite ByteFacts.decoded_app in Hd. cbn [decoded] in Hd.
    rewrite decode_app in Hd. cbn [fst snd] in Hd. rewrite <- Hend in Hd.
    rewrite (proj1 (readSmtpResponse_discards_excess (decoded d pre)
                      (fst (decode (decoderAfter d pre) chunk)) (fst (decode dEnd more))
                      (decoded (snd (decode dEnd more)) post) reply Htext)) in Hd.
    destruct (readSmtpResponseFrom d (pre ++ (chunk ++ more)%list :: post)%list)
      as [[result d1] reader1] eqn:E.
    injection Hd as <- Hrest.
    apply ByteFacts.readSmtpResponseFrom_consumes in E.
    change (pre ++ (chunk ++ more)%list :: post)%list
      with (pre ++ [(chunk ++ more)%list] ++ post)%list in E.
    rewrite app_assoc in E.
    apply (f_equal (@List.length string)) in Hrest.
    rewrite !ByteFacts.decoded_length in Hrest.
    destruct (ByteFacts.consumes_all _ _ _ _ _ E (eq_sym Hrest)) as (-> & ->).
    rewrite ByteFacts.decoderAfter_app. cbn [decoderAfter].
    rewrite decode_app. cbn [snd]. now rewrite <- Hend. }
  split; [apply Hmain|].
  intros Hsame. rewrite Hmain, Hsame.
  pose proof (Hmain []) as Hnone. rewrite app_nil_r, decode_nil in Hnone.
  symmetry. exact Hnone.
Qed.

Lemma readSmtpResponseFrom_discards_decoded_excess_witness :
  let pre := [bytesOf (crlf "250-example.com")] in
  let chunk := bytesOf (crlf "250 OK") in
  let extra := bytesOf (crlf "354 early") in
  let post := [bytesOf (crlf "221 bye")] in
  readSmtpResponseFrom Utf8.fresh (pre ++ (chunk ++ extra)%list :: post)%list
  = (Ok (mkResponse (Dec 250 0) ["250-example.com"; "250 OK"]),
     Utf8.mkState 0 0 0 128 191 true, post) /\
  readSmtpResponseFrom Utf8.fresh (pre ++ (chunk ++ extra)%list :: post)%list
  = readSmtpResponseFrom Utf8.fresh (pre ++ chunk :: post)%list.
Proof.
  intros pre chunk extra post.
  destruct (readSmtpResponseFrom_discards_decoded_excess
              Utf8.fresh (Utf8.mkState 0 0 0 128 191 true) pre chunk extra post
              (mkResponse (Dec 250 0) ["250-example.com"; "250 OK"]))
    as (Hreply & Hclean).
  - vm_compute. reflexivity.
  - split; [exact Hreply | apply Hclean; vm_compute; reflexivity].
Defined.

(** ** Session orchestrator *)

Module SessionFacts.
Import Machine.

(** A checked exchange of the machine and the same exchange in the
    code: [readSmtpResponse] followed by [assertSmtpOk]. *)
Lemma expect_assert h stage expected w :
  expect h stage expected w =
  (reply <- readResponse h ;; lift (assertSmtpOk reply expected stage) ;; ret reply) w.
Proof.
  unfold expect, bind, lift, assertSmtpOk.
  destruct (readResponse h w) as [[reply|e] w1]; [|reflexivity].
  destruct (includesCode expected (code reply)); reflexivity.
Qed.

Section Session.
Variable config : MailerConfig.t.
Variable mail : Mail.

Lemma smtpSendMail_code w :
  smtpSendMail config mail w =
  (if (MailerConfig.port config =? 25)%Z then throw UnsupportedPort
   else
     connect (MailerConfig.host config) (MailerConfig.port config) (mode config) ;;
     greeting <- readResponse PlainSocket ;;
     lift (assertSmtpOk greeting [220%Z] "Greeting") ;;
     writeSmtpCommand PlainSocket ("EHLO " ++ heloName config) ;;
     ehlo <- readResponse PlainSocket ;;
     lift (assertSmtpOk ehlo [250%Z] "EHLO") ;;
     match mode config with
     | starttls =>
         writeSmtpCommand PlainSocket "STARTTLS" ;;
         starttlsReply <- readResponse PlainSocket ;;
         lift (assertSmtpOk starttlsReply [220%Z] "STARTTLS") ;;
         secureSocket <- startTls PlainSocket ;;
         writeSmtpCommand SecureSocket ("EHLO " ++ heloName config) ;;
         tlsEhlo <- readResponse SecureSocket ;;
         lift (assertSmtpOk tlsEhlo [250%Z] "EHLO (TLS)") ;;
         codeSecured config mail SecureSocket (parseSmtpCapabilities tlsEhlo)
     | _ => codeSecured config mail PlainSocket (parseSmtpCapabilities ehlo)
     end) w.
Proof.
  reflexivity.
Qed.

Ltac open_up :=
  repeat progress
    (cbn [transition];
     try match goal with
         | H : mode ?c = _ |- context [mode ?c] => rewrite H
         end;
     try unfold expect; try unfold command; try unfold writeSmtpCommand;
     try unfold write; try unfold close; try unfold startTls; try unfold connect;
     try unfold logEvent; try unfold lift; try unfold throw; try unfold assertSmtpOk;
     try unfold bind; try unfold ret).

Ltac run_both :=
  open_up;
  repeat (match goal with
          | |- context [includesCode ?a ?b] => destruct (includesCode a b)
          | |- context [readResponse ?h ?x] =>
              destruct (readResponse h x) as [[?reply|?e] ?w]
          | |- context [createMessage ?m ?x] =>
              destruct (createMessage m x) as [[?body|?e] ?w]
          | |- context [smtpAuth ?c ?a ?h ?x] =>
              destruct (smtpAuth c a h x) as [[[]|?e] ?w]
          end; try reflexivity; open_up).

Lemma refines_quit h : refines (run config mail 1 (Queued h)) (codeQuit h).
Proof.
  intros w. cbn [run transition]. unfold codeQuit, randomUUID. run_both.
Qed.

Lemma refines_body h : refines (run config mail 2 (AcceptingBody h)) (codeBody mail h).
Proof.
  intros w. change (run config mail 2) with
    (fun s => s' <- transition config mail s ;; run config mail 1 s').
  cbn [transition]. unfold codeBody. run_both. apply refines_quit.
Qed.

Lemma refines_data h : refines (run config mail 3 (RecipientsAccepted h)) (codeData mail h).
Proof.
  intros w. change (run config mail 3) with
    (fun s => s' <- transition config mail s ;; run config mail 2 s').
  cbn [transition]. unfold codeData. run_both. apply refines_body.
Qed.

Lemma refines_recipients h recipients :
  refines (run config mail (4 + List.length recipients) (SenderAccepted h recipients))
          (forOf recipients (codeRcpt h) ;; codeData mail h).
Proof.
  induction recipients as [|recipient recipients IH]; intros w.
  - change (run config mail (4 + List.length (@nil string))) with
      (fun s => s' <- transition config mail s ;; run config mail 3 s').
    cbn [transition forOf]. run_both. apply refines_data.
  - change (run config mail (4 + List.length (recipient :: recipients))) with
      (fun s => s' <- transition config mail s ;;
                run config mail (4 + List.length recipients) s').
    cbn [transition forOf]. unfold codeRcpt. run_both. apply IH.
Qed.

Lemma refines_secured h capabilities :
  refines (run config mail (6 + List.length (to mail)) (Secured h capabilities))
          (codeSecured config mail h capabilities).
Proof.
  intros w. change (run config mail (6 + List.length (to mail))) with
    (fun s => s1 <- transition config mail s ;;
              s2 <- transition config mail s1 ;;
              run config mail (4 + List.length (to mail)) s2).
  cbn [transition]. unfold codeSecured.
  destruct (MailerConfig.auth config) as [credentials|]; run_both;
    apply refines_recipients.
Qed.

(** The whole session: the code and the machine agree from the
    first step to the last. *)
Lemma refines_session : refines (session config mail) (smtpSendMail config mail).
Proof.
  intros w. rewrite smtpSendMail_code. unfold session.
  destruct (MailerConfig.port config =? 25)%Z; [reflexivity|].
  change (run config mail (9 + List.length (to mail))) with
    (fun s => s1 <- transition config mail s ;;
              s2 <- transition config mail s1 ;;
              s3 <- transition config mail s2 ;;
              run config mail (6 + List.length (to mail)) s3).
  cbn [transition].
  destruct (mode config) eqn:Hmode; run_both; apply refines_secured.
Qed.

End Session.

End SessionFacts.

Lemma includesCode_spec (expected : list Z) (c : JsNumber) :
  includesCode expected c = true <-> exists k, In k expected /\ JsNum.eqInt c k = true.
Proof. unfold includesCode. apply existsb_exists. Qed.

(** C2: the session follows the state machine of the specification.
    - The status check of the code throws the [ProtocolError] carrying
      the stage name, the received code and all the reply lines exactly
      when the code is not one of the expected ones, and passes
      otherwise; a checked exchange of the machine is a reply read and
      that check.
    - On every world, [smtpSendMail] throws what the machine throws, in
      the same world, and returns a message identifier only when the
      machine has gone through all its transitions to [Closed]: greeting
      220, EHLO 250, STARTTLS 220 and EHLO again 250 in STARTTLS mode,
      MAIL FROM 250, one RCPT TO for each recipient in order, each 250 or
      251, DATA 354, the end of the data 250, and QUIT, whose reply is
      read and not checked. *)
Theorem smtpSendMail_follows_state_machine (config : MailerConfig.t) (mail : Mail) (w : World) :
  (forall reply expected stage,
     (assertSmtpOk reply expected stage =
        Throw (ProtocolError stage (code reply) (lines reply)) <->
      ~ exists k, In k expected /\ JsNum.eqInt (code reply) k = true) /\
     (assertSmtpOk reply expected stage = Ok tt <->
      exists k, In k expected /\ JsNum.eqInt (code reply) k = true)) /\
  (forall h stage expected w0,
     Machine.expect h stage expected w0 =
     (reply <- readResponse h ;; lift (assertSmtpOk reply expected stage) ;; ret reply) w0) /\
  match Machine.session config mail w with
  | (Ok (Machine.Closed identifier), w') =>
      smtpSendMail config mail w = (Ok (mkResult identifier), w')
  | (Ok _, _) => False
  | (Throw e, w') => smtpSendMail config mail w = (Throw e, w')
  end.
Proof.
  split; [|split].
  - intros reply expected stage. rewrite <- includesCode_spec. unfold assertSmtpOk.
    destruct (includesCode expected (code reply)); split; split;
      intros; try congruence; try discriminate; try reflexivity; exfalso; auto.
  - apply SessionFacts.expect_assert.
  - apply SessionFacts.refines_session.
Qed.

(** *** Scripted sessions *)

(** The end-to-end scenario of the specification: the scripted server
    accepts every step, the session returns the generated identifier and
    the connection is closed at the end. *)
Example session_completes :
  let run := smtpSendMail submission letter
               (scripted [crlf "220 ready";
                          crlf "250-AUTH PLAIN LOGIN" ++ crlf "250 OK";
                          crlf "235 authenticated";
                          crlf "250 sender ok";
                          crlf "250 recipient ok"; crlf "251 will forward";
                          crlf "354 go ahead";
                          crlf "250 queued";
                          crlf "221 bye"]) in
  fst run = Ok (mkResult "00000000-0000-4000-8000-000000000000") /\
  filter isClose (log (snd run)) = [Close PlainSocket] /\
  last (log (snd run)) StartTls = Close PlainSocket.
Proof. refine (conj eq_refl (conj eq_refl eq_refl)). Qed.

Example session_auth_rejected :
  fst (smtpSendMail submission letter
         (scripted [crlf "220 ready";
                    crlf "250-AUTH PLAIN LOGIN" ++ crlf "250 OK";
                    crlf "535 bad credentials"]))
  = Throw (ProtocolError "AUTH PLAIN" (Dec 535 0) ["535 bad credentials"]).
Proof. reflexivity. Qed.

(** C1: a session that is refused at RCPT TO.  The server accepts the
    greeting, EHLO, AUTH and MAIL FROM and the first recipient, and
    answers 550 to the second one.  The call throws the [ProtocolError]
    of the RCPT TO stage, and the log of what was done to the network up
    to the throw holds no [Close]: the socket is left open. *)
Theorem smtpSendMail_leaves_socket_open :
  let run := smtpSendMail submission letter
               (scripted [crlf "220 ready";
                          crlf "250-AUTH PLAIN LOGIN" ++ crlf "250 OK";
                          crlf "235 authenticated";
                          crlf "250 sender ok";
                          crlf "250 recipient ok";
                          crlf "550 no such user"]) in
  fst run = Throw (ProtocolError "RCPT TO" (Dec 550 0) ["550 no such user"]) /\
  log (snd run) =
    [Connect "smtp.example.com" 2525 off;
     Write PlainSocket (crlf "EHLO localhost");
     Write PlainSocket (crlf "AUTH PLAIN AHVzZXIAcGFzcw==");
     Write PlainSocket (crlf "MAIL FROM:<a@example.com>");
     Write PlainSocket (crlf "RCPT TO:<b@example.com>");
     Write PlainSocket (crlf "RCPT TO:<c@example.com>")] /\
  filter isClose (log (snd run)) = [].
Proof. refine (conj eq_refl (conj eq_refl eq_refl)). Qed.

(** *** The socket on the failing paths *)

Module CloseFacts.
Import SessionFacts.

Create HintDb quiet.

Lemma quiet_ret {A} (a : A) : quiet (ret a).
Proof. intros w r w' [= <- <-]. reflexivity. Qed.

Lemma quiet_throw {A} e : quiet (@throw A e).
Proof. intros w r w' [= <- <-]. reflexivity. Qed.

Lemma quiet_lift {A} (o : Outcome A) : quiet (lift o).
Proof. intros w r w' [= <- <-]. reflexivity. Qed.

Lemma quiet_bind {A B} (m : M A) (k : A -> M B) :
  quiet m -> (forall a, quiet (k a)) -> quiet (bind m k).
Proof.
  intros Hm Hk w r w'. unfold bind.
  destruct (m w) as [[a|e] w1] eqn:E.
  - intros H. rewrite (Hk a _ _ _ H). eapply Hm, E.
  - intros [= <- <-]. eapply Hm, E.
Qed.

Lemma quiet_logEvent e : isClose e = false -> quiet (logEvent e).
Proof.
  intros He w r w' [= <- <-]. unfold closes. cbn [log].
  rewrite filter_app. cbn [filter]. rewrite He. apply app_nil_r.
Qed.

Lemma quiet_write h t : quiet (write h t).
Proof. now apply quiet_logEvent. Qed.

Lemma quiet_writeSmtpCommand h c : quiet (writeSmtpCommand h c).
Proof. apply quiet_write. Qed.

Lemma quiet_command h c : quiet (Machine.command h c).
Proof. apply quiet_write. Qed.

Lemma quiet_readResponse h : quiet (readResponse h).
Proof.
  intros w r w' H. unfold closes. now rewrite (readResponse_log _ _ _ _ H).
Qed.

Lemma quiet_randomUUID : quiet randomUUID.
Proof. intros w r w' [= <- <-]. reflexivity. Qed.

#[local] Hint Resolve quiet_ret quiet_throw quiet_lift quiet_write quiet_writeSmtpCommand
  quiet_command quiet_readResponse quiet_randomUUID : quiet.

Ltac quiet_steps :=
  repeat (first [ apply quiet_bind; [|intros ?] | solve [auto with quiet] ]).

Lemma quiet_connect host port mode : quiet (connect host port mode).
Proof. apply quiet_bind; [now apply quiet_logEvent | auto with quiet]. Qed.

Lemma quiet_startTls h : quiet (startTls h).
Proof. apply quiet_bind; [now apply quiet_logEvent | auto with quiet]. Qed.

Lemma quiet_smtpAuth capabilities credentials h :
  quiet (smtpAuth capabilities credentials h).
Proof.
  unfold smtpAuth.
  destruct (plain (auth capabilities)); [|destruct (login (auth capabilities))];
    quiet_steps.
Qed.

Lemma quiet_createMessage mail : quiet (createMessage mail).
Proof.
  unfold createMessage.
  destruct (truthy (html mail) && truthy (text mail)); [|destruct (truthy (html mail))];
    quiet_steps.
Qed.

Lemma quiet_forOf {A} (xs : list A) (body : A -> M unit) :
  (forall x, quiet (body x)) -> quiet (forOf xs body).
Proof.
  intros Hbody. induction xs as [|x xs IH]; cbn [forOf]; quiet_steps; auto.
Qed.

#[local] Hint Resolve quiet_connect quiet_startTls quiet_smtpAuth quiet_createMessage
  : quiet.

Lemma quiet_codeRcpt h recipient : quiet (codeRcpt h recipient).
Proof. unfold codeRcpt. quiet_steps. Qed.

Lemma closing_bind {A B} (m : M A) (k : A -> M B) :
  quiet m -> (forall a, closesOnSuccessOnly (k a)) -> closesOnSuccessOnly (bind m k).
Proof.
  intros Hm Hk w. unfold bind.
  destruct (m w) as [[a|e] w1] eqn:E.
  - specialize (Hk a w1). rewrite <- (Hm _ _ _ E). exact Hk.
  - eapply Hm, E.
Qed.

Ltac closing_steps :=
  repeat (apply closing_bind; [solve [auto with quiet] | intros ?]).

Lemma closing_codeQuit h : closesOnSuccessOnly (codeQuit h).
Proof.
  unfold codeQuit. closing_steps.
  intros w. cbn. exists h. unfold closes. cbn [log].
  rewrite filter_app. reflexivity.
Qed.

Section Session.
Variable config : MailerConfig.t.
Variable mail : Mail.

Lemma closing_codeData h : closesOnSuccessOnly (codeData mail h).
Proof.
  unfold codeData, codeBody.
  do 7 (apply closing_bind; [solve [auto with quiet] | intros ?]).
  apply closing_codeQuit.
Qed.

Lemma closing_codeSecured h capabilities :
  closesOnSuccessOnly (codeSecured config mail h capabilities).
Proof.
  unfold codeSecured. apply closing_bind.
  - destruct (MailerConfig.auth config); auto with quiet.
  - intros _.
    do 3 (apply closing_bind; [solve [auto with quiet] | intros ?]).
    apply closing_bind.
    + apply quiet_forOf, quiet_codeRcpt.
    + intros _. apply closing_codeData.
Qed.

(** The session closes its socket when it succeeds, as its last
    network action but for the identifier, and on no path that
    throws. *)
Lemma smtpSendMail_throw_keeps_socket_open :
  closesOnSuccessOnly (smtpSendMail config mail).
Proof.
  intros w. rewrite smtpSendMail_code. revert w.
  change (closesOnSuccessOnly
    (if (MailerConfig.port config =? 25)%Z then throw UnsupportedPort
     else
       connect (MailerConfig.host config) (MailerConfig.port config) (Machine.mode config) ;;
       greeting <- readResponse PlainSocket ;;
       lift (assertSmtpOk greeting [220%Z] "Greeting") ;;
       writeSmtpCommand PlainSocket ("EHLO " ++ Machine.heloName config) ;;
       ehlo <- readResponse PlainSocket ;;
       lift (assertSmtpOk ehlo [250%Z] "EHLO") ;;
       match Machine.mode config with
       | starttls =>
           writeSmtpCommand PlainSocket "STARTTLS" ;;
           starttlsReply <- readResponse PlainSocket ;;
           lift (assertSmtpOk starttlsReply [220%Z] "STARTTLS") ;;
           secureSocket <- startTls PlainSocket ;;
           writeSmtpCommand SecureSocket ("EHLO " ++ Machine.heloName config) ;;
           tlsEhlo <- readResponse SecureSocket ;;
           lift (assertSmtpOk tlsEhlo [250%Z] "EHLO (TLS)") ;;
           codeSecured config mail SecureSocket (parseSmtpCapabilities tlsEhlo)
       | _ => codeSecured config mail PlainSocket (parseSmtpCapabilities ehlo)
       end)).
  destruct (MailerConfig.port config =? 25)%Z.
  - intros w. reflexivity.
  - do 6 (apply closing_bind; [solve [auto with quiet] | intros ?]).
    destruct (Machine.mode config); try apply closing_codeSecured.
    do 7 (apply closing_bind; [solve [auto with quiet] | intros ?]).
    apply closing_codeSecured.
Qed.

End Session.

End CloseFacts.

(* ===================================================================== *)
(** * Further properties of the code                                       *)
(* ===================================================================== *)

(** ** Response reader: streams and chunks *)

Module StreamFacts.
Import Reader ReaderTermination.

Lemma cutLine_none_append a b :
  cutLine a = None ->
  cutLine (a ++ b) =
  match cutLine b with Some (x, y) => Some (a ++ x, y) | None => None end.
Proof.
  induction a as [|c a IH]; cbn [cutLine append].
  - intros _. now destruct (cutLine b) as [[x y]|].
  - destruct (Ascii.eqb c "010"); [discriminate|].
    destruct (cutLine a) as [[x y]|]; [discriminate|]. intros _.
    rewrite (IH eq_refl). now destruct (cutLine b) as [[x y]|].
Qed.

Lemma hasLineFeed_append a b :
  hasLineFeed (a ++ b) = hasLineFeed a || hasLineFeed b.
Proof.
  unfold hasLineFeed. rewrite !BufferFacts.includes_cutLine.
  destruct (cutLine a) as [[x y]|] eqn:E.
  - now rewrite (BufferFacts.cutLine_append _ b _ _ E).
  - rewrite (cutLine_none_append _ b E). now destruct (cutLine b) as [[x y]|].
Qed.

Lemma fill_text buffer reader :
  match fill buffer reader with
  | Some (buffer1, reader1) =>
      buffer1 ++ streamText reader1 = buffer ++ streamText reader /\
      hasLineFeed buffer1 = true
  | None => hasLineFeed (buffer ++ streamText reader) = false /\ reader <> [] \/
            hasLineFeed (buffer ++ streamText reader) = false
  end.
Proof.
  revert buffer. induction reader as [|chunk reader IH]; intros buffer; cbn [fill streamText fold_right].
  - fold (hasLineFeed buffer). destruct (hasLineFeed buffer) eqn:E; [auto|].
    right. rewrite hasLineFeed_append, E. reflexivity.
  - fold (hasLineFeed buffer). destruct (hasLineFeed buffer) eqn:E; [auto|].
    specialize (IH (buffer ++ chunk)). fold (streamText reader) in *.
    rewrite BufferFacts.append_assoc in IH.
    destruct (fill (buffer ++ chunk) reader) as [[b1 r1]|].
    + exact IH.
    + right. destruct IH as [[H _]|H]; exact H.
Qed.

Lemma fill_none buffer reader :
  hasLineFeed (buffer ++ streamText reader) = false -> fill buffer reader = None.
Proof.
  intros H. pose proof (fill_text buffer reader) as F.
  destruct (fill buffer reader) as [[b1 r1]|]; [|reflexivity].
  destruct F as [F1 F2]. rewrite <- F1, hasLineFeed_append, F2 in H. discriminate.
Qed.

Lemma fill_some buffer reader :
  hasLineFeed (buffer ++ streamText reader) = true ->
  exists buffer1 reader1, fill buffer reader = Some (buffer1, reader1).
Proof.
  intros H. pose proof (fill_text buffer reader) as F.
  destruct (fill buffer reader) as [[b1 r1]|]; [eauto|].
  destruct F as [[F _]|F]; congruence.
Qed.

(** [readLine] in terms of the text: the line is cut from the text still
    to come, whatever the chunks are. *)
Lemma readLine_text buffer reader :
  match cutLine (buffer ++ streamText reader) with
  | Some (a, b) =>
      exists buffer' reader',
        readLine buffer reader = (Ok (stripEol (a ++ Js.LF)), buffer', reader') /\
        buffer' ++ streamText reader' = b
  | None => exists buffer', readLine buffer reader = (Throw ConnectionClosed, buffer', [])
  end.
Proof.
  pose proof (fill_text buffer reader) as F.
  destruct (cutLine (buffer ++ streamText reader)) as [[a b]|] eqn:C.
  - assert (H : hasLineFeed (buffer ++ streamText reader) = true).
    { unfold hasLineFeed. now rewrite BufferFacts.includes_cutLine, C. }
    destruct (fill_some _ _ H) as (b1 & r1 & E). unfold readLine. rewrite E in *.
    destruct F as [F1 F2]. unfold hasLineFeed in F2.
    rewrite BufferFacts.includes_cutLine in F2.
    destruct (cutLine b1) as [[a1 b1']|] eqn:C1; [|discriminate].
    rewrite <- F1, (BufferFacts.cutLine_append _ _ _ _ C1) in C.
    injection C as <- <-.
    pose proof (indexOf_cutLine b1) as I. rewrite C1 in I.
    destruct I as (-> & -> & -> & _). eauto.
  - assert (H : hasLineFeed (buffer ++ streamText reader) = false).
    { unfold hasLineFeed. now rewrite BufferFacts.includes_cutLine, C. }
    unfold readLine. rewrite (fill_none _ _ H). eauto.
Qed.

Lemma readMore_text codeStr buffer reader lines :
  forall buffer2 reader2,
    buffer2 ++ streamText reader2 = buffer ++ streamText reader ->
    fst (readMore codeStr buffer2 reader2 lines) = fst (readMore codeStr buffer reader lines).
Proof.
  funelim (readMore codeStr buffer reader lines);
    intros buffer2 reader2 Htext; rewrite ReaderFacts.readMore_step;
    pose proof (readLine_text buffer reader) as R1;
    pose proof (readLine_text buffer2 reader2) as R2;
    rewrite Htext in R2;
    destruct (cutLine (buffer ++ streamText reader)) as [[a b]|].
  - destruct R1 as (b1 & r1 & E1 & T1), R2 as (b2 & r2 & E2 & T2).
    rewrite E2. rewrite Hread in E1. injection E1 as -> <- <-.
    destruct (Js.startsWith _ _); [reflexivity|].
    apply H. congruence.
  - destruct R1 as (b1 & E1). congruence.
  - destruct R1 as (b1 & r1 & E1 & _). congruence.
  - destruct R1 as (b1 & E1), R2 as (b2 & E2). rewrite E2. cbn [fst].
    congruence.
Qed.

End StreamFacts.

(** X1: a stream that ends before it has delivered a line feed, the
    empty stream among them, makes the reader throw [ConnectionClosed],
    with every chunk consumed. *)
Theorem readSmtpResponse_closed_without_line (reader : SmtpReader) :
  hasLineFeed (streamText reader) = false ->
  readSmtpResponse reader = (Throw ConnectionClosed, []).
Proof.
  intros H. unfold readSmtpResponse.
  pose proof (StreamFacts.readLine_text EmptyString reader) as R.
  cbn [append] in R. unfold hasLineFeed in H.
  rewrite BufferFacts.includes_cutLine in H.
  destruct (ReaderTermination.cutLine (streamText reader)) as [[a b]|]; [discriminate|].
  destruct R as (b1 & ->). reflexivity.
Qed.

Lemma readSmtpResponse_closed_without_line_witness :
  readSmtpResponse ["250 O"; "K and no end of line"] = (Throw ConnectionClosed, []).
Proof.
  apply (readSmtpResponse_closed_without_line ["250 O"; "K and no end of line"]).
  reflexivity.
Defined.

(** X2: the outcome of a read depends on the text of the stream alone,
    not on how the transport cuts it into chunks: two streams with the
    same text give the same reply or the same error. *)
Theorem readSmtpResponse_chunking (reader1 reader2 : SmtpReader) :
  streamText reader1 = streamText reader2 ->
  fst (readSmtpResponse reader1) = fst (readSmtpResponse reader2).
Proof.
  intros Htext. unfold readSmtpResponse.
  pose proof (StreamFacts.readLine_text EmptyString reader1) as R1.
  pose proof (StreamFacts.readLine_text EmptyString reader2) as R2.
  cbn [append] in R1, R2. rewrite <- Htext in R2.
  destruct (ReaderTermination.cutLine (streamText reader1)) as [[a b]|].
  - destruct R1 as (b1 & r1 & -> & T1), R2 as (b2 & r2 & -> & T2).
    destruct (negb _ || negb _); [reflexivity|].
    destruct (negb _); [reflexivity|].
    pose proof (StreamFacts.readMore_text
                  (Js.slice (Reader.stripEol (a ++ Js.LF)) 0 3) b1 r1
                  ([] ++ [Reader.stripEol (a ++ Js.LF)])%list b2 r2) as Hm.
    rewrite T1, T2 in Hm. specialize (Hm eq_refl).
    destruct (readMore _ b1 r1 _) as [[l1|e1] x1], (readMore _ b2 r2 _) as [[l2|e2] x2];
      cbn [fst] in *; congruence.
  - destruct R1 as (b1 & ->), R2 as (b2 & ->). reflexivity.
Qed.

Lemma readSmtpResponse_chunking_witness :
  fst (readSmtpResponse ["25"; "0-a" ++ CRLF ++ "250"; " b" ++ CRLF ++ "rest"])
  = fst (readSmtpResponse ["250-a" ++ CRLF ++ "250 b" ++ CRLF ++ "rest"]).
Proof.
  apply (readSmtpResponse_chunking
           ["25"; "0-a" ++ CRLF ++ "250"; " b" ++ CRLF ++ "rest"]
           ["250-a" ++ CRLF ++ "250 b" ++ CRLF ++ "rest"]).
  reflexivity.
Defined.

(** ** Response reader: well-formed replies *)

Module WireFacts.
Import Reader ReaderTermination.

Lemma stripEol_crlf_end line : stripEol ((line ++ Js.CR) ++ Js.LF) = line.
Proof.
  induction line as [|c line IH]; [reflexivity|].
  cbn [append stripEol].
  assert (H1 : String.eqb (String c ((line ++ Js.CR) ++ Js.LF)) Js.LF = false).
  { apply String.eqb_neq. intros E. injection E as _ E.
    apply (f_equal String.length) in E. rewrite !length_append in E.
    cbn in E. lia. }
  assert (H2 : String.eqb (String c ((line ++ Js.CR) ++ Js.LF)) (Js.CR ++ Js.LF) = false).
  { apply String.eqb_neq. intros E. injection E as _ E.
    apply (f_equal String.length) in E. rewrite !length_append in E.
    cbn in E. lia. }
  rewrite H1, H2, IH. reflexivity.
Qed.

Lemma hasLineFeed_cutLine s : hasLineFeed s = false <-> cutLine s = None.
Proof.
  unfold hasLineFeed. rewrite BufferFacts.includes_cutLine.
  destruct (cutLine s) as [[a b]|]; split; congruence.
Qed.

Lemma cutLine_wire line rest :
  hasLineFeed line = false ->
  cutLine (line ++ CRLF ++ rest) = Some (line ++ Js.CR, rest).
Proof.
  intros H. apply hasLineFeed_cutLine in H.
  rewrite (StreamFacts.cutLine_none_append _ _ H). reflexivity.
Qed.

(** A line that is already in the buffer is returned without a read. *)
Lemma readLine_buffered buffer reader a b :
  cutLine buffer = Some (a, b) ->
  readLine buffer reader = (Ok (stripEol (a ++ Js.LF)), b, reader).
Proof.
  intros C. unfold readLine.
  assert (Hin : Js.includes buffer Js.LF = true)
    by now rewrite BufferFacts.includes_cutLine, C.
  rewrite (BufferFacts.fill_ready _ reader Hin).
  pose proof (indexOf_cutLine buffer) as I. rewrite C in I.
  destruct I as (-> & -> & -> & _). reflexivity.
Qed.

Lemma readLine_wire line rest reader :
  hasLineFeed line = false ->
  readLine (line ++ CRLF ++ rest) reader = (Ok line, rest, reader).
Proof.
  intros H. rewrite (readLine_buffered _ _ _ _ (cutLine_wire line rest H)).
  now rewrite stripEol_crlf_end.
Qed.

Lemma prefix_append_same p x y : prefix (p ++ x) (p ++ y) = prefix x y.
Proof.
  induction p as [|c p IH]; [reflexivity|].
  cbn [append]. rewrite StuffFacts.prefix_cons, Ascii.eqb_refl. exact IH.
Qed.

Lemma wire_cons line rest extra :
  wire (line :: rest) ++ extra = line ++ CRLF ++ (wire rest ++ extra).
Proof.
  cbn [wire fold_right]. fold (wire rest).
  now rewrite !BufferFacts.append_assoc.
Qed.

(** The loop on the continuation lines of a well-formed reply. *)
Lemma readMore_wire p texts final extra reader seen :
  Forall (fun line => hasLineFeed line = false) (replyLines p texts final) ->
  readMore p (wire (replyLines p texts final) ++ extra) reader seen
  = (Ok (seen ++ replyLines p texts final)%list, reader).
Proof.
  unfold replyLines.
  revert seen. induction texts as [|t texts IH]; intros seen Hall;
    cbn [map List.app] in *; inversion Hall as [|? ? Hline Hrest]; subst;
    rewrite wire_cons, ReaderFacts.readMore_step, (readLine_wire _ _ _ Hline);
    unfold Js.startsWith, finalLine, continuationLine; rewrite prefix_append_same.
  - cbn [prefix append]. destruct (ascii_dec " " " ") as [_|N]; [|contradiction].
    now destruct final.
  - replace (prefix " " ("-" ++ t)) with false by reflexivity.
    fold (continuationLine p t).
    rewrite (IH _ Hrest), <- app_assoc. reflexivity.
Qed.

Lemma digit_not_lf a : Js.isDigit a = true -> Ascii.eqb a "010" = false.
Proof.
  intros H. apply ReaderFacts.isDigit_cases in H. cbn in H.
  repeat (destruct H as [<-|H]; [reflexivity|]). contradiction.
Qed.

(** The value of three digits. *)
Lemma threeDigits_number p :
  Invariant.threeDigits p = true ->
  exists v, JsNum.digits 10 p = Some v /\ JsNum.Number p = Dec v 0.
Proof.
  unfold Invariant.threeDigits.
  destruct p as [|a [|b [|c [|d p]]]]; try discriminate.
  cbn [String.length Nat.eqb andb list_ascii_of_string forallb].
  intros H. apply andb_prop in H as [Ha H]. apply andb_prop in H as [Hb H].
  apply andb_prop in H as [Hc _].
  apply ReaderFacts.isDigit_cases in Ha, Hb, Hc.
  cbn [list_ascii_of_string In] in Ha, Hb, Hc.
  repeat (destruct Ha as [<-|Ha]; [|]); try contradiction;
    repeat (destruct Hb as [<-|Hb]; [|]); try contradiction;
    repeat (destruct Hc as [<-|Hc]; [|]); try contradiction;
    eexists; split; reflexivity.
Qed.

End WireFacts.

Module WellFormed.
Import Reader ReaderTermination WireFacts.

Lemma three_chars p :
  Invariant.threeDigits p = true ->
  exists a b c, p = String a (String b (String c EmptyString)) /\
                Js.isDigit a = true /\ Js.isDigit b = true /\ Js.isDigit c = true.
Proof.
  unfold Invariant.threeDigits.
  destruct p as [|a [|b [|c [|d p]]]]; try discriminate.
  cbn [String.length Nat.eqb andb list_ascii_of_string forallb].
  intros H. apply andb_prop in H as [Ha H]. apply andb_prop in H as [Hb H].
  apply andb_prop in H as [Hc _]. eauto 10.
Qed.

Lemma line_without_lf p sep text :
  Invariant.threeDigits p = true -> Ascii.eqb sep "010" = false ->
  hasLineFeed text = false -> hasLineFeed (p ++ String sep text) = false.
Proof.
  intros Hp Hsep Ht. destruct (three_chars p Hp) as (a & b & c & -> & Ha & Hb & Hc).
  apply hasLineFeed_cutLine. apply hasLineFeed_cutLine in Ht.
  cbn [append cutLine].
  now rewrite (digit_not_lf a Ha), (digit_not_lf b Hb), (digit_not_lf c Hc), Hsep, Ht.
Qed.

Lemma replyLines_without_lf p texts final :
  Invariant.threeDigits p = true ->
  Forall (fun t => hasLineFeed t = false) (final :: texts) ->
  Forall (fun line => hasLineFeed line = false) (replyLines p texts final).
Proof.
  intros Hp Hall. inversion Hall as [|? ? Hfinal Htexts]; subst.
  unfold replyLines. apply Forall_app. split.
  - apply Forall_map. eapply Forall_impl; [|exact Htexts].
    intros t Ht. now apply (line_without_lf p "-" t).
  - constructor; [|constructor]. now apply (line_without_lf p " " final).
Qed.

Lemma readLine_start chunk post line rest post' :
  readLine chunk post = (Ok line, rest, post') ->
  readLine EmptyString (chunk :: post) = (Ok line, rest, post').
Proof.
  unfold readLine. cbn [fill].
  change (Js.includes EmptyString Js.LF) with false. cbn [append].
  now destruct (fill chunk post) as [[b r]|].
Qed.

Lemma prefixed_line p v sep text :
  Invariant.threeDigits p = true -> JsNum.digits 10 p = Some v ->
  Invariant.prefixed (Dec v 0) sep (p ++ String sep text) = true.
Proof.
  intros Hp Hv. destruct (three_chars p Hp) as (a & b & c & -> & _).
  unfold Invariant.prefixed.
  change (Js.slice (String a (String b (String c EmptyString)) ++ String sep text) 0 3)
    with (String a (String b (String c EmptyString))).
  rewrite Hp, Hv.
  change (Js.at_ (String a (String b (String c EmptyString)) ++ String sep text) 3)
    with (Some sep).
  cbv beta iota. rewrite Ascii.eqb_refl. unfold JsNum.eqInt. cbn [Z.leb Z.compare].
  now rewrite Z.pow_0_r, Z.mul_1_r, Z.eqb_refl.
Qed.

End WellFormed.

(** X3: a well-formed reply is read back as sent.  The server sends the
    lines of a reply, each ended by CR LF: a three-digit code and a hyphen
    before every text but the last, the code and a space before the last;
    no text holds a line feed.  Whatever follows in the same chunk and in
    later chunks, the reader returns exactly those lines with the value of
    the code, leaves the later chunks in the stream, and the reply has
    the invariant of the data model. *)
Theorem readSmtpResponse_well_formed (p : string) (v : Z) (texts : list string)
  (final extra : string) (post : SmtpReader) :
  Invariant.threeDigits p = true ->
  JsNum.digits 10 p = Some v ->
  Forall (fun t => hasLineFeed t = false) (final :: texts) ->
  readSmtpResponse ((wire (replyLines p texts final) ++ extra) :: post)
  = (Ok (mkResponse (Dec v 0) (replyLines p texts final)), post) /\
  Invariant.holds (mkResponse (Dec v 0) (replyLines p texts final)) = true.
Proof.
  intros Hp Hv Hall.
  pose proof (WellFormed.replyLines_without_lf p texts final Hp Hall) as Hlines.
  destruct (WireFacts.threeDigits_number p Hp) as (v' & Hv' & Hnum).
  assert (v' = v) by congruence. subst v'.
  split.
  - unfold readSmtpResponse.
    destruct (WellFormed.three_chars p Hp) as (a & b & c & Ep & _).
    destruct texts as [|t texts].
    + unfold replyLines in *. cbn [map List.app] in *.
      inversion Hlines as [|? ? Hline _]; subst.
      rewrite WireFacts.wire_cons.
      rewrite (WellFormed.readLine_start _ _ _ _ _
                 (WireFacts.readLine_wire _ _ post Hline)).
      unfold finalLine.
      change (Js.slice (String a (String b (String c EmptyString)) ++ " " ++ final) 0 3)
        with (String a (String b (String c EmptyString))).
      rewrite Hnum. reflexivity.
    + unfold replyLines in *. cbn [map List.app] in *.
      inversion Hlines as [|? ? Hline Hrest]; subst.
      rewrite WireFacts.wire_cons.
      rewrite (WellFormed.readLine_start _ _ _ _ _
                 (WireFacts.readLine_wire _ _ post Hline)).
      fold (replyLines (String a (String b (String c EmptyString))) texts final) in *.
      pose proof (WireFacts.readMore_wire _ texts final extra post
                    ([] ++ [continuationLine (String a (String b (String c EmptyString))) t])%list
                    Hrest) as Hmore.
      remember (wire (replyLines (String a (String b (String c EmptyString))) texts final)
                ++ extra) as tail.
      remember (replyLines (String a (String b (String c EmptyString))) texts final) as more.
      unfold continuationLine in *. cbn [append] in *.
      unfold Js.slice, Js.at_. cbn [substring Nat.sub String.get].
      rewrite Hnum.
      cbn [JsNum.isFinite negb orb String.length Nat.eqb Ascii.eqb Bool.eqb].
      cbn [List.app] in Hmore. rewrite Hmore. reflexivity.
  - unfold Invariant.holds, replyLines. cbn [lines code].
    rewrite rev_app_distr. cbn [rev List.app].
    apply andb_true_intro. split.
    + apply (WellFormed.prefixed_line p v " " final Hp Hv).
    + apply forallb_forall. intros line Hin. apply in_rev, in_map_iff in Hin.
      destruct Hin as (t & <- & _).
      apply (WellFormed.prefixed_line p v "-" t Hp Hv).
Qed.

Lemma readSmtpResponse_well_formed_witness :
  readSmtpResponse
    [wire (replyLines "250" ["example.com"; "AUTH PLAIN LOGIN"] "SIZE 35882577")
     ++ "354 early"; "later"]
  = (Ok (mkResponse (Dec 250 0)
           (replyLines "250" ["example.com"; "AUTH PLAIN LOGIN"] "SIZE 35882577")),
     ["later"]).
Proof.
  apply (readSmtpResponse_well_formed "250" 250
           ["example.com"; "AUTH PLAIN LOGIN"] "SIZE 35882577" "354 early" ["later"]).
  - reflexivity.
  - reflexivity.
  - repeat constructor.
Defined.

(** ** Dot-stuffer: what the stuffed document keeps and what it excludes *)

Module StuffMore.
Import Stuff StuffFacts.

Lemma consHead_app c ps qs :
  ps <> [] -> (consHead c ps ++ qs)%list = consHead c (ps ++ qs)%list.
Proof. destruct ps; [contradiction | reflexivity]. Qed.

(** Splitting goes through a separator. *)
Lemma split_append x rest :
  split (x ++ CRLF ++ rest) = (split x ++ split rest)%list.
Proof.
  induction x as [| c | c1 c2 x IH1 IH2] using string_ind2.
  - reflexivity.
  - change (String c EmptyString ++ CRLF ++ rest)
      with (String c (String "013" (String "010" rest))).
    rewrite split_cons2.
    replace (Ascii.eqb c "013" && Ascii.eqb "013" "010") with false
      by (now rewrite andb_false_r).
    rewrite split_cons2. reflexivity.
  - change (String c1 (String c2 x) ++ CRLF ++ rest)
      with (String c1 (String c2 (x ++ CRLF ++ rest))).
    rewrite !split_cons2.
    destruct (Ascii.eqb c1 "013" && Ascii.eqb c2 "010").
    + now rewrite IH1.
    + change (String c2 (x ++ CRLF ++ rest)) with (String c2 x ++ CRLF ++ rest).
      rewrite IH2, consHead_app by apply split_nonempty. reflexivity.
Qed.

Lemma stuffLine_injective x y : stuffLine x = stuffLine y -> x = y.
Proof.
  rewrite !stuffLine_cases.
  destruct (startsWithDot x) eqn:Ex, (startsWithDot y) eqn:Ey; intros H.
  - now injection H.
  - subst y. now rewrite startsWithDot_cons in Ey.
  - subst x. now rewrite startsWithDot_cons in Ex.
  - exact H.
Qed.

Lemma map_stuffLine_injective xs ys :
  map stuffLine xs = map stuffLine ys -> xs = ys.
Proof.
  revert ys. induction xs as [|x xs IH]; intros [|y ys] H; try discriminate; [reflexivity|].
  cbn [map] in H. injection H as H1 H2.
  f_equal; [now apply stuffLine_injective | now apply IH].
Qed.

Lemma stuffLine_not_lone_dot line : stuffLine line <> ".".
Proof.
  rewrite stuffLine_cases. destruct (startsWithDot line) eqn:E.
  - intros H. injection H as H. subst line. discriminate E.
  - intros H. subst line. discriminate E.
Qed.

Lemma stuffLine_two_dots line :
  Js.startsWith (stuffLine line) "." = true -> Js.startsWith (stuffLine line) ".." = true.
Proof.
  rewrite stuffLine_cases. fold (startsWithDot (if startsWithDot line then String "." line else line)).
  destruct (startsWithDot line) eqn:E.
  - intros _. destruct line as [|c line]; [discriminate E|].
    rewrite startsWithDot_cons in E. apply Ascii.eqb_eq in E. subst c.
    unfold Js.startsWith. change ".." with (String "." (String "." EmptyString)).
    rewrite !prefix_cons, prefix_nil. reflexivity.
  - congruence.
Qed.

End StuffMore.

(** X4: dot-stuffing loses nothing: two documents with the same stuffed
    form are the same document. *)
Theorem dotStuff_injective (a b : string) : dotStuff a = dotStuff b -> a = b.
Proof.
  intros H. apply (f_equal Stuff.split) in H.
  rewrite !StuffFacts.split_dotStuff in H.
  apply StuffMore.map_stuffLine_injective in H.
  rewrite <- (StuffFacts.join_split a), <- (StuffFacts.join_split b). now rewrite H.
Qed.

Lemma dotStuff_injective_witness :
  "..Two" ++ CRLF ++ "End" = "..Two" ++ CRLF ++ "End".
Proof.
  apply (dotStuff_injective ("..Two" ++ CRLF ++ "End") ("..Two" ++ CRLF ++ "End")).
  reflexivity.
Defined.

(** X5: dot-stuffing leaves a document as it is exactly when none of its
    lines begins with a dot. *)
Theorem dotStuff_fixed_iff (message : string) :
  dotStuff message = message <->
  Forall (fun line => Js.startsWith line "." = false) (Stuff.split message).
Proof.
  split.
  - intros H. apply (f_equal Stuff.split) in H.
    rewrite StuffFacts.split_dotStuff in H.
    induction (Stuff.split message) as [|line ls IH]; [constructor|].
    cbn [map] in H. injection H as H1 H2. constructor; [|exact (IH H2)].
    unfold Stuff.stuffLine in H1. destruct (Js.startsWith line "."); [|reflexivity].
    apply (f_equal String.length) in H1. cbn in H1. lia.
  - intros H. unfold dotStuff.
    rewrite <- (StuffFacts.join_split message) at 2. f_equal.
    induction H as [|line ls Hline _ IH]; [reflexivity|].
    cbn [map]. rewrite IH. unfold Stuff.stuffLine. now rewrite Hline.
Qed.

(** X6: the lines of a stuffed document: none is a lone dot, and every
    one that begins with a dot begins with two. *)
Theorem dotStuff_never_ends_data (message : string) :
  Forall (fun line => line <> "." /\
                      (Js.startsWith line "." = true -> Js.startsWith line ".." = true))
         (Stuff.split (dotStuff message)).
Proof.
  rewrite StuffFacts.split_dotStuff. apply Forall_map, Forall_forall.
  intros line _. split.
  - apply StuffMore.stuffLine_not_lone_dot.
  - apply StuffMore.stuffLine_two_dots.
Qed.

(** X7: the text that [smtpSendMail] writes after the DATA command, the
    stuffed document followed by CR LF, a dot and CR LF, has the lines of
    the stuffed document, then the lone dot, then an empty piece; and,
    the stuffed lines holding no lone dot, the end-of-data line is the
    only one of the whole text. *)
Theorem data_payload_lines (body : string) :
  Stuff.split (dotStuff body ++ CRLF ++ "." ++ CRLF)
  = (map Stuff.stuffLine (Stuff.split body) ++ ["."; EmptyString])%list /\
  Forall (fun line => line <> ".") (map Stuff.stuffLine (Stuff.split body)).
Proof.
  split.
  - rewrite StuffMore.split_append, StuffFacts.split_dotStuff. reflexivity.
  - apply Forall_map, Forall_forall. intros line _.
    apply StuffMore.stuffLine_not_lone_dot.
Qed.

(** ** Message builder: the lines of the document *)

Module MessageFacts.
Import Stuff StuffFacts StuffMore.

Lemma containsCRLF_append a b :
  containsCRLF (a ++ b) =
  containsCRLF a || containsCRLF b || (endsWithCR a && startsWithLF b).
Proof.
  induction a as [| c | c1 c2 a IH1 IH2] using string_ind2.
  - cbn. now rewrite orb_false_r.
  - cbn [append containsCRLF endsWithCR]. destruct b as [|c2 b].
    + cbn. now rewrite andb_false_r.
    + cbn [startsWithLF orb]. apply orb_comm.
  - change (String c1 (String c2 a) ++ b) with (String c1 (String c2 a ++ b)).
    change (String c2 a ++ b) with (String c2 (a ++ b)) at 1.
    rewrite !containsCRLF_cons2.
    change (String c2 (a ++ b)) with (String c2 a ++ b).
    rewrite IH2.
    change (endsWithCR (String c1 (String c2 a))) with (endsWithCR (String c2 a)).
    now rewrite !orb_assoc.
Qed.

Lemma includes_label label value :
  containsCRLF label = false -> endsWithCR label = false ->
  Js.includes value CRLF = false -> containsCRLF (label ++ value) = false.
Proof.
  intros Hl He Hv. rewrite includes_CRLF in Hv.
  now rewrite containsCRLF_append, Hl, He, Hv.
Qed.

Lemma containsCRLF_join addresses :
  Forall (fun a => Js.includes a CRLF = false) addresses ->
  Js.includes (Js.join ", " addresses) CRLF = false.
Proof.
  intros H. rewrite includes_CRLF.
  induction H as [|a rest Ha Hrest IH]; [reflexivity|].
  rewrite includes_CRLF in Ha.
  destruct rest as [|b rest]; [exact Ha|].
  rewrite join_cons_cons, !containsCRLF_append, Ha, IH.
  cbn. now rewrite andb_false_r.
Qed.

Lemma split_blank rest : split (CRLF ++ rest) = EmptyString :: split rest.
Proof. reflexivity. Qed.

(** The lines of a header block followed by a blank line and a body. *)
Lemma split_document h1 h2 h3 h4 h5 body :
  split (Js.join CRLF [h1; h2; h3; h4; h5] ++ CRLF ++ CRLF ++ body)
  = (split h1 ++ split h2 ++ split h3 ++ split h4 ++ split h5 ++ EmptyString :: split body)%list.
Proof.
  unfold Js.join. cbn [String.concat].
  rewrite !BufferFacts.append_assoc.
  rewrite !split_append, split_blank. repeat rewrite <- app_assoc. reflexivity.
Qed.

End MessageFacts.

(** X8: a message with one part (text or html, not both).  Building it
    draws no identifier and touches nothing in the world.  Its lines are
    the From, To and Subject headers, cut wherever the caller's text holds
    a CR LF (nothing is escaped, so such a text starts a new header line),
    then MIME-Version, the Content-Type of the part, a blank line and the
    lines of the part: html when html is present and not empty, the text
    or nothing otherwise. *)
Theorem createMessage_single_part (mail : Mail) (w : World) :
  truthy (html mail) && truthy (text mail) = false ->
  exists document,
    createMessage mail w = (Ok document, w) /\
    Stuff.split document =
      (callerHeaderLines mail ++
       ["MIME-Version: 1.0";
        contentType (if truthy (html mail) then "html" else "plain");
        EmptyString] ++
       Stuff.split (if truthy (html mail) then orEmpty (html mail)
                    else orEmpty (text mail)))%list.
Proof.
  intros Hone. unfold createMessage. rewrite Hone.
  destruct (truthy (html mail)); eexists; (split; [reflexivity|]);
    unfold push; cbn [List.app]; rewrite MessageFacts.split_document;
    unfold callerHeaderLines; repeat rewrite <- app_assoc; reflexivity.
Qed.

Lemma createMessage_single_part_witness :
  exists document,
    createMessage (mkMail "a@example.com" ["b@example.com"]
                     ("Hello" ++ CRLF ++ "Bcc: c@example.com") (Some "Hi") None)
                  quietWorld
    = (Ok document, quietWorld) /\
    Stuff.split document =
      ["From: a@example.com"; "To: b@example.com"; "Subject: Hello"; "Bcc: c@example.com";
       "MIME-Version: 1.0"; contentType "plain"; EmptyString; "Hi"].
Proof.
  apply (createMessage_single_part
           (mkMail "a@example.com" ["b@example.com"]
              ("Hello" ++ CRLF ++ "Bcc: c@example.com") (Some "Hi") None)
           quietWorld).
  reflexivity.
Defined.

(** X9: when the sender, the recipients and the subject hold no CR LF,
    the header block of a one-part message is exactly its five header
    lines, closed by the blank line. *)
Theorem createMessage_header_block (mail : Mail) (w : World) :
  truthy (html mail) && truthy (text mail) = false ->
  Js.includes (from mail) CRLF = false ->
  Forall (fun address => Js.includes address CRLF = false) (to mail) ->
  Js.includes (subject mail) CRLF = false ->
  exists document,
    createMessage mail w = (Ok document, w) /\
    Stuff.split document =
      ([fromHeader mail;
        toHeader mail;
        subjectHeader mail;
        "MIME-Version: 1.0";
        contentType (if truthy (html mail) then "html" else "plain");
        EmptyString] ++
       Stuff.split (if truthy (html mail) then orEmpty (html mail)
                    else orEmpty (text mail)))%list.
Proof.
  intros Hone Hfrom Hto Hsubject.
  destruct (createMessage_single_part mail w Hone) as (document & Hdoc & Hlines).
  exists document. split; [exact Hdoc|]. rewrite Hlines.
  unfold callerHeaderLines, fromHeader, toHeader, subjectHeader.
  apply MessageFacts.containsCRLF_join in Hto.
  rewrite !StuffFacts.split_single
    by (apply MessageFacts.includes_label; [reflexivity | reflexivity | assumption]).
  reflexivity.
Qed.

Lemma createMessage_header_block_witness :
  exists document,
    createMessage (mkMail "a@example.com" ["b@example.com"; "c@example.com"] "Hello"
                     None (Some "<b>Hi</b>"))
                  quietWorld
    = (Ok document, quietWorld) /\
    Stuff.split document =
      ["From: a@example.com"; "To: b@example.com, c@example.com"; "Subject: Hello";
       "MIME-Version: 1.0"; contentType "html"; EmptyString; "<b>Hi</b>"].
Proof.
  apply (createMessage_header_block
           (mkMail "a@example.com" ["b@example.com"; "c@example.com"] "Hello"
              None (Some "<b>Hi</b>"))
           quietWorld).
  - reflexivity.
  - reflexivity.
  - repeat constructor.
  - reflexivity.
Defined.

Module MultipartFacts.
Import Stuff StuffFacts StuffMore MessageFacts.

Lemma split_join_flat pieces :
  pieces <> [] -> split (Js.join CRLF pieces) = flat_map split pieces.
Proof.
  induction pieces as [|x pieces IH]; [contradiction|]. intros _.
  destruct pieces as [|y pieces].
  - cbn. now rewrite app_nil_r.
  - rewrite join_cons_cons, split_append, IH by discriminate. reflexivity.
Qed.

Lemma wrapped_without_crlf before value after :
  containsCRLF before = false -> endsWithCR before = false ->
  containsCRLF after = false -> startsWithLF after = false ->
  Js.includes value CRLF = false ->
  containsCRLF (before ++ value ++ after) = false.
Proof.
  intros Hb He Ha Hs Hv. rewrite includes_CRLF in Hv.
  rewrite !containsCRLF_append, Hb, He, Ha, Hs, Hv. cbn.
  now rewrite andb_false_r.
Qed.

End MultipartFacts.

(** X10: a message with both a text and an html part.  Building it
    draws one identifier, which makes the boundary, and logs nothing.
    After the caller's headers come MIME-Version, the multipart
    Content-Type naming the boundary and a blank line; then one
    text/plain part and one text/html part, each opened by the same
    boundary line and holding its Content-Type, a blank line and the
    lines of the part; the closing boundary line is the last line. *)
Theorem createMessage_multipart (mail : Mail) (w : World) :
  truthy (html mail) && truthy (text mail) = true ->
  Js.includes (uuidSource w (uuidDrawn w)) CRLF = false ->
  exists document,
    createMessage mail w = (Ok document, afterDraw w) /\
    Stuff.split document =
      (callerHeaderLines mail ++
       ["MIME-Version: 1.0"; multipartHeader (boundaryIn w); EmptyString;
        openingLine (boundaryIn w); contentType "plain"; EmptyString] ++
       Stuff.split (orEmpty (text mail)) ++
       [openingLine (boundaryIn w); contentType "html"; EmptyString] ++
       Stuff.split (orEmpty (html mail)) ++
       [closingLine (boundaryIn w)])%list.
Proof.
  intros Hboth Huuid. unfold createMessage. rewrite Hboth.
  eexists. split; [reflexivity|].
  unfold push. cbn [List.app]. rewrite MessageFacts.split_document.
  rewrite MultipartFacts.split_join_flat by discriminate.
  cbn [flat_map].
  fold (boundaryIn w). fold (openingLine (boundaryIn w)).
  assert (Hb : Js.includes (boundaryIn w) CRLF = false).
  { rewrite StuffFacts.includes_CRLF. unfold boundaryIn.
    apply MessageFacts.includes_label; [reflexivity | reflexivity | exact Huuid]. }
  assert (Hopen : containsCRLF (openingLine (boundaryIn w)) = false).
  { apply MessageFacts.includes_label; [reflexivity | reflexivity | exact Hb]. }
  assert (Hclose : containsCRLF ("--" ++ boundaryIn w ++ "--") = false).
  { apply MultipartFacts.wrapped_without_crlf; try reflexivity. exact Hb. }
  assert (Hhead : containsCRLF ("Content-Type: multipart/alternative; boundary=" ++ quote
                                ++ boundaryIn w ++ quote) = false).
  { change ("Content-Type: multipart/alternative; boundary=" ++ quote ++ boundaryIn w ++ quote)
      with (("Content-Type: multipart/alternative; boundary=" ++ quote) ++ boundaryIn w ++ quote).
    apply MultipartFacts.wrapped_without_crlf; try reflexivity. exact Hb. }
  rewrite !(StuffFacts.split_single _ Hopen), (StuffFacts.split_single _ Hclose),
    (StuffFacts.split_single _ Hhead).
  unfold callerHeaderLines, fromHeader, toHeader, subjectHeader.
  repeat rewrite <- app_assoc. reflexivity.
Qed.

Lemma createMessage_multipart_witness :
  exists document,
    createMessage (mkMail "a@example.com" ["b@example.com"] "Hello" (Some "Hi")
                     (Some "<b>Hi</b>")) quietWorld
    = (Ok document, afterDraw quietWorld) /\
    Stuff.split document =
      ["From: a@example.com"; "To: b@example.com"; "Subject: Hello"; "MIME-Version: 1.0";
       multipartHeader "cf-mailer-00000000-0000-4000-8000-000000000000"; EmptyString;
       "--cf-mailer-00000000-0000-4000-8000-000000000000"; contentType "plain"; EmptyString;
       "Hi";
       "--cf-mailer-00000000-0000-4000-8000-000000000000"; contentType "html"; EmptyString;
       "<b>Hi</b>";
       "--cf-mailer-00000000-0000-4000-8000-000000000000--"].
Proof.
  apply (createMessage_multipart
           (mkMail "a@example.com" ["b@example.com"] "Hello" (Some "Hi") (Some "<b>Hi</b>"))
           quietWorld).
  - reflexivity.
  - reflexivity.
Defined.

(** ** The transcript of a session *)

Module TranscriptFacts.

Section Ids.
Variable source : nat -> string.
Variable drawn : nat.

Lemma plays_ext keep {A} (m : M A) s s' :
  plays source drawn keep m s -> s = s' -> plays source drawn keep m s'.
Proof. now intros H <-. Qed.

Lemma plays_ret keep {A} (a : A) : plays source drawn keep (ret a) [].
Proof.
  intros w Hs Hn. cbn. rewrite app_nil_r. auto.
Qed.

Lemma plays_lift keep {A} (o : Outcome A) : plays source drawn keep (lift o) [].
Proof.
  intros w Hs Hn. unfold lift. destruct o; cbn.
  - rewrite app_nil_r. auto.
  - exists [], []. split; [reflexivity | symmetry; apply app_nil_r].
Qed.

Lemma plays_throw keep {A} e : plays source drawn keep (@throw A e) [].
Proof.
  intros w Hs Hn. cbn. exists [], []. split; [reflexivity | symmetry; apply app_nil_r].
Qed.

Lemma plays_logEvent keep e : plays source drawn keep (logEvent e) [e].
Proof.
  intros w Hs Hn. cbn. auto.
Qed.

Lemma plays_write keep h payload :
  plays source drawn keep (write h payload) [Write h payload].
Proof. apply plays_logEvent. Qed.

Lemma plays_writeSmtpCommand keep h line :
  plays source drawn keep (writeSmtpCommand h line) [sent h line].
Proof. apply plays_logEvent. Qed.

Lemma plays_close keep h : plays source drawn keep (close h) [Close h].
Proof. apply plays_logEvent. Qed.

Lemma plays_readResponse keep h : plays source drawn keep (readResponse h) [].
Proof.
  intros w Hs Hn. unfold readResponse.
  destruct (readSmtpResponse (inputOf h w)) as [[reply|e] rest].
  - destruct h; cbn; rewrite app_nil_r; auto.
  - exists [], []. destruct h; cbn; (split; [reflexivity | symmetry; apply app_nil_r]).
Qed.

Lemma plays_bind keep {A B} (m : M A) (k : A -> M B) s1 s2 :
  plays source drawn true m s1 ->
  (forall a, plays source drawn keep (k a) s2) ->
  plays source drawn keep (bind m k) (s1 ++ s2).
Proof.
  intros Hm Hk w Hs Hn. unfold bind. specialize (Hm w Hs Hn).
  destruct (m w) as [[a|e] w1].
  - destruct Hm as (Hlog & Hids). destruct (Hids eq_refl) as (Hs1 & Hn1).
    specialize (Hk a w1 Hs1 Hn1).
    destruct (k a w1) as [[b|e] w2].
    + destruct Hk as (Hlog2 & Hids2). split; [|exact Hids2].
      now rewrite Hlog2, Hlog, app_assoc.
    + destruct Hk as (done & rest & -> & Hlog2).
      exists (s1 ++ done)%list, rest. split; [apply app_assoc|].
      now rewrite Hlog2, Hlog, app_assoc.
  - destruct Hm as (done & rest & -> & Hlog).
    exists done, (rest ++ s2)%list. split; [symmetry; apply app_assoc | exact Hlog].
Qed.

Lemma plays_connect keep host port mode :
  plays source drawn keep (connect host port mode) [Connect host port mode].
Proof.
  unfold connect. eapply plays_ext.
  - apply plays_bind; [apply plays_logEvent | intros ?; apply plays_ret].
  - reflexivity.
Qed.

Lemma plays_startTls keep h : plays source drawn keep (startTls h) [StartTls].
Proof.
  unfold startTls. eapply plays_ext.
  - apply plays_bind; [apply plays_logEvent | intros ?; apply plays_ret].
  - reflexivity.
Qed.

Lemma plays_forOf {A} (xs : list A) (body : A -> M unit) (line : A -> Event) :
  (forall x, plays source drawn true (body x) [line x]) ->
  plays source drawn true (forOf xs body) (map line xs).
Proof.
  intros Hbody. induction xs as [|x xs IH]; cbn [forOf map].
  - apply plays_ret.
  - change (line x :: map line xs) with ([line x] ++ map line xs)%list.
    apply plays_bind; [apply Hbody | intros _; exact IH].
Qed.

(** A step that throws ends the script. *)
Lemma plays_unreached keep {A B} e (k : A -> M B) :
  plays source drawn keep (bind (lift (Throw e)) k) [].
Proof.
  intros w Hs Hn. cbn. exists [], []. split; [reflexivity | symmetry; apply app_nil_r].
Qed.

(** A value that is at hand is passed on. *)
Lemma plays_reached keep {A B} (x : A) (k : A -> M B) s :
  plays source drawn keep (k x) s -> plays source drawn keep (bind (lift (Ok x)) k) s.
Proof. intros H w Hs Hn. exact (H w Hs Hn). Qed.

(** A step that returns only when [flag] is set: what follows it is
    played only then. *)
Lemma plays_bind_guard keep {A B} (m : M A) (k : A -> M B) s1 s2 (flag : bool) :
  plays source drawn true m s1 ->
  succeedsOnly m (flag = true) ->
  (forall a, plays source drawn keep (k a) s2) ->
  plays source drawn keep (bind m k) (s1 ++ (if flag then s2 else [])).
Proof.
  intros Hm Hflag Hk. destruct flag; [now apply plays_bind|].
  intros w Hs Hn. unfold bind. specialize (Hm w Hs Hn). specialize (Hflag w).
  destruct (m w) as [[a|e] w1].
  - discriminate (Hflag a w1 eq_refl).
  - destruct Hm as (done & rest & -> & Hlog). exists done, rest.
    split; [apply app_nil_r | exact Hlog].
Qed.

End Ids.

Create HintDb plays.

#[local] Hint Resolve plays_ret plays_lift plays_throw plays_write plays_writeSmtpCommand
  plays_close plays_readResponse plays_connect plays_startTls : plays.

(** One step after the other, the scripts put end to end. *)
Ltac play :=
  repeat (first [ match goal with
                  | |- plays _ _ _ (bind (lift (Throw _)) _) _ => apply plays_unreached
                  | |- plays _ _ _ (bind (lift (Ok _)) _) _ => apply plays_reached
                  end
                | eapply plays_bind; [solve [eauto with plays] | intros ?]
                | solve [eauto with plays] ]).

Section Pieces.
Variable source : nat -> string.
Variable drawn : nat.

Lemma plays_smtpAuth capabilities credentials h :
  plays source drawn true (smtpAuth capabilities credentials h)
        (fst (authExchange capabilities credentials h)).
Proof.
  unfold smtpAuth, authExchange.
  destruct (plain (auth capabilities)); [|destruct (login (auth capabilities))].
  - destruct (Base64.btoa _) as [token|e]; cbn [fst];
      (eapply plays_ext; [play | reflexivity]).
  - destruct (Base64.btoa (user credentials)) as [userAnswer|e];
      [destruct (Base64.btoa (pass credentials)) as [passAnswer|e]|]; cbn [fst];
      (eapply plays_ext; [play | reflexivity]).
  - apply plays_throw.
Qed.

Lemma succeedsOnly_smtpAuth capabilities credentials h :
  succeedsOnly (smtpAuth capabilities credentials h)
               (snd (authExchange capabilities credentials h) = true).
Proof.
  intros w a w' Hrun. unfold authExchange.
  destruct (plain (auth capabilities)) eqn:Hplain;
    [|destruct (login (auth capabilities)) eqn:Hlogin].
  - destruct (Base64.btoa _) as [token|e] eqn:Hb; [reflexivity|].
    rewrite (AuthFacts.smtpAuth_plain_unencodable _ _ h w e Hplain Hb) in Hrun.
    discriminate.
  - destruct (AuthFacts.smtpAuth_login capabilities credentials h w Hplain Hlogin)
      as (_ & Hok).
    rewrite Hrun in Hok. cbn [fst] in Hok. destruct a.
    apply proj1 in Hok. specialize (Hok eq_refl). unfold loginCompletes in Hok.
    destruct (Base64.btoa (user credentials)) as [userAnswer|e];
      [destruct (Base64.btoa (pass credentials)) as [passAnswer|e]|];
      [reflexivity | |]; now rewrite andb_false_r in Hok.
  - rewrite (AuthFacts.smtpAuth_unsupported _ _ h w Hplain Hlogin) in Hrun.
    discriminate.
Qed.

Lemma plays_authentication config capabilities h :
  plays source drawn true
        (match MailerConfig.auth config with
         | Some credentials => smtpAuth capabilities credentials h
         | None => ret tt
         end)
        (fst (authentication config capabilities h)).
Proof.
  unfold authentication. destruct (MailerConfig.auth config).
  - apply plays_smtpAuth.
  - apply plays_ret.
Qed.

Lemma succeedsOnly_authentication config capabilities h :
  succeedsOnly
    (match MailerConfig.auth config with
     | Some credentials => smtpAuth capabilities credentials h
     | None => ret tt
     end)
    (snd (authentication config capabilities h) = true).
Proof.
  unfold authentication. destruct (MailerConfig.auth config).
  - apply succeedsOnly_smtpAuth.
  - intros w a w' _. reflexivity.
Qed.

Lemma plays_codeRcpt h recipient :
  plays source drawn true (codeRcpt h recipient) [recipientLine h recipient].
Proof.
  unfold codeRcpt. eapply plays_ext; [play | reflexivity].
Qed.

End Pieces.

Lemma createMessage_document mail w :
  exists w1,
    createMessage mail w
    = (Ok (documentOf mail (idsWorld (uuidSource w) (uuidDrawn w))), w1) /\
    log w1 = log w.
Proof.
  unfold documentOf, createMessage.
  destruct (truthy (html mail) && truthy (text mail)); [|destruct (truthy (html mail))];
    eexists; split; reflexivity.
Qed.

Lemma documentOf_ids mail w :
  documentOf mail (idsWorld (uuidSource w) (uuidDrawn w)) = documentOf mail w.
Proof.
  unfold documentOf, createMessage.
  destruct (truthy (html mail) && truthy (text mail)); [|destruct (truthy (html mail))];
    reflexivity.
Qed.

Lemma plays_identifier source drawn {A} (k : string -> A) :
  plays source drawn false (id <- randomUUID ;; ret (k id)) [].
Proof.
  intros w Hs Hn. cbn. rewrite app_nil_r. split; [reflexivity | discriminate].
Qed.

Lemma plays_codeQuit source drawn h :
  plays source drawn false (codeQuit h) [sent h "QUIT"; Close h].
Proof.
  unfold codeQuit. eapply plays_ext.
  - do 3 (eapply plays_bind; [solve [eauto with plays] | intros ?]).
    apply plays_identifier.
  - reflexivity.
Qed.

Lemma plays_codeBody source drawn mail h :
  plays source drawn false (codeBody mail h)
        [Write h (dotStuff (documentOf mail (idsWorld source drawn)) ++ CRLF ++ "." ++ CRLF);
         sent h "QUIT"; Close h].
Proof.
  intros w Hs Hn. unfold codeBody, bind at 1.
  destruct (createMessage_document mail w) as (w1 & -> & Hlog).
  rewrite Hs, Hn, <- Hlog.
  generalize (documentOf mail (idsWorld source drawn)). intros document.
  revert w1 Hlog.
  change (forall w1, log w1 = log w ->
    match (write h (dotStuff document ++ CRLF ++ "." ++ CRLF) ;;
           queued <- readResponse h ;;
           lift (assertSmtpOk queued [250%Z] "DATA end") ;; codeQuit h) w1 with
    | (Ok _, w') =>
        log w' = (log w1 ++ [Write h (dotStuff document ++ CRLF ++ "." ++ CRLF);
                             sent h "QUIT"; Close h])%list /\
        (false = true -> uuidSource w' = source /\ uuidDrawn w' = drawn)
    | (Throw _, w') =>
        exists done rest,
          [Write h (dotStuff document ++ CRLF ++ "." ++ CRLF); sent h "QUIT"; Close h]
          = (done ++ rest)%list /\ log w' = (log w1 ++ done)%list
    end).
  intros w1 _.
  assert (H : plays (uuidSource w1) (uuidDrawn w1) false
                (write h (dotStuff document ++ CRLF ++ "." ++ CRLF) ;;
                 queued <- readResponse h ;;
                 lift (assertSmtpOk queued [250%Z] "DATA end") ;; codeQuit h)
                [Write h (dotStuff document ++ CRLF ++ "." ++ CRLF); sent h "QUIT"; Close h]).
  { eapply plays_ext.
    - do 3 (eapply plays_bind; [solve [eauto with plays] | intros ?]).
      apply plays_codeQuit.
    - reflexivity. }
  specialize (H w1 eq_refl eq_refl).
  destruct ((write h (dotStuff document ++ CRLF ++ "." ++ CRLF) ;;
             queued <- readResponse h ;;
             lift (assertSmtpOk queued [250%Z] "DATA end") ;; codeQuit h) w1)
    as [[result|e] w2].
  - destruct H as (H & _). split; [exact H | discriminate].
  - exact H.
Qed.

Lemma plays_codeData source drawn mail h :
  plays source drawn false (codeData mail h)
        (delivery (documentOf mail (idsWorld source drawn)) h).
Proof.
  unfold codeData, delivery. eapply plays_ext.
  - do 3 (eapply plays_bind; [solve [eauto with plays] | intros ?]).
    apply plays_codeBody.
  - reflexivity.
Qed.

Lemma plays_codeSecured source drawn config mail h capabilities :
  plays source drawn false (codeSecured config mail h capabilities)
        (fst (authentication config capabilities h) ++
         (if snd (authentication config capabilities h)
          then envelope mail h ++ delivery (documentOf mail (idsWorld source drawn)) h
          else [])).
Proof.
  unfold codeSecured, envelope.
  apply plays_bind_guard;
    [apply plays_authentication | apply succeedsOnly_authentication | intros _].
  eapply plays_ext.
  - do 3 (eapply plays_bind; [solve [eauto with plays] | intros ?]).
    eapply plays_bind; [apply plays_forOf; intros x; apply plays_codeRcpt | intros _].
    apply plays_codeData.
  - reflexivity.
Qed.

Lemma succeedsOnly_first {A B} (m : M A) (k : A -> M B) good :
  succeedsOnly m good -> succeedsOnly (bind m k) good.
Proof.
  intros Hm w b w'. unfold bind. specialize (Hm w).
  destruct (m w) as [[a|e] w1]; [|discriminate].
  intros _. exact (Hm a w1 eq_refl).
Qed.

Lemma succeedsOnly_codeSecured config mail h capabilities :
  succeedsOnly (codeSecured config mail h capabilities)
               (snd (authentication config capabilities h) = true).
Proof.
  unfold codeSecured. apply succeedsOnly_first, succeedsOnly_authentication.
Qed.

(** *** The handshake *)

Ltac step_on :=
  cbn [bind ret inputOf setInput plainInput tlsInput uuidSource uuidDrawn log fst snd].

Ltac stopped :=
  left; eexists _, _, _, _; split; [reflexivity|];
  split; [cbn [log]; rewrite <- ?app_assoc; reflexivity | cbn [List.app]; reflexivity].

Ltac through :=
  right; eexists; split; [reflexivity|];
  split; [cbn [log]; rewrite <- ?app_assoc; reflexivity | split; reflexivity].

(** Either the session throws during the handshake, having done an
    initial part of it, or it gets through the whole of it and goes on
    with the capabilities of the EHLO reply. *)
Lemma handshake_run config mail w :
  (MailerConfig.port config =? 25)%Z = false ->
  (exists e w' done rest,
     smtpSendMail config mail w = (Throw e, w') /\
     log w' = (log w ++ done)%list /\ handshake config = (done ++ rest)%list) \/
  (exists w1,
     smtpSendMail config mail w
     = codeSecured config mail (sessionHandle config) (announced config w) w1 /\
     log w1 = (log w ++ handshake config)%list /\
     uuidSource w1 = uuidSource w /\ uuidDrawn w1 = uuidDrawn w).
Proof.
  intros Hport. rewrite SessionFacts.smtpSendMail_code, Hport.
  unfold handshake, sessionHandle, announced, sent.
  unfold connect, startTls, writeSmtpCommand, write, logEvent, readResponse, lift,
    assertSmtpOk. unfold bind.
  destruct (Machine.mode config) eqn:Hmode; step_on;
    (destruct (readSmtpResponse (plainInput w)) as [[greeting|e] rest1];
       [|stopped]);
    (destruct (includesCode [220%Z] (code greeting)); [|stopped]);
    step_on;
    (destruct (readSmtpResponse rest1) as [[ehlo|e] rest2]; [|stopped]);
    (destruct (includesCode [250%Z] (code ehlo)); [|stopped]);
    step_on; try through.
  destruct (readSmtpResponse rest2) as [[ready|e] rest3]; [|stopped].
  destruct (includesCode [220%Z] (code ready)); [|stopped].
  step_on.
  destruct (readSmtpResponse (tlsInput w)) as [[tlsEhlo|e] rest4]; [|stopped].
  destruct (includesCode [250%Z] (code tlsEhlo)); [|stopped].
  through.
Qed.

(** The whole session: what it has done to the network when it
    returns, and when it throws. *)
Lemma session_plays config mail w :
  let exchange := authentication config (announced config w) (sessionHandle config) in
  let whole := transcript config mail (announced config w) (documentOf mail w) in
  match smtpSendMail config mail w with
  | (Ok _, w') => log w' = (log w ++ whole)%list /\ snd exchange = true
  | (Throw _, w') =>
      exists done rest, log w' = (log w ++ done)%list /\ whole = (done ++ rest)%list
  end.
Proof.
  intros exchange whole. subst exchange whole. unfold transcript. cbv zeta.
  destruct (MailerConfig.port config =? 25)%Z eqn:Hport.
  { unfold smtpSendMail. rewrite Hport. cbn.
    eexists [], _. split; [symmetry; apply app_nil_r | reflexivity]. }
  destruct (handshake_run config mail w Hport)
    as [(e & w' & done & rest & -> & Hlog & Hhand) | (w1 & -> & Hlog & Hs & Hn)].
  - exists done. eexists. split; [exact Hlog|]. rewrite Hhand, <- app_assoc. reflexivity.
  - pose proof (plays_codeSecured (uuidSource w) (uuidDrawn w) config mail
                  (sessionHandle config) (announced config w) w1 Hs Hn) as Hplay.
    pose proof (succeedsOnly_codeSecured config mail (sessionHandle config)
                  (announced config w) w1) as Hgood.
    rewrite documentOf_ids in Hplay.
    destruct (codeSecured config mail (sessionHandle config) (announced config w) w1)
      as [[result|e] w'].
    + destruct Hplay as (Hplay & _). split; [|exact (Hgood result w' eq_refl)].
      now rewrite Hplay, Hlog, <- app_assoc.
    + destruct Hplay as (done & rest & Hscript & Hlog').
      exists (handshake config ++ done)%list, rest. split.
      * now rewrite Hlog', Hlog, <- app_assoc.
      * now rewrite Hscript, <- app_assoc.
Qed.

End TranscriptFacts.

(** X11: what a session that succeeds has done to the network.  The
    log grows by exactly this, in this order: the connection; EHLO; with
    STARTTLS also the STARTTLS command, the upgrade and a second EHLO on
    the upgraded socket; the AUTH exchange if credentials are configured;
    MAIL FROM; one RCPT TO for every recipient, in the order of the list;
    DATA; the dot-stuffed document followed by the line with a single
    dot; QUIT; the close of the socket.  The document is the one
    [createMessage] builds for the mail in the world the session started
    in.  The AUTH exchange is the one for the capabilities of the EHLO
    reply that the server sent last before it, AUTH PLAIN if that reply
    offers PLAIN and AUTH LOGIN with its two answers if it offers LOGIN
    alone; a session with credentials succeeds only if that reply offers
    one of the two and [btoa] encodes the credentials. *)
Theorem smtpSendMail_transcript (config : MailerConfig.t) (mail : Mail) (w w' : World)
  (result : SendMailResult) :
  smtpSendMail config mail w = (Ok result, w') ->
  log w' = (log w ++ handshake config ++
            fst (authentication config (announced config w) (sessionHandle config)) ++
            envelope mail (sessionHandle config) ++
            delivery (documentOf mail w) (sessionHandle config))%list /\
  snd (authentication config (announced config w) (sessionHandle config)) = true.
Proof.
  intros Hrun. pose proof (TranscriptFacts.session_plays config mail w) as H.
  cbv zeta in H. rewrite Hrun in H. destruct H as (Hlog & Hauth).
  split; [|exact Hauth]. rewrite Hlog. unfold transcript. cbv zeta.
  now rewrite Hauth.
Qed.

Lemma smtpSendMail_transcript_witness :
  let w := scripted [crlf "220 ready";
                     crlf "250-AUTH PLAIN LOGIN" ++ crlf "250 OK";
                     crlf "235 authenticated";
                     crlf "250 sender ok";
                     crlf "250 recipient ok"; crlf "251 will forward";
                     crlf "354 go ahead";
                     crlf "250 queued";
                     crlf "221 bye"] in
  log (snd (smtpSendMail submission letter w))
  = (log w ++ handshake submission ++
     fst (authentication submission (announced submission w) (sessionHandle submission)) ++
     envelope letter (sessionHandle submission) ++
     delivery (documentOf letter w) (sessionHandle submission))%list /\
  snd (authentication submission (announced submission w) (sessionHandle submission))
  = true.
Proof.
  intros w.
  apply (smtpSendMail_transcript submission letter w (snd (smtpSendMail submission letter w))
           (mkResult "00000000-0000-4000-8000-000000000000")).
  vm_compute. reflexivity.
Defined.

(** X12: what a session that throws has done to the network: an
    initial part of what it does when the server accepts every step, and
    nothing else.  The full sequence is the one of the capabilities that
    the server announced in its last EHLO reply before the
    authentication: with credentials configured it holds the AUTH
    exchange for them after the handshake, and it ends with that
    exchange where the authentication cannot be completed (no mechanism
    on offer, or credentials that [btoa] does not encode).  So nothing
    is written out of order, the AUTH exchange is not skipped, and the
    document is not written before the handshake, the authentication,
    MAIL FROM, every RCPT TO and DATA have been written. *)
Theorem smtpSendMail_partial_transcript (config : MailerConfig.t) (mail : Mail)
  (w w' : World) (e : SmtpError) :
  smtpSendMail config mail w = (Throw e, w') ->
  exists done rest,
    log w' = (log w ++ done)%list /\
    transcript config mail (announced config w) (documentOf mail w) = (done ++ rest)%list.
Proof.
  intros Hrun. pose proof (TranscriptFacts.session_plays config mail w) as H.
  cbv zeta in H. rewrite Hrun in H. exact H.
Qed.

Lemma smtpSendMail_partial_transcript_witness :
  let w := scripted [crlf "220 ready";
                     crlf "250-AUTH PLAIN LOGIN" ++ crlf "250 OK";
                     crlf "235 authenticated";
                     crlf "250 sender ok";
                     crlf "250 recipient ok"; crlf "550 no such user"] in
  exists done rest,
    log (snd (smtpSendMail submission letter w)) = (log w ++ done)%list /\
    transcript submission letter (announced submission w) (documentOf letter w)
    = (done ++ rest)%list.
Proof.
  intros w.
  apply (smtpSendMail_partial_transcript submission letter w
           (snd (smtpSendMail submission letter w))
           (ProtocolError "RCPT TO" (Dec 550 0) ["550 no such user"])).
  vm_compute. reflexivity.
Defined.

(** X13: with STARTTLS, the socket that [connect] returned carries the
    EHLO and STARTTLS commands and nothing else, whatever the server
    answers and whether the session succeeds or throws: credentials,
    addresses and the document go over the upgraded socket only, and the
    socket that [connect] returned is never closed by the client. *)
Theorem starttls_plain_socket (config : MailerConfig.t) (mail : Mail) (w : World) :
  Machine.mode config = starttls ->
  exists events,
    log (snd (smtpSendMail config mail w)) = (log w ++ events)%list /\
    Forall (beforeUpgrade config) events.
Proof.
  intros Hmode.
  assert (Hall : Forall (beforeUpgrade config)
            (transcript config mail (announced config w) (documentOf mail w))).
  { unfold transcript, handshake, sessionHandle. cbv zeta. rewrite Hmode.
    apply Forall_app. split; [|apply Forall_app; split].
    - repeat (apply Forall_cons || apply Forall_nil); cbn; auto.
    - unfold authentication. destruct (MailerConfig.auth config); [|constructor].
      unfold authExchange.
      destruct (plain (auth (announced config w)));
        [|destruct (login (auth (announced config w)))];
        repeat match goal with
               | |- context [Base64.btoa ?x] => destruct (Base64.btoa x)
               end; cbn [fst];
        repeat (apply Forall_cons || apply Forall_nil); exact I.
    - match goal with |- Forall _ (if ?b then _ else _) => destruct b end; [|constructor].
      unfold envelope, delivery. apply Forall_app. split.
      + constructor; [exact I|]. apply Forall_map, Forall_forall. intros x _. exact I.
      + repeat (apply Forall_cons || apply Forall_nil); exact I. }
  pose proof (TranscriptFacts.session_plays config mail w) as H. cbv zeta in H.
  destruct (smtpSendMail config mail w) as [[result|e] w'].
  - eexists. split; [exact (proj1 H) | exact Hall].
  - destruct H as (done & rest & Hlog & Hscript). exists done. split; [exact Hlog|].
    rewrite Hscript in Hall. now apply Forall_app in Hall.
Qed.

Lemma starttls_plain_socket_witness :
  let config := MailerConfig.mk "smtp.example.com" 587 None None
                  (Some (latin1Credentials "user" "pass")) in
  let w := mkWorld [crlf "220 ready"; crlf "250 OK"; crlf "220 go ahead"]
                   [crlf "250 AUTH LOGIN"; crlf "334 VXNlcm5hbWU6"; crlf "535 no"]
                   (fun _ => "00000000-0000-4000-8000-000000000000") 0 [] in
  exists events,
    log (snd (smtpSendMail config letter w)) = (log w ++ events)%list /\
    Forall (beforeUpgrade config) events.
Proof.
  intros config w. apply (starttls_plain_socket config letter w). vm_compute. reflexivity.
Defined.

(** ** The capability parser *)

Module CapsFacts.
Import Caps.

Lemma upperChar_space c : Js.isWhiteSpace (upperChar c) = Js.isWhiteSpace c.
Proof. destruct c as [[] [] [] [] [] [] [] []]; reflexivity. Qed.

Lemma upperChar_digit c : Js.isDigit (upperChar c) = Js.isDigit c.
Proof. destruct c as [[] [] [] [] [] [] [] []]; reflexivity. Qed.

Lemma upperChar_separator c :
  Ascii.eqb (upperChar c) " " || Ascii.eqb (upperChar c) "-"
  = Ascii.eqb c " " || Ascii.eqb c "-".
Proof. destruct c as [[] [] [] [] [] [] [] []]; reflexivity. Qed.

Lemma upper_trimStart s : toUpperCase (Js.trimStart s) = Js.trimStart (toUpperCase s).
Proof.
  induction s as [|c s IH]; [reflexivity|].
  cbn [Js.trimStart toUpperCase]. rewrite upperChar_space.
  destruct (Js.isWhiteSpace c); [exact IH | reflexivity].
Qed.

Lemma upper_trimEnd s : toUpperCase (Js.trimEnd s) = Js.trimEnd (toUpperCase s).
Proof.
  induction s as [|c s IH]; [reflexivity|].
  cbn [Js.trimEnd toUpperCase]. rewrite <- IH.
  destruct (Js.trimEnd s) as [|d t]; cbn [toUpperCase].
  - rewrite upperChar_space. now destruct (Js.isWhiteSpace c).
  - reflexivity.
Qed.

Lemma upper_stripCode s : toUpperCase (stripCode s) = stripCode (toUpperCase s).
Proof.
  destruct s as [|a [|b [|c [|d rest]]]]; try reflexivity.
  unfold stripCode. cbn [toUpperCase].
  rewrite !upperChar_digit, <- !andb_assoc, upperChar_separator.
  now destruct (Js.isDigit a && (Js.isDigit b && (Js.isDigit c &&
                  (Ascii.eqb d " " || Ascii.eqb d "-")))).
Qed.

Lemma normalizedLine_upper line :
  normalizedLine line = Js.trim (stripCode (toUpperCase line)).
Proof.
  unfold normalizedLine, Js.trim.
  now rewrite upper_trimEnd, upper_trimStart, upper_stripCode.
Qed.

(** The parser sees the lines through [normalizedLine] only. *)
Lemma parse_normalized code code' lines1 lines2 :
  map normalizedLine lines1 = map normalizedLine lines2 ->
  parseSmtpCapabilities (mkResponse code lines1)
  = parseSmtpCapabilities (mkResponse code' lines2).
Proof.
  intros H. unfold parseSmtpCapabilities. cbn [lines].
  change (fun line => toUpperCase (Js.trim (stripCode line))) with normalizedLine.
  now rewrite H.
Qed.

Lemma advertised_nonEmpty line :
  Js.startsWith line "AUTH " = true -> nonEmpty line = true.
Proof. destruct line; [discriminate | reflexivity]. Qed.

Lemma find_auth_line before line after :
  Forall (fun l => advertisesAuth l = false) before ->
  advertisesAuth line = true ->
  find (fun l => Js.startsWith l "AUTH ")
       (filter nonEmpty (map normalizedLine (before ++ line :: after)))
  = Some (normalizedLine line).
Proof.
  intros Hbefore Hline. induction Hbefore as [|x before Hx _ IH]; cbn [List.app map filter].
  - rewrite (advertised_nonEmpty _ Hline). cbn [find].
    unfold advertisesAuth in Hline. now rewrite Hline.
  - destruct (nonEmpty (normalizedLine x)); [|exact IH].
    cbn [find]. unfold advertisesAuth in Hx. now rewrite Hx.
Qed.

Lemma find_no_auth_line received :
  Forall (fun l => advertisesAuth l = false) received ->
  find (fun l => Js.startsWith l "AUTH ") (filter nonEmpty (map normalizedLine received))
  = None.
Proof.
  intros H. induction H as [|x received Hx _ IH]; [reflexivity|].
  cbn [map filter]. destruct (nonEmpty (normalizedLine x)); [|exact IH].
  cbn [find]. unfold advertisesAuth in Hx. now rewrite Hx.
Qed.

Lemma parse_first code before line after :
  Forall (fun l => advertisesAuth l = false) before ->
  advertisesAuth line = true ->
  parseSmtpCapabilities (mkResponse code (before ++ line :: after))
  = let methods := splitSpaces (Js.sliceFrom (normalizedLine line) 5) in
    mkCaps (mkAuthCaps (existsb (String.eqb "PLAIN") methods)
                       (existsb (String.eqb "LOGIN") methods)).
Proof.
  intros Hbefore Hline. unfold parseSmtpCapabilities. cbn [lines].
  change (fun line => toUpperCase (Js.trim (stripCode line))) with normalizedLine.
  now rewrite (find_auth_line before line after Hbefore Hline).
Qed.

End CapsFacts.

(** X14: only the first line that announces AUTH counts.  The lines
    before it that announce nothing, the lines after it (a second AUTH
    line too) and the reply code change nothing in the capabilities
    that are read. *)
Theorem parseSmtpCapabilities_first_auth_line (code code' : JsNumber)
  (before after : list string) (line : string) :
  Forall (fun l => advertisesAuth l = false) before ->
  advertisesAuth line = true ->
  parseSmtpCapabilities (mkResponse code (before ++ line :: after))
  = parseSmtpCapabilities (mkResponse code' [line]).
Proof.
  intros Hbefore Hline.
  rewrite (CapsFacts.parse_first code before line after Hbefore Hline).
  symmetry. exact (CapsFacts.parse_first code' [] line [] (Forall_nil _) Hline).
Qed.

Lemma parseSmtpCapabilities_first_auth_line_witness :
  parseSmtpCapabilities
    (mkResponse (Dec 250 0)
       ["250-mail.example.com"; "250-SIZE 1000"; "250-AUTH LOGIN"; "250 AUTH PLAIN"])
  = parseSmtpCapabilities (mkResponse (Dec 250 0) ["250-AUTH LOGIN"]).
Proof.
  apply (parseSmtpCapabilities_first_auth_line (Dec 250 0) (Dec 250 0)
           ["250-mail.example.com"; "250-SIZE 1000"] ["250 AUTH PLAIN"] "250-AUTH LOGIN").
  - repeat constructor.
  - reflexivity.
Defined.

(** X15: a reply without a line that announces AUTH gives no
    mechanism at all.  The keyword alone, and the form with an equals
    sign, are such lines. *)
Theorem parseSmtpCapabilities_without_auth (code : JsNumber) (received : list string) :
  Forall (fun l => advertisesAuth l = false) received ->
  parseSmtpCapabilities (mkResponse code received) = mkCaps (mkAuthCaps false false).
Proof.
  intros H. unfold parseSmtpCapabilities. cbn [lines].
  change (fun line => Caps.toUpperCase (Js.trim (Caps.stripCode line))) with normalizedLine.
  now rewrite (CapsFacts.find_no_auth_line received H).
Qed.

Lemma parseSmtpCapabilities_without_auth_witness :
  parseSmtpCapabilities
    (mkResponse (Dec 250 0) ["250-mail.example.com"; "250-AUTH"; "250 AUTH=PLAIN LOGIN"])
  = mkCaps (mkAuthCaps false false).
Proof.
  apply (parseSmtpCapabilities_without_auth (Dec 250 0)
           ["250-mail.example.com"; "250-AUTH"; "250 AUTH=PLAIN LOGIN"]).
  repeat constructor.
Defined.

(** X16: the parser does not look at the case of letters: two replies
    whose lines are the same once put in upper case give the same
    capabilities. *)
Theorem parseSmtpCapabilities_case_insensitive (code code' : JsNumber)
  (lines1 lines2 : list string) :
  map Caps.toUpperCase lines1 = map Caps.toUpperCase lines2 ->
  parseSmtpCapabilities (mkResponse code lines1)
  = parseSmtpCapabilities (mkResponse code' lines2).
Proof.
  intros H. apply CapsFacts.parse_normalized.
  rewrite !(map_ext normalizedLine
             (fun line => Js.trim (Caps.stripCode (Caps.toUpperCase line)))
             CapsFacts.normalizedLine_upper).
  rewrite <- (map_map Caps.toUpperCase (fun line => Js.trim (Caps.stripCode line)) lines1).
  rewrite <- (map_map Caps.toUpperCase (fun line => Js.trim (Caps.stripCode line)) lines2).
  now rewrite H.
Qed.

Lemma parseSmtpCapabilities_case_insensitive_witness :
  parseSmtpCapabilities (mkResponse (Dec 250 0) ["250-Mail.Example.com"; "250 auth Plain"])
  = parseSmtpCapabilities (mkResponse (Dec 250 0) ["250-MAIL.EXAMPLE.COM"; "250 AUTH PLAIN"]).
Proof.
  apply (parseSmtpCapabilities_case_insensitive (Dec 250 0) (Dec 250 0)
           ["250-Mail.Example.com"; "250 auth Plain"]
           ["250-MAIL.EXAMPLE.COM"; "250 AUTH PLAIN"]).
  reflexivity.
Defined.

Module MechanismFacts.
Import Caps.

Lemma word_cases t :
  mechanism t = true ->
  exists c rest, t = String c rest /\ Js.isWhiteSpace c = false /\
                 hasWhiteSpace rest = false.
Proof.
  unfold mechanism. destruct t as [|c rest]; [discriminate|].
  cbn [nonEmpty hasWhiteSpace andb]. intros H. apply andb_prop in H as [_ H].
  apply negb_true_iff, orb_false_iff in H as [Hc Hrest]. eauto.
Qed.

Lemma word_without_space t : mechanism t = true -> hasWhiteSpace t = false.
Proof.
  intros H. destruct (word_cases t H) as (c & rest & -> & Hc & Hrest).
  cbn [hasWhiteSpace]. now rewrite Hc, Hrest.
Qed.

Lemma splitSpaces_word t : hasWhiteSpace t = false -> splitSpaces t = [t].
Proof.
  induction t as [|c t IH]; [reflexivity|].
  cbn [hasWhiteSpace splitSpaces]. intros H. apply orb_false_iff in H as [Hc Ht].
  now rewrite Hc, (IH Ht).
Qed.

Lemma splitSpaces_word_then t c rest :
  hasWhiteSpace t = false -> Js.isWhiteSpace c = false ->
  splitSpaces (t ++ " " ++ String c rest) = t :: splitSpaces (String c rest).
Proof.
  intros Ht Hc. induction t as [|x t IH].
  - change (EmptyString ++ " " ++ String c rest) with (String " " (String c rest)).
    cbn [splitSpaces]. change (Js.isWhiteSpace " ") with true. cbv beta iota.
    now rewrite Hc.
  - cbn [hasWhiteSpace] in Ht. apply orb_false_iff in Ht as [Hx Ht].
    change (String x t ++ " " ++ String c rest)
      with (String x (t ++ " " ++ String c rest)).
    cbn [splitSpaces]. now rewrite Hx, (IH Ht).
Qed.

Lemma join_word_head t rest :
  mechanism t = true ->
  exists c tail, Js.join " " (t :: rest) = String c tail /\ Js.isWhiteSpace c = false.
Proof.
  intros H. destruct (word_cases t H) as (c & t' & -> & Hc & _).
  destruct rest as [|y rest].
  - exists c, t'. now split.
  - rewrite StuffFacts.join_cons_cons. cbn [append]. eauto.
Qed.

Lemma splitSpaces_join names :
  names <> [] -> Forall (fun name => mechanism name = true) names ->
  splitSpaces (Js.join " " names) = names.
Proof.
  intros Hne Hall. induction Hall as [|x names Hx Hall IH]; [contradiction|].
  destruct names as [|y names].
  - apply splitSpaces_word, word_without_space, Hx.
  - rewrite StuffFacts.join_cons_cons.
    destruct (join_word_head y names (Forall_inv Hall)) as (c & tail & Hjoin & Hc).
    rewrite Hjoin, splitSpaces_word_then by (auto using word_without_space).
    rewrite <- Hjoin, IH by discriminate. reflexivity.
Qed.

Lemma trimEnd_ink s : endsInInk s = true -> Js.trimEnd s = s.
Proof.
  induction s as [|c s IH]; [discriminate|].
  cbn [endsInInk Js.trimEnd]. destruct s as [|d s].
  - cbn [Js.trimEnd]. intros H. apply negb_true_iff in H. now rewrite H.
  - intros H. now rewrite (IH H).
Qed.

Lemma endsInInk_append a b : endsInInk b = true -> endsInInk (a ++ b) = true.
Proof.
  intros Hb. induction a as [|c a IH]; [exact Hb|].
  cbn [append endsInInk]. destruct (a ++ b); [discriminate IH | exact IH].
Qed.

Lemma word_ends_in_ink t : mechanism t = true -> endsInInk t = true.
Proof.
  intros H. destruct (word_cases t H) as (c & rest & -> & Hc & Hrest).
  clear H. revert c Hc. induction rest as [|d rest IH]; intros c Hc.
  - cbn. now rewrite Hc.
  - cbn [hasWhiteSpace] in Hrest. apply orb_false_iff in Hrest as [Hd Hrest].
    cbn [endsInInk]. exact (IH Hrest d Hd).
Qed.

Lemma join_ends_in_ink names :
  names <> [] -> Forall (fun name => mechanism name = true) names ->
  endsInInk (Js.join " " names) = true.
Proof.
  intros Hne Hall. induction Hall as [|x names Hx Hall IH]; [contradiction|].
  destruct names as [|y names].
  - apply word_ends_in_ink, Hx.
  - rewrite StuffFacts.join_cons_cons. apply endsInInk_append, endsInInk_append, IH.
    discriminate.
Qed.

Lemma upper_append a b : toUpperCase (a ++ b) = toUpperCase a ++ toUpperCase b.
Proof.
  induction a as [|c a IH]; [reflexivity|]. cbn [append toUpperCase]. now rewrite IH.
Qed.

Lemma upper_join names :
  toUpperCase (Js.join " " names) = Js.join " " (map toUpperCase names).
Proof.
  induction names as [|x names IH]; [reflexivity|].
  destruct names as [|y names]; [reflexivity|].
  cbn [map]. rewrite !StuffFacts.join_cons_cons, !upper_append, IH. reflexivity.
Qed.

Lemma upper_word t : mechanism (toUpperCase t) = mechanism t.
Proof.
  unfold mechanism. f_equal.
  - now destruct t.
  - f_equal. induction t as [|c t IH]; [reflexivity|].
    cbn [toUpperCase hasWhiteSpace]. now rewrite CapsFacts.upperChar_space, IH.
Qed.

Lemma prefix_same p x : prefix p (p ++ x) = true.
Proof.
  induction p as [|c p IH]; [apply StuffFacts.prefix_nil|].
  cbn [append]. now rewrite StuffFacts.prefix_cons, Ascii.eqb_refl.
Qed.

Lemma stripCode_authLine p separator names :
  Invariant.threeDigits p = true ->
  separator = " "%char \/ separator = "-"%char ->
  stripCode (authLine p separator names) = "AUTH " ++ Js.join " " names.
Proof.
  intros Hp Hsep. destruct (WellFormed.three_chars p Hp) as (a & b & c & -> & Ha & Hb & Hc).
  unfold authLine. cbn [append]. unfold stripCode. rewrite Ha, Hb, Hc.
  now destruct Hsep as [-> | ->].
Qed.

Lemma normalizedLine_authLine p separator names :
  Invariant.threeDigits p = true ->
  separator = " "%char \/ separator = "-"%char ->
  names <> [] -> Forall (fun name => mechanism name = true) names ->
  normalizedLine (authLine p separator names)
  = "AUTH " ++ Js.join " " (map toUpperCase names).
Proof.
  intros Hp Hsep Hne Hall. unfold normalizedLine.
  rewrite (stripCode_authLine p separator names Hp Hsep).
  unfold Js.trim.
  change (Js.trimStart ("AUTH " ++ Js.join " " names)) with ("AUTH " ++ Js.join " " names).
  rewrite trimEnd_ink by (apply endsInInk_append, join_ends_in_ink; assumption).
  now rewrite upper_append, upper_join.
Qed.

End MechanismFacts.

(** X17: the mechanisms are read back from the line that announces
    them.  When the first AUTH line of the reply is the code, a space or
    a hyphen, the keyword and a list of names separated by single
    spaces, PLAIN is reported exactly when one of the names is PLAIN in
    some case of letters, and LOGIN likewise; the names are compared as
    wholes, so that a name such as PLAIN-CLIENTTOKEN does not count as
    PLAIN. *)
Theorem parseSmtpCapabilities_mechanisms (code : JsNumber) (p : string) (separator : ascii)
  (names before after : list string) :
  Invariant.threeDigits p = true ->
  separator = " "%char \/ separator = "-"%char ->
  names <> [] ->
  Forall (fun name => mechanism name = true) names ->
  Forall (fun l => advertisesAuth l = false) before ->
  parseSmtpCapabilities (mkResponse code (before ++ authLine p separator names :: after))
  = mkCaps (mkAuthCaps (existsb (String.eqb "PLAIN") (map Caps.toUpperCase names))
                       (existsb (String.eqb "LOGIN") (map Caps.toUpperCase names))).
Proof.
  intros Hp Hsep Hne Hall Hbefore.
  pose proof (MechanismFacts.normalizedLine_authLine p separator names Hp Hsep Hne Hall)
    as Hline.
  assert (Hauth : advertisesAuth (authLine p separator names) = true).
  { unfold advertisesAuth, Js.startsWith. rewrite Hline. apply MechanismFacts.prefix_same. }
  rewrite (CapsFacts.parse_first code before _ after Hbefore Hauth). cbv zeta.
  rewrite Hline. cbn [append].
  rewrite !ReaderTermination.sliceFrom_cons, ReaderTermination.sliceFrom_0.
  rewrite MechanismFacts.splitSpaces_join; [reflexivity | |].
  - now destruct names.
  - apply Forall_map. revert Hall. apply Forall_impl. intros name Hname.
    now rewrite MechanismFacts.upper_word.
Qed.

Lemma parseSmtpCapabilities_mechanisms_witness :
  parseSmtpCapabilities
    (mkResponse (Dec 250 0)
       ["250-mail.example.com"; "250-AUTH plain-clienttoken Login xoauth2"; "250 AUTH PLAIN"])
  = mkCaps (mkAuthCaps false true).
Proof.
  apply (parseSmtpCapabilities_mechanisms (Dec 250 0) "250" "-"
           ["plain-clienttoken"; "Login"; "xoauth2"] ["250-mail.example.com"]
           ["250 AUTH PLAIN"]).
  - reflexivity.
  - now right.
  - discriminate.
  - repeat constructor.
  - repeat constructor.
Defined.

(** ** Construction of a mailer *)

Module ConfigFacts.

Lemma stringMin1_empty s : Zod.stringMin1 s = false <-> s = EmptyString.
Proof. destruct s; cbn; split; intros H; congruence. Qed.

Lemma unitsMin1_empty (units : CodeUnits) : Zod.unitsMin1 units = false <-> units = [].
Proof. destruct units; cbn; split; intros H; congruence. Qed.

Lemma helo_refused (name : option string) :
  Zod.optional Zod.stringMin1 name = false <-> name = Some EmptyString.
Proof.
  destruct name as [name|]; cbn [Zod.optional].
  - rewrite stringMin1_empty. split; [now intros -> | now intros [= ->]].
  - split; discriminate.
Qed.

Lemma auth_refused (credentials : option Credentials) :
  Zod.optional mailerAuthSchema credentials = false <->
  exists c, credentials = Some c /\ (user c = [] \/ pass c = []).
Proof.
  destruct credentials as [c|]; cbn [Zod.optional].
  - unfold mailerAuthSchema. rewrite andb_false_iff, !unitsMin1_empty. split.
    + intros H. eauto.
    + now intros (c' & [= <-] & H).
  - split; [discriminate | now intros (c & H & _)].
Qed.

Lemma mailerConfigSchema_false config :
  mailerConfigSchema config = false <->
  refusedConfig config \/ (9007199254740991 < MailerConfig.port config)%Z.
Proof.
  unfold mailerConfigSchema, refusedConfig, Zod.intPositive.
  replace (Zod.optional (fun _ : bool => true) (MailerConfig.secure config)) with true
    by now destruct (MailerConfig.secure config).
  rewrite andb_true_r.
  rewrite !andb_false_iff, stringMin1_empty, Z.ltb_ge, Z.leb_gt, helo_refused, auth_refused.
  tauto.
Qed.

End ConfigFacts.

(** X18: [createMailer] throws a validation error for every
    configuration with an empty host, a port that is zero or negative,
    an empty HELO name, or credentials with an empty user name or
    password.  It gives a mailer for every other configuration whose
    port is at most 2^53 - 1, port 25 included: that port is refused
    only when a message is sent. *)
Theorem createMailer_refuses (config : MailerConfig.t) :
  (refusedConfig config -> createMailer config = Throw ValidationError) /\
  (~ refusedConfig config -> (MailerConfig.port config <= 9007199254740991)%Z ->
   exists mailer, createMailer config = Ok mailer).
Proof.
  unfold createMailer, validateMailerConfig. split.
  - intros H.
    now rewrite (proj2 (ConfigFacts.mailerConfigSchema_false config) (or_introl H)).
  - intros Hfine Hport.
    destruct (mailerConfigSchema config) eqn:E; [eexists; reflexivity|].
    apply ConfigFacts.mailerConfigSchema_false in E. destruct E as [E|E]; [contradiction | lia].
Qed.

(** X19: a single recipient given as a string is sent to as the list
    with that one recipient: the two calls of [send] return the same
    result and leave the same world. *)
Theorem send_single_recipient (config : MailerConfig.t) (mailer : Mailer)
  (sender recipient title : string) (body page : option string) (w : World) :
  createMailer config = Ok mailer ->
  send mailer (SendMailInput.mk sender (One recipient) title body page) w
  = send mailer (SendMailInput.mk sender (Many [recipient]) title body page) w.
Proof.
  intros Hmk. unfold createMailer in Hmk.
  destruct (validateMailerConfig config) as [parsedConfig|e]; [|discriminate].
  injection Hmk as <-. cbn [send].
  unfold bind at 1 3. unfold lift, validateSendMailInput, sendMailInputSchema, Zod.arrayMin1.
  cbn [SendMailInput.from SendMailInput.to SendMailInput.subject SendMailInput.text
       SendMailInput.html forallb List.length Nat.leb].
  rewrite !andb_true_r.
  destruct (Zod.stringMin1 sender && Zod.stringMin1 recipient && Zod.stringMin1 title &&
            Zod.optional Zod.stringMin1 body && Zod.optional Zod.stringMin1 page);
    reflexivity.
Qed.

Lemma send_single_recipient_witness :
  exists mailer,
    createMailer exampleConfig = Ok mailer /\
    send mailer (SendMailInput.mk "a@example.com" (One "b@example.com") "Hello" (Some "Hi") None)
         (scripted [crlf "220 ready"; crlf "250 OK"; crlf "250 sender ok"; crlf "550 no"])
    = send mailer
        (SendMailInput.mk "a@example.com" (Many ["b@example.com"]) "Hello" (Some "Hi") None)
        (scripted [crlf "220 ready"; crlf "250 OK"; crlf "250 sender ok"; crlf "550 no"]).
Proof.
  eexists. split.
  - reflexivity.
  - apply (send_single_recipient exampleConfig _ "a@example.com" "b@example.com" "Hello"
             (Some "Hi") None _ eq_refl).
Defined.

(** ** Credentials on the wire *)

Module Base64Facts.
Import Base64.

Lemma get_in n s c : String.get n s = Some c -> In c (list_ascii_of_string s).
Proof.
  revert n. induction s as [|a s IH]; intros n; [destruct n; discriminate|].
  destruct n as [|n]; cbn [String.get list_ascii_of_string].
  - intros [= ->]. now left.
  - intros H. right. exact (IH n H).
Qed.

Lemma sextet_inLine n : inLine (sextet n) = true.
Proof.
  unfold sextet. destruct (String.get n alphabet) as [c|] eqn:E; [|reflexivity].
  apply get_in in E.
  assert (Hall : forallb inLine (list_ascii_of_string alphabet) = true) by reflexivity.
  rewrite forallb_forall in Hall. exact (Hall c E).
Qed.

Lemma encode_bounded n text :
  (String.length text <= n)%nat -> lineBreakFree (encode text) = true.
Proof.
  revert text. induction n as [|n IH]; intros text Hlen.
  - destruct text; [reflexivity | cbn in Hlen; lia].
  - destruct text as [|a [|b [|c rest]]]; cbn [encode lineBreakFree];
      rewrite ?sextet_inLine; try reflexivity.
    cbn [andb]. apply IH. cbn [String.length] in Hlen. lia.
Qed.

Lemma encode_lineBreakFree text : lineBreakFree (encode text) = true.
Proof. exact (encode_bounded (String.length text) text (le_n _)). Qed.

Lemma btoa_lineBreakFree units token :
  btoa units = Ok token -> lineBreakFree token = true.
Proof.
  unfold btoa. destruct (CodeUnits.latin1 units); [|discriminate].
  intros [= <-]. apply encode_lineBreakFree.
Qed.

Lemma lineBreakFree_append a b :
  lineBreakFree (a ++ b) = lineBreakFree a && lineBreakFree b.
Proof.
  induction a as [|c a IH]; [reflexivity|].
  cbn [append lineBreakFree]. now rewrite IH, andb_assoc.
Qed.

Lemma authExchange_lines capabilities credentials h :
  Forall (oneCommandLine h) (fst (authExchange capabilities credentials h)).
Proof.
  unfold authExchange.
  destruct (plain (auth capabilities)); [|destruct (login (auth capabilities))].
  - destruct (btoa _) as [token|e] eqn:Hb; cbn [fst]; [|constructor].
    repeat (apply Forall_cons || apply Forall_nil).
    eexists; split; [reflexivity|].
    now rewrite lineBreakFree_append, (btoa_lineBreakFree _ _ Hb).
  - destruct (btoa (user credentials)) as [userAnswer|e] eqn:Hu;
      [destruct (btoa (pass credentials)) as [passAnswer|e] eqn:Hp|]; cbn [fst];
      repeat (apply Forall_cons || apply Forall_nil);
      (eexists; split; [reflexivity|]);
      first [ reflexivity
            | exact (btoa_lineBreakFree _ _ Hu)
            | exact (btoa_lineBreakFree _ _ Hp) ].
  - constructor.
Qed.

End Base64Facts.

(** X20: credentials cannot break out of their command line.  Whatever
    the user name and the password hold, CR and LF included, and
    whatever the server answers, every write of the negotiator is one
    command line on the socket it was given: a text without CR and LF,
    ended by CR LF. *)
Theorem smtpAuth_writes_command_lines (capabilities : SmtpCapabilities)
  (credentials : Credentials) (h : Handle) (w : World) :
  exists events,
    log (snd (smtpAuth capabilities credentials h w)) = (log w ++ events)%list /\
    Forall (oneCommandLine h) events.
Proof.
  pose proof (TranscriptFacts.plays_smtpAuth (uuidSource w) (uuidDrawn w)
                capabilities credentials h w eq_refl eq_refl) as H.
  pose proof (Base64Facts.authExchange_lines capabilities credentials h) as Hall.
  destruct (smtpAuth capabilities credentials h w) as [[[]|e] w'].
  - destruct H as (H & _). eexists. split; [exact H | exact Hall].
  - destruct H as (done & rest & Hscript & Hlog). exists done. split; [exact Hlog|].
    rewrite Hscript in Hall. now apply Forall_app in Hall.
Qed.
